(** * A shallow embedding of the per-connection core of the STOMP broker

    The development follows the three source files of the repository:
    the frame model of package [message] (content-length, accept-version,
    heart-beat, validation), the pending-ack list of package [client]
    ([subscription_list.go]) and the session engine ([conn.go]).

    Go values are modelled as the code has them: strings as [string],
    integers as [Z] with the width written out where it matters, a Go
    function with several results as a tuple, [error] as [option Error]
    ([None] is [nil]), pointers to subscriptions as addresses into an
    explicit heap, and a run-time panic as the [Panic] outcome. *)

From Stdlib Require Import ZArith Lia Bool Ascii String List.
From Stdlib Require Import DecimalString DecimalN OrdersEx Sorted Permutation.
From stdpp Require Import base option list gmap strings fin_maps.

Local Open Scope string_scope.
Local Open Scope Z_scope.

(** ** Errors and panics *)

(** The error values of both packages.  [NumErrorSyntax] and
    [NumErrorRange] are the two errors of [strconv.ParseUint];
    [writeError] stands for any I/O error of the frame writer. *)
Inductive Error : Type :=
  | invalidCommand
  | unknownCommand
  | unexpectedCommand
  | notConnected
  | notConnectFrame
  | missingHeader (name : string)
  | clientMissingHeader
  | unknownVersion
  | invalidHeartBeat
  | exceededMaxFrameSize
  | receiptInConnect
  | authenticationFailed
  | invalidOperationForFrame
  | txAlreadyInProgress
  | txUnknown
  | NumErrorSyntax
  | NumErrorRange
  | writeError
  | replayDepthExhausted.

(** A computation that may panic. *)
Inductive Result (A : Type) : Type :=
  | Ok (a : A)
  | Panic (msg : string).
Arguments Ok {A} a.
Arguments Panic {A} msg.

Definition nilDereference : string := "invalid memory address or nil pointer dereference".

(** ** Package [message] *)

Module message.

(** *** Command and header names *)

(** Modelled from the spec: the command tags and header names are
    constants of package [message] declared outside the files at hand;
    they carry the names of the STOMP wire protocol.  The header names
    [ContentLength], [AcceptVersion] and [HeartBeat] end in [H] here, to
    keep them apart from the frame methods of the same names. *)
Definition CONNECT := "CONNECT".
Definition STOMP := "STOMP".
Definition CONNECTED := "CONNECTED".
Definition SEND := "SEND".
Definition SUBSCRIBE := "SUBSCRIBE".
Definition UNSUBSCRIBE := "UNSUBSCRIBE".
Definition ACK := "ACK".
Definition NACK := "NACK".
Definition BEGIN := "BEGIN".
Definition COMMIT := "COMMIT".
Definition ABORT := "ABORT".
Definition DISCONNECT := "DISCONNECT".
Definition MESSAGE := "MESSAGE".
Definition RECEIPT := "RECEIPT".
Definition ERROR := "ERROR".

Definition ContentLengthH := "content-length".
Definition AcceptVersionH := "accept-version".
Definition HeartBeatH := "heart-beat".
Definition Receipt := "receipt".
Definition ReceiptId := "receipt-id".
Definition Transaction := "transaction".
Definition MessageId := "message-id".
Definition Ack := "ack".
Definition Message := "message".
Definition Version := "version".
Definition Server := "server".
Definition Login := "login".
Definition Passcode := "passcode".
Definition Host := "host".
Definition Destination := "destination".
Definition Id := "id".
Definition Subscription := "subscription".

(** Modelled from the spec: the protocol versions, an ordered enumeration
    whose values are the strings of the wire protocol
    ([type StompVersion string]). *)
Definition StompVersion := string.
Definition V1_0 : StompVersion := "1.0".
Definition V1_1 : StompVersion := "1.1".
Definition V1_2 : StompVersion := "1.2".

(** Modelled from the spec: the acknowledgement modes of a subscription. *)
Inductive AckMode : Type := AckAuto | AckClient | AckClientIndividual.

(** Maximum content length allowed 16MB *)
Definition MaxContentLength : Z := 16 * 1024 * 1024.

(** *** Headers *)

(** Modelled from the spec: the header collection, an ordered multimap
    by name.  Insertion order is kept, the first entry of a name is the
    one looked up, [Set] ([Set_] here) overwrites that entry or appends,
    and [Remove] strips the header of that name from the collection. *)
Definition Headers := list (string * string).

Fixpoint Contains (h : Headers) (name : string) : option string :=
  match h with
  | [] => None
  | (k, v) :: h' => if String.eqb k name then Some v else Contains h' name
  end.

Definition Append (h : Headers) (name value : string) : Headers :=
  (h ++ [(name, value)])%list.

Fixpoint setFirst (h : Headers) (name value : string) : Headers :=
  match h with
  | [] => []
  | (k, v) :: h' =>
      if String.eqb k name then (k, value) :: h'
      else (k, v) :: setFirst h' name value
  end.

Definition Set_ (h : Headers) (name value : string) : Headers :=
  match Contains h name with
  | Some _ => setFirst h name value
  | None => Append h name value
  end.

Definition Remove (h : Headers) (name : string) : Headers :=
  List.filter (fun kv => negb (String.eqb (fst kv) name)) h.

(** *** Frames *)

Record Frame : Type := mkFrame {
  Command : string;
  headers : Headers;
  Body : list Byte.byte
}.

Definition withHeaders (f : Frame) (h : Headers) : Frame :=
  {| Command := Command f; headers := h; Body := Body f |}.

(** The embedded [Headers] methods, promoted to the frame. *)
Definition fContains (f : Frame) (name : string) : option string :=
  Contains (headers f) name.
Definition fAppend (f : Frame) (name value : string) : Frame :=
  withHeaders f (Append (headers f) name value).
Definition fSet (f : Frame) (name value : string) : Frame :=
  withHeaders f (Set_ (headers f) name value).
Definition fRemove (f : Frame) (name : string) : Frame :=
  withHeaders f (Remove (headers f) name).

(** [NewFrame]: the variadic argument of the source is a flat list that
    the loop reads two entries at a time; the embedding takes the pairs. *)
Definition NewFrame (command : string) (hs : list (string * string)) : Frame :=
  fold_left (fun f kv => fAppend f (fst kv) (snd kv)) hs
            {| Command := command; headers := []; Body := [] |}.

(** *** [strconv] and [strings] *)

Definition isDigit (c : ascii) : bool :=
  let n := Z.of_N (N_of_ascii c) in (48 <=? n) && (n <=? 57).

Definition digitVal (c : ascii) : Z := Z.of_N (N_of_ascii c) - 48.

(** The digit loop of [strconv.ParseUint] in base 10: a character that
    is not a digit is a syntax error, a value above [maxVal] a range
    error, whichever the loop meets first. *)
Fixpoint parseLoop (maxVal : Z) (s : string) (n : Z) : Z * option Error :=
  match s with
  | EmptyString => (n, None)
  | String c s' =>
      if isDigit c then
        let n1 := n * 10 + digitVal c in
        if maxVal <? n1 then (maxVal, Some NumErrorRange)
        else parseLoop maxVal s' n1
      else (0, Some NumErrorSyntax)
  end.

Definition ParseUint (s : string) (bitSize : Z) : Z * option Error :=
  match s with
  | EmptyString => (0, Some NumErrorSyntax)
  | _ => parseLoop (2 ^ bitSize - 1) s 0
  end.

(** [strconv.FormatUint(n, 10)] and the verb [%d] on a value that is not
    negative. *)
Definition FormatUint (n : Z) : string :=
  NilZero.string_of_uint (N.to_uint (Z.to_N n)).

(** [strings.Split(s, ",")]. *)
Fixpoint Split (s : string) : list string :=
  match s with
  | EmptyString => [EmptyString]
  | String c s' =>
      if Ascii.eqb c "," then EmptyString :: Split s'
      else match Split s' with
           | w :: ws => String c w :: ws
           | [] => [String c EmptyString]
           end
  end.

(** Go compares strings byte by byte. *)
Definition strLe (a b : string) : bool :=
  match String_as_OT.compare a b with Gt => false | _ => true end.

Fixpoint insertSorted (x : string) (l : list string) : list string :=
  match l with
  | [] => [x]
  | y :: l' => if strLe x y then x :: y :: l' else y :: insertSorted x l'
  end.

(** [sort.Strings]: the list in increasing order. *)
Definition sortStrings (l : list string) : list string :=
  fold_right insertSorted [] l.

(** *** The heart-beat pattern *)

Fixpoint spanDigits (s : string) : string * string :=
  match s with
  | EmptyString => (EmptyString, EmptyString)
  | String c s' =>
      if isDigit c then
        let '(d, r) := spanDigits s' in (String c d, r)
      else (EmptyString, s)
  end.

Definition oneToNine (s : string) : bool :=
  let n := String.length s in (Nat.leb 1 n) && (Nat.leb n 9).

(** [heartBeatRegexp.MatchString] for the pattern
    [^[0-9]{1,9},[0-9]{1,9}$]. *)
Definition heartBeatRegexp (s : string) : bool :=
  let '(a, r) := spanDigits s in
  oneToNine a &&
  match r with
  | String c r' =>
      Ascii.eqb c "," &&
      (let '(b, r'') := spanDigits r' in
       oneToNine b && match r'' with EmptyString => true | _ => false end)
  | EmptyString => false
  end.

(** *** [ContentLength], [AcceptVersion], [HeartBeat] *)

Definition ContentLength (f : Frame) : Z * bool * option Error :=
  match fContains f ContentLengthH with
  | None => (0, false, None)
  | Some text =>
      match ParseUint text 32 with
      | (_, Some err) => (0, false, Some err)
      | (value, None) =>
          if MaxContentLength <? value then (0, false, Some exceededMaxFrameSize)
          else (value, true, None)
      end
  end.

(** One turn of the loop over the sorted versions. *)
Definition acceptStep (acc : StompVersion * option Error) (v : string)
  : StompVersion * option Error :=
  if String.eqb v V1_0 then (V1_0, None)
  else if String.eqb v V1_1 then (V1_1, None)
  else if String.eqb v V1_2 then (V1_2, None)
  else acc.

Definition AcceptVersion (f : Frame) : StompVersion * option Error :=
  let isConnect := String.eqb (Command f) CONNECT in
  if negb isConnect && negb (String.eqb (Command f) STOMP) then
    (EmptyString, Some notConnectFrame)
  else
    match Contains (headers f) AcceptVersionH with
    | Some acceptVersion =>
        let versions := sortStrings (Split acceptVersion) in
        fold_left acceptStep versions (EmptyString, Some unknownVersion)
    | None =>
        if isConnect then (V1_0, None)
        else (EmptyString, Some (missingHeader AcceptVersionH))
    end.

Definition HeartBeat (f : Frame) : Z * Z * option Error :=
  if negb (String.eqb (Command f) CONNECT)
     && negb (String.eqb (Command f) STOMP)
     && negb (String.eqb (Command f) CONNECTED) then
    (0, 0, Some invalidOperationForFrame)
  else
    match Contains (headers f) HeartBeatH with
    | Some heartBeat =>
        if negb (heartBeatRegexp heartBeat) then (0, 0, Some invalidHeartBeat)
        else
          let slice := Split heartBeat in
          let value1 := fst (ParseUint (nth 0 slice EmptyString) 32) in
          let value2 := fst (ParseUint (nth 1 slice EmptyString) 32) in
          (value1, value2, None)
    | None => (0, 0, None)
    end.

(** *** [Validate] *)

Fixpoint verifyRequiredHeaders (f : Frame) (names : list string) : option Error :=
  match names with
  | [] => None
  | name :: names' =>
      match Contains (headers f) name with
      | None => Some (missingHeader name)
      | Some _ => verifyRequiredHeaders f names'
      end
  end.

Definition validateConnect (f : Frame) : option Error :=
  match AcceptVersion f with
  | (_, Some err) => Some err
  | (version, None) =>
      if String.eqb version V1_0 then None
      else
        match verifyRequiredHeaders f [Host] with
        | Some err => Some err
        | None =>
            match fContains f HeartBeatH with
            | Some heartBeat =>
                if negb (heartBeatRegexp heartBeat) then Some invalidHeartBeat
                else None
            | None => None
            end
        end
  end.

Definition Validate (f : Frame) : option Error :=
  let c := Command f in
  if String.eqb c CONNECT || String.eqb c STOMP then validateConnect f
  else if String.eqb c CONNECTED then None
  else if String.eqb c SEND then verifyRequiredHeaders f [Destination]
  else if String.eqb c SUBSCRIBE then verifyRequiredHeaders f [Destination; Id]
  else if String.eqb c UNSUBSCRIBE then verifyRequiredHeaders f [Id]
  else if String.eqb c ACK then verifyRequiredHeaders f [Id]
  else if String.eqb c NACK then verifyRequiredHeaders f [Id]
  else if String.eqb c BEGIN then verifyRequiredHeaders f [Transaction]
  else if String.eqb c COMMIT then verifyRequiredHeaders f [Transaction]
  else if String.eqb c ABORT then verifyRequiredHeaders f [Transaction]
  else if String.eqb c DISCONNECT then None
  else if String.eqb c MESSAGE then
    verifyRequiredHeaders f [Destination; MessageId; Subscription]
  else if String.eqb c RECEIPT then verifyRequiredHeaders f [ReceiptId]
  else if String.eqb c ERROR then None
  else Some invalidCommand.

End message.

(** ** Package [client] *)

Module client.
Import message.

(** *** Subscriptions and the pending-ack list ([subscription_list.go]) *)

(** Addresses of heap objects; Go pointers are compared by address. *)
Definition loc := nat.

(** Modelled from the spec: the subscription object.  [frame] is the
    [MESSAGE] held while the subscription awaits acknowledgement ([None]
    is the nil pointer) and [subList] the back-pointer to the pending-ack
    list that holds the subscription. *)
Record Subscription : Type := mkSub {
  id : string;
  destination : string;
  ack : AckMode;
  frame : option Frame;
  subList : option loc
}.

Definition withSubList (s : Subscription) (sl : option loc) : Subscription :=
  {| id := id s; destination := destination s; ack := ack s;
     frame := frame s; subList := sl |}.

Definition withFrame (s : Subscription) (f : option Frame) : Subscription :=
  {| id := id s; destination := destination s; ack := ack s;
     frame := f; subList := subList s |}.

(** The part of the Go heap the session shares with the upper layer:
    the subscription objects, and the element sequence of every
    [SubscriptionList] ([container/list], front first). *)
Record Heap : Type := mkHeap {
  subscriptions : gmap loc Subscription;
  lists : gmap loc (list loc)
}.

Definition isAckAuto (a : AckMode) : bool :=
  match a with AckAuto => true | _ => false end.

Definition alreadyInList : string :=
  "subscription is already in a subscription list".

(** [Add]: push to the back, panic when the back-pointer is set. *)
Definition Add (sl sub : loc) (h : Heap) : Result Heap :=
  match subscriptions h !! sub with
  | None => Panic nilDereference
  | Some s =>
      match subList s with
      | Some _ => Panic alreadyInList
      | None =>
          match lists h !! sl with
          | None => Panic nilDereference
          | Some l =>
              Ok {| subscriptions :=
                      <[sub := withSubList s (Some sl)]> (subscriptions h);
                    lists := <[sl := (l ++ [sub])%list]> (lists h) |}
          end
      end
  end.

(** [Get]: pop the front and clear its back-pointer. *)
Definition Get (sl : loc) (h : Heap) : Result (option loc * Heap) :=
  match lists h !! sl with
  | None => Panic nilDereference
  | Some [] => Ok (None, h)
  | Some (front :: l') =>
      match subscriptions h !! front with
      | None => Panic nilDereference
      | Some s =>
          Ok (Some front,
              {| subscriptions :=
                   <[front := withSubList s None]> (subscriptions h);
                 lists := <[sl := l']> (lists h) |})
      end
  end.

(** Drop the first element equal to [s]. *)
Fixpoint removeFirst (s : loc) (l : list loc) : option (list loc) :=
  match l with
  | [] => None
  | e :: l' =>
      if Nat.eqb e s then Some l'
      else match removeFirst s l' with
           | Some r => Some (e :: r)
           | None => None
           end
  end.

(** [Remove]: unlink the element holding [s] and clear the back-pointer
    of [s]; nothing happens when [s] is not in the list. *)
Definition Remove (sl s : loc) (h : Heap) : Result Heap :=
  match lists h !! sl with
  | None => Panic nilDereference
  | Some l =>
      match removeFirst s l with
      | None => Ok h
      | Some l' =>
          match subscriptions h !! s with
          | None => Panic nilDereference
          | Some sub =>
              Ok {| subscriptions :=
                      <[s := withSubList sub None]> (subscriptions h);
                    lists := <[sl := l']> (lists h) |}
          end
      end
  end.

(** The search loop of [FindByIdAndRemove] over the element sequence. *)
Fixpoint findById (m : gmap loc Subscription) (ident : string) (l : list loc)
  : Result (option loc * list loc) :=
  match l with
  | [] => Ok (None, [])
  | e :: l' =>
      match m !! e with
      | None => Panic nilDereference
      | Some sub =>
          if String.eqb (id sub) ident then Ok (Some e, l')
          else match findById m ident l' with
               | Ok (r, rest) => Ok (r, e :: rest)
               | Panic msg => Panic msg
               end
      end
  end.

(** [FindByIdAndRemove]: unlink the first subscription with that id and
    return it; the subscription object itself is not written. *)
Definition FindByIdAndRemove (sl : loc) (ident : string) (h : Heap)
  : Result (option loc * Heap) :=
  match lists h !! sl with
  | None => Panic nilDereference
  | Some l =>
      match findById (subscriptions h) ident l with
      | Panic msg => Panic msg
      | Ok (None, _) => Ok (None, h)
      | Ok (Some e, l') =>
          Ok (Some e,
              {| subscriptions := subscriptions h;
                 lists := <[sl := l']> (lists h) |})
      end
  end.

(** *** The session ([conn.go]) *)

(** Modelled from the spec: the configuration contract,
    [HeartBeat() -> duration] in nanoseconds and
    [Authenticate(login, passcode) -> bool]. *)
Record Config : Type := mkConfig {
  HeartBeatCfg : Z;
  Authenticate : string -> string -> bool
}.

(** Modelled from the spec: the largest heart-beat period, nine digits. *)
Definition MaxHeartBeat : Z := 999999999.

Definition Millisecond : Z := 1000000.

(** Modelled from the spec: the helper [asMilliseconds] is declared
    outside the files at hand; the server minimum is the configured
    period in milliseconds, capped at the maximum. *)
Definition asMilliseconds (d : Z) (max : Z) : Z :=
  Z.min (Z.quot d Millisecond) max.

(** Signed 64-bit wrap-around of [time.Duration] arithmetic. *)
Definition wrap64 (z : Z) : Z := (z + 2 ^ 63) mod 2 ^ 64 - 2 ^ 63.

(** The two state functions a [stateFunc] can hold. *)
Inductive StateFunc : Type := connectingS | connectedS.

(** Requests to the upper layer, one constructor per operation. *)
Inductive Request : Type :=
  | EnqueueOp (f : Frame)
  | SubscribeOp (sub : loc)
  | UnsubscribeOp (sub : loc)
  | RequeueOp (f : option Frame)
  | DisconnectedOp.

(** The effects of the session in program order: a frame handed to the
    writer with the outcome of the write ([None] as frame is the
    heart-beat), a request put on the request channel, a frame put on the
    session's own write channel by [Send], and a frame appended to a
    transaction of the store. *)
Inductive Event : Type :=
  | Written (f : option Frame) (err : option Error)
  | Requested (r : Request)
  | Queued (f : Frame)
  | Stored (tx : string) (f : Frame).

(** The fields of [Conn] the session engine reads and writes, with the
    shared heap, the network and the log of effects next to them.
    [subListP] is the field [subList], a pointer to the pending-ack
    list. *)
Record Conn : Type := mkConn {
  config : Config;
  stateFunc : StateFunc;
  readTimeout : Z;
  writeTimeout : Z;
  version : StompVersion;
  txStore : gmap string (list Frame);
  lastMsgId : Z;
  subListP : loc;
  subs : gmap string loc;
  heap : Heap;
  (** whether the network fails each of the coming writes, none of them
      once the list is used up *)
  netErrors : list bool;
  log : list Event
}.

Definition setStateFunc (v : StateFunc) (c : Conn) : Conn :=
  mkConn (config c) v (readTimeout c) (writeTimeout c) (version c)
         (txStore c) (lastMsgId c) (subListP c) (subs c) (heap c)
         (netErrors c) (log c).
Definition setTimeouts (r w : Z) (c : Conn) : Conn :=
  mkConn (config c) (stateFunc c) r w (version c)
         (txStore c) (lastMsgId c) (subListP c) (subs c) (heap c)
         (netErrors c) (log c).
Definition setVersion (v : StompVersion) (c : Conn) : Conn :=
  mkConn (config c) (stateFunc c) (readTimeout c) (writeTimeout c) v
         (txStore c) (lastMsgId c) (subListP c) (subs c) (heap c)
         (netErrors c) (log c).
Definition setTxStore (v : gmap string (list Frame)) (c : Conn) : Conn :=
  mkConn (config c) (stateFunc c) (readTimeout c) (writeTimeout c) (version c)
         v (lastMsgId c) (subListP c) (subs c) (heap c)
         (netErrors c) (log c).
Definition setLastMsgId (v : Z) (c : Conn) : Conn :=
  mkConn (config c) (stateFunc c) (readTimeout c) (writeTimeout c) (version c)
         (txStore c) v (subListP c) (subs c) (heap c)
         (netErrors c) (log c).
Definition setSubs (v : gmap string loc) (c : Conn) : Conn :=
  mkConn (config c) (stateFunc c) (readTimeout c) (writeTimeout c) (version c)
         (txStore c) (lastMsgId c) (subListP c) v (heap c)
         (netErrors c) (log c).
Definition setHeap (v : Heap) (c : Conn) : Conn :=
  mkConn (config c) (stateFunc c) (readTimeout c) (writeTimeout c) (version c)
         (txStore c) (lastMsgId c) (subListP c) (subs c) v
         (netErrors c) (log c).
Definition setNet (v : list bool) (c : Conn) : Conn :=
  mkConn (config c) (stateFunc c) (readTimeout c) (writeTimeout c) (version c)
         (txStore c) (lastMsgId c) (subListP c) (subs c) (heap c)
         v (log c).
Definition emit (e : Event) (c : Conn) : Conn :=
  mkConn (config c) (stateFunc c) (readTimeout c) (writeTimeout c) (version c)
         (txStore c) (lastMsgId c) (subListP c) (subs c) (heap c)
         (netErrors c) (log c ++ [e])%list.

(** [NewConn]: a fresh session with an empty pending-ack list at address
    [sl]; [stateFunc] is set by the first statement of [processLoop]. *)
Definition NewConn (cfg : Config) (sl : loc) (subsH : gmap loc Subscription)
    (net : list bool) : Conn :=
  mkConn cfg connectingS 0 0 EmptyString ∅ 0 sl ∅
         (mkHeap subsH {[ sl := [] ]}) net [].

(** [c.requestChannel <- r]. *)
Definition request (r : Request) (c : Conn) : Conn := emit (Requested r) c.

(** [c.Send(f)]: place the frame on the write channel. *)
Definition Send (f : Frame) (c : Conn) : Conn := emit (Queued f) c.

(** [c.writer.Write(f)]. *)
Definition writerWrite (f : option Frame) (c : Conn) : Conn * option Error :=
  match netErrors c with
  | [] => (emit (Written f None) c, None)
  | false :: rest => (emit (Written f None) (setNet rest c), None)
  | true :: rest =>
      (emit (Written f (Some writeError)) (setNet rest c), Some writeError)
  end.

Definition sendImmediately (f : Frame) (c : Conn) : Conn * option Error :=
  writerWrite (Some f) c.

(** Modelled from the spec: the text of an error, which becomes the
    [message] header of an [ERROR] frame. *)
Definition errorText (e : Error) : string :=
  match e with
  | invalidCommand => "invalid command"
  | unknownCommand => "unknown command"
  | unexpectedCommand => "unexpected command"
  | notConnected => "not connected"
  | notConnectFrame => "operation valid for STOMP and CONNECT frames only"
  | missingHeader name => "missing header: " ++ name
  | clientMissingHeader => "missing header"
  | unknownVersion => "incompatible version"
  | invalidHeartBeat => "invalid format for heart-beat"
  | exceededMaxFrameSize => "exceeded max frame size"
  | receiptInConnect => "receipt header prohibited in connect frame"
  | authenticationFailed => "authentication failed"
  | invalidOperationForFrame => "invalid operation for frame"
  | txAlreadyInProgress => "transaction already in progress"
  | txUnknown => "unknown transaction"
  | NumErrorSyntax => "invalid syntax"
  | NumErrorRange => "value out of range"
  | writeError => "write failed"
  | replayDepthExhausted => "replay depth exhausted"
  end.

Definition sendErrorImmediately (err : Error) (f : option Frame) (c : Conn)
  : Conn :=
  let errorFrame := NewFrame ERROR [(Message, errorText err)] in
  let errorFrame :=
    match f with
    | Some f =>
        match fContains f Receipt with
        | Some receipt => fAppend errorFrame ReceiptId receipt
        | None => errorFrame
        end
    | None => errorFrame
    end in
  fst (sendImmediately errorFrame c).

(** The result of a handler: the session, the frame as the handler left
    it (handlers edit the frame in place) and the error. *)
Definition Handled : Type := Conn * Frame * option Error.

(** [%d] of [fmt.Sprintf]. *)
Definition formatInt (z : Z) : string :=
  if z <? 0 then "-" ++ FormatUint (- z) else FormatUint z.

Definition applyMinimum (v min : Z) : Z :=
  if (0 <? v) && (v <? min) then min else v.

Definition handleConnect (f : Frame) (c : Conn) : Handled :=
  match fContains f Receipt with
  | Some _ => (c, f, Some receiptInConnect)
  | None =>
      let login := default EmptyString (fContains f Login) in
      let passcode := default EmptyString (fContains f Passcode) in
      if negb (Authenticate (config c) login passcode) then
        (c, f, Some authenticationFailed)
      else
        let '(v, err) := AcceptVersion f in
        let c := setVersion v c in
        match err with
        | Some e => (c, f, Some e)
        | None =>
            match HeartBeat f with
            | (_, _, Some e) => (c, f, Some e)
            | (cx, cy, None) =>
                let min := asMilliseconds (HeartBeatCfg (config c)) MaxHeartBeat in
                let cx := applyMinimum cx min in
                let cy := applyMinimum cy min in
                let c := setTimeouts (wrap64 (cx * Millisecond))
                                     (wrap64 (cy * Millisecond)) c in
                let response :=
                  NewFrame CONNECTED
                    [(Version, v); (Server, "stompd/x.y.z");
                     (HeartBeatH, formatInt cy ++ "," ++ formatInt cx)] in
                let c := Send response c in
                (setStateFunc connectedS c, f, None)
            end
        end
  end.

Definition connecting (f : Frame) (c : Conn) : Handled :=
  if String.eqb (Command f) CONNECT || String.eqb (Command f) STOMP
  then handleConnect f c
  else (c, f, Some notConnected).

Definition sendReceiptImmediately (f : Frame) (c : Conn) : Handled :=
  match fContains f Receipt with
  | Some receipt =>
      let f := fRemove f Receipt in
      let '(c, err) :=
        sendImmediately (NewFrame RECEIPT [(ReceiptId, receipt)]) c in
      (c, f, err)
  | None => (c, f, None)
  end.

Definition handleDisconnect (f : Frame) (c : Conn) : Handled :=
  let '(c, f, _) := sendReceiptImmediately f c in (c, f, None).

(** *** The transaction store *)

(** Modelled from the spec: the transaction store is declared outside
    the files at hand.  It maps a transaction id to the frames pending
    commit, in insertion order.  [Begin] fails on an id that exists;
    [Add] fails on an id that does not, strips the [transaction] header
    and appends; [Abort] removes the entry and fails when it is absent;
    [Commit] removes the entry and replays its frames in insertion
    order, stopping at the first error; [Init] discards everything. *)
Definition txInit : gmap string (list Frame) := ∅.

Definition txBegin (tx : string) (s : gmap string (list Frame))
  : gmap string (list Frame) * option Error :=
  match s !! tx with
  | Some _ => (s, Some txAlreadyInProgress)
  | None => (<[tx := []]> s, None)
  end.

Definition txAdd (tx : string) (f : Frame) (s : gmap string (list Frame))
  : gmap string (list Frame) * Frame * option Error :=
  match s !! tx with
  | None => (s, f, Some txUnknown)
  | Some l =>
      let f := fRemove f Transaction in
      (<[tx := (l ++ [f])%list]> s, f, None)
  end.

Definition txAbort (tx : string) (s : gmap string (list Frame))
  : gmap string (list Frame) * option Error :=
  match s !! tx with
  | None => (s, Some txUnknown)
  | Some _ => (delete tx s, None)
  end.

Fixpoint replayAll (replay : Frame -> Conn -> Handled) (frames : list Frame)
    (c : Conn) : Conn * option Error :=
  match frames with
  | [] => (c, None)
  | g :: rest =>
      let '(c, _, err) := replay g c in
      match err with
      | Some e => (c, Some e)
      | None => replayAll replay rest c
      end
  end.

Definition txCommit (tx : string) (replay : Frame -> Conn -> Handled)
    (c : Conn) : Conn * option Error :=
  match txStore c !! tx with
  | None => (c, Some txUnknown)
  | Some frames =>
      replayAll replay frames (setTxStore (delete tx (txStore c)) c)
  end.

(** *** Command handlers *)

Definition handleBegin (f : Frame) (c : Conn) : Handled :=
  match fContains f Transaction with
  | Some transaction =>
      match sendReceiptImmediately f c with
      | (c, f, Some e) => (c, f, Some e)
      | (c, f, None) =>
          let '(s, err) := txBegin transaction (txStore c) in
          (setTxStore s c, f, err)
      end
  | None => (c, f, Some clientMissingHeader)
  end.

(** [stateFn] is [c.stateFunc] as the commit closure calls it. *)
Definition handleCommit (stateFn : Frame -> Conn -> Handled) (f : Frame)
    (c : Conn) : Handled :=
  match fContains f Transaction with
  | Some transaction =>
      match sendReceiptImmediately f c with
      | (c, f, Some e) => (c, f, Some e)
      | (c, f, None) =>
          let '(c, err) := txCommit transaction stateFn c in (c, f, err)
      end
  | None => (c, f, Some clientMissingHeader)
  end.

Definition handleAbort (f : Frame) (c : Conn) : Handled :=
  match fContains f Transaction with
  | Some transaction =>
      match sendReceiptImmediately f c with
      | (c, f, Some e) => (c, f, Some e)
      | (c, f, None) =>
          let '(s, err) := txAbort transaction (txStore c) in
          (setTxStore s c, f, err)
      end
  | None => (c, f, Some clientMissingHeader)
  end.

Definition handleSend (f : Frame) (c : Conn) : Handled :=
  match sendReceiptImmediately f c with
  | (c, f, Some e) => (c, f, Some e)
  | (c, f, None) =>
      match fContains f Transaction with
      | Some tx =>
          match txAdd tx f (txStore c) with
          | (_, _, Some e) => (c, f, Some e)
          | (s, f, None) => (emit (Stored tx f) (setTxStore s c), f, None)
          end
      | None => (request (EnqueueOp f) c, f, None)
      end
  end.

Definition sendFrameRequest (f : Frame) (c : Conn) : Handled :=
  match sendReceiptImmediately f c with
  | (c, f, Some e) => (c, f, Some e)
  | (c, f, None) => (request (EnqueueOp f) c, f, None)
  end.

Definition handleSubscribe := sendFrameRequest.
Definition handleUnsubscribe := sendFrameRequest.
Definition handleAck := sendFrameRequest.
Definition handleNack := sendFrameRequest.

Definition connected (stateFn : Frame -> Conn -> Handled) (f : Frame)
    (c : Conn) : Handled :=
  let cmd := Command f in
  if String.eqb cmd CONNECT || String.eqb cmd STOMP then
    (c, f, Some unexpectedCommand)
  else if String.eqb cmd DISCONNECT then handleDisconnect f c
  else if String.eqb cmd BEGIN then handleBegin f c
  else if String.eqb cmd ABORT then handleAbort f c
  else if String.eqb cmd COMMIT then handleCommit stateFn f c
  else if String.eqb cmd SEND then handleSend f c
  else if String.eqb cmd SUBSCRIBE then handleSubscribe f c
  else if String.eqb cmd UNSUBSCRIBE then handleUnsubscribe f c
  else if String.eqb cmd ACK then handleAck f c
  else if String.eqb cmd NACK then handleNack f c
  else if String.eqb cmd MESSAGE || String.eqb cmd RECEIPT
          || String.eqb cmd ERROR then
    (c, f, Some unexpectedCommand)
  else (c, f, Some unknownCommand).

(** [c.stateFunc(c, f)].  The commit closure calls the state function
    again for every frame of the transaction; [depth] bounds the nesting
    of such calls, and a call beyond it gives [replayDepthExhausted]. *)
Fixpoint callState (depth : nat) (f : Frame) (c : Conn) : Handled :=
  match depth with
  | O => (c, f, Some replayDepthExhausted)
  | S d =>
      match stateFunc c with
      | connectingS => connecting f c
      | connectedS => connected (callState d) f c
      end
  end.

(** *** The processing loop *)

(** [allocateMessageId]: [sub] is [None] for the nil pointer. *)
Definition allocateMessageId (f : Frame) (sub : option Subscription)
    (c : Conn) : Result (Conn * Frame) :=
  if String.eqb (Command f) MESSAGE then
    let c := setLastMsgId ((lastMsgId c + 1) mod 2 ^ 64) c in
    let messageId := FormatUint (lastMsgId c) in
    let f := fSet f MessageId messageId in
    match sub with
    | None => Panic nilDereference
    | Some s =>
        if isAckAuto (ack s) then Ok (c, fRemove f Ack)
        else Ok (c, fSet f Ack messageId)
    end
  else Ok (c, f).

(** What one turn of the [select] received: a frame from the write
    channel, a frame from the read channel, a subscription from the
    subscription channel ([None] when the channel was closed), or the
    heart-beat timer. *)
Inductive Select : Type :=
  | WriteChannel (f : option Frame)
  | ReadChannel (f : option Frame)
  | SubChannel (sub : option loc)
  | TimerChannel.

(** How a turn of the loop ends: the loop goes on, the go-routine
    returns, or it panics. *)
Inductive Outcome : Type :=
  | Continue (c : Conn)
  | Return (c : Conn)
  | Panicked (c : Conn) (msg : string).

Definition storeFrame (p : loc) (f : Frame) (h : Heap) : Heap :=
  {| subscriptions := alter (fun s => withFrame s (Some f)) p (subscriptions h);
     lists := lists h |}.

Definition loopBody (depth : nat) (c : Conn) (sel : Select) : Outcome :=
  match sel with
  | WriteChannel None => Return c
  | WriteChannel (Some f) =>
      match allocateMessageId f None c with
      | Panic msg => Panicked c msg
      | Ok (c, f) =>
          match writerWrite (Some f) c with
          | (c, Some _) => Return c
          | (c, None) =>
              if String.eqb (Command f) ERROR then Return c else Continue c
          end
      end
  | ReadChannel None => Return c
  | ReadChannel (Some f) =>
      match Validate f with
      | Some err => Return (sendErrorImmediately err (Some f) c)
      | None =>
          match callState depth f c with
          | (c, f, Some err) => Return (sendErrorImmediately err (Some f) c)
          | (c, _, None) => Continue c
          end
      end
  | SubChannel None => Return c
  | SubChannel (Some p) =>
      match subscriptions (heap c) !! p with
      | None => Panicked c nilDereference
      | Some sub =>
          match frame sub with
          | None => Panicked c nilDereference
          | Some f =>
              match allocateMessageId f (Some sub) c with
              | Panic msg => Panicked c msg
              | Ok (c, f) =>
                  (* the frame edited is the one the subscription holds *)
                  let c := setHeap (storeFrame p f (heap c)) c in
                  match writerWrite (Some f) c with
                  | (c, Some _) => Return c
                  | (c, None) =>
                      if isAckAuto (ack sub) then
                        Continue (request (SubscribeOp p) c)
                      else
                        match Add (subListP c) p (heap c) with
                        | Panic msg => Panicked c msg
                        | Ok h => Continue (setHeap h c)
                        end
                  end
              end
          end
      end
  | TimerChannel =>
      (* the timer channel is nil, and never ready, without a write timeout *)
      if 0 <? writeTimeout c then
        match writerWrite None c with
        | (c, Some _) => Return c
        | (c, None) => Continue c
        end
      else Continue c
  end.

(** A turn of the session: the [select] of the loop receives something,
    or the upper layer, which shares the subscription objects with the
    session, writes them in between. *)
Inductive Turn : Type :=
  | Selects (sel : Select)
  | UpperLayer (write : Heap -> Heap).

(** The loop of [processLoop], turn by turn; [Continue] is a loop still
    waiting. *)
Fixpoint loop (depth : nat) (c : Conn) (turns : list Turn) : Outcome :=
  match turns with
  | [] => Continue c
  | Selects sel :: rest =>
      match loopBody depth c sel with
      | Continue c => loop depth c rest
      | o => o
      end
  | UpperLayer write :: rest => loop depth (setHeap (write (heap c)) c) rest
  end.

(** *** Cleanup *)

(** [discardWriteChannelFrames]: the frames found on the write channel
    are dropped; nothing of the session changes. *)
Definition discardWriteChannelFrames (found : list Frame) (c : Conn) : Conn := c.

(** [cleanupSubChannel] over what the subscription channel holds; [None]
    is the receive on a closed channel, after which the loop body still
    reads [sub.frame] through the nil pointer. *)
Fixpoint cleanupSubChannel (found : list (option loc)) (c : Conn)
  : Result Conn :=
  match found with
  | [] => Ok c
  | None :: _ => Panic nilDereference
  | Some p :: rest =>
      match subscriptions (heap c) !! p with
      | None => Panic nilDereference
      | Some sub => cleanupSubChannel rest (request (RequeueOp (frame sub)) c)
      end
  end.

(** The loop [for sub := c.subList.Get(); sub != nil; ...] of
    [cleanupConn]; [n] bounds the number of turns. *)
Fixpoint requeueLoop (n : nat) (c : Conn) : Result Conn :=
  match n with
  | O => Ok c
  | S n' =>
      match Get (subListP c) (heap c) with
      | Panic msg => Panic msg
      | Ok (None, _) => Ok c
      | Ok (Some p, h) =>
          match subscriptions h !! p with
          | None => Panic nilDereference
          | Some sub =>
              requeueLoop n' (request (RequeueOp (frame sub)) (setHeap h c))
          end
      end
  end.

Definition pendingLength (c : Conn) : nat :=
  match lists (heap c) !! subListP c with
  | Some l => length l
  | None => 0
  end.

(** [cleanupConn].  [order] is the order in which [range c.subs] visits
    the map, which Go leaves open; [found1] and [found2] are what the
    subscription channel holds at the two calls of [cleanupSubChannel]. *)
Definition cleanupConn (order : list (string * loc))
    (found1 found2 : list (option loc)) (c : Conn) : Result Conn :=
  let c := setTxStore txInit c in
  let c := discardWriteChannelFrames [] c in
  let c := fold_left (fun c kv => request (UnsubscribeOp (snd kv)) c) order c in
  let c := setSubs ∅ c in
  match requeueLoop (S (pendingLength c)) c with
  | Panic msg => Panic msg
  | Ok c =>
      let c := discardWriteChannelFrames [] c in
      match cleanupSubChannel found1 c with
      | Panic msg => Panic msg
      | Ok c =>
          let c := request DisconnectedOp c in
          let c := discardWriteChannelFrames [] c in
          cleanupSubChannel found2 c
      end
  end.

(** [processLoop]: the loop, and [cleanupConn] deferred to every way
    out of it, the return and the panic alike. *)
Inductive Ending : Type :=
  | Running (c : Conn)
  | Returned (cleanup : Result Conn)
  | Crashed (cleanup : Result Conn) (msg : string).

Definition processLoop (depth : nat) (c : Conn) (turns : list Turn)
    (order : list (string * loc)) (found1 found2 : list (option loc)) : Ending :=
  match loop depth (setStateFunc connectingS c) turns with
  | Continue c => Running c
  | Return c => Returned (cleanupConn order found1 found2 c)
  | Panicked c msg => Crashed (cleanupConn order found1 found2 c) msg
  end.

(** *** The remaining entry points of [conn.go] *)

(** [SendError]: an ERROR frame whose [message] header is the text of
    the error, placed on the write channel. *)
Definition SendError (err : Error) (c : Conn) : Conn :=
  let f := {| Command := ERROR; headers := []; Body := [] |} in
  let f := fAppend f Message (errorText err) in
  Send f c.

(** What [reader.Read()] gives to [readLoop]: an error (end of file or
    any other), the nil frame of a heart-beat, or a frame. *)
Inductive Read : Type :=
  | ReadError
  | ReadNil
  | ReadFrame (f : Frame).

(** What [readLoop] does, in program order: it sets the read deadline
    from its timeout (0 is no deadline), pushes a frame on the read
    channel, closes the read channel. *)
Inductive ReaderEvent : Type :=
  | SetReadDeadline (timeout : Z)
  | Pushed (f : Frame)
  | ClosedReadChannel.

(** The two local variables of [readLoop]. *)
Record Reader : Type := mkReader {
  expectingConnect : bool;
  readerTimeout : Z
}.

(** The block [if expectingConnect { ... }] of [readLoop]. *)
Definition readerHeartBeat (cfg : Config) (r : Reader) (f : Frame) : Reader :=
  if expectingConnect r then
    match HeartBeat f with
    | (cx, _, None) =>
        let min := asMilliseconds (HeartBeatCfg cfg) MaxHeartBeat in
        let cx := applyMinimum cx min in
        mkReader false (wrap64 (cx * Millisecond))
    | (_, _, Some _) => r
    end
  else r.

(** [readLoop] over what the reads give, turn by turn; when the reads
    are used up the go-routine is left waiting in [Read]. *)
Fixpoint readLoop (cfg : Config) (r : Reader) (reads : list Read)
  : list ReaderEvent :=
  SetReadDeadline (readerTimeout r) ::
  match reads with
  | [] => []
  | ReadError :: _ => [ClosedReadChannel]
  | ReadNil :: rest => readLoop cfg r rest
  | ReadFrame f :: rest =>
      let r := readerHeartBeat cfg r f in
      Pushed f :: readLoop cfg r rest
  end.


End client.

(** * Vocabulary of the statements *)

Import message.
Import client.

(** The value a run of decimal digits denotes, by position. *)
Fixpoint digitsValue (s : string) : Z :=
  match s with
  | EmptyString => 0
  | String c s' => digitVal c * 10 ^ Z.of_nat (String.length s') + digitsValue s'
  end.

Fixpoint allDigits (s : string) : bool :=
  match s with
  | EmptyString => true
  | String c s' => isDigit c && allDigits s'
  end.

(** An unsigned decimal numeral: at least one character, digits only. *)
Definition isNumeral (s : string) : bool :=
  match s with EmptyString => false | _ => allDigits s end.

Definition strLeP (a b : string) : Prop := strLe a b = true.

(** The versions the server recognizes. *)
Definition recognized (v : string) : Prop := v = V1_0 \/ v = V1_1 \/ v = V1_2.

Definition recognizedb (v : string) : bool :=
  String.eqb v V1_0 || String.eqb v V1_1 || String.eqb v V1_2.

(** [v] is the greatest recognized version among [entries]. *)
Definition greatestRecognized (entries : list string) (v : string) : Prop :=
  recognized v /\ In v entries /\
  forall w, recognized w -> In w entries -> strLe w v = true.

(** The server minimum of a session, in milliseconds. *)
Definition serverMin (c : Conn) : Z :=
  asMilliseconds (HeartBeatCfg (config c)) MaxHeartBeat.

(** The negotiated period: zero stays zero, any other value is raised
    to the server minimum. *)
Definition clamp (v min : Z) : Z := if 0 <? v then Z.max v min else 0.

(** The commands of the STOMP vocabulary. *)
Definition vocabulary : list string :=
  [CONNECT; STOMP; CONNECTED; SEND; SUBSCRIBE; UNSUBSCRIBE; ACK; NACK;
   BEGIN; COMMIT; ABORT; DISCONNECT; MESSAGE; RECEIPT; ERROR].

(** The commands sent by the server that the connected state refuses as
    unexpected, with CONNECT and STOMP. *)
Definition unexpected : list string := [CONNECT; STOMP; MESSAGE; RECEIPT; ERROR].

(** The per-command handlers of the connected state. *)
Definition handlers (stateFn : Frame -> Conn -> Handled)
  : list (string * (Frame -> Conn -> Handled)) :=
  [(DISCONNECT, handleDisconnect); (BEGIN, handleBegin); (ABORT, handleAbort);
   (COMMIT, handleCommit stateFn); (SEND, handleSend);
   (SUBSCRIBE, handleSubscribe); (UNSUBSCRIBE, handleUnsubscribe);
   (ACK, handleAck); (NACK, handleNack)].





(** A frame as the store holds it: a SEND without receipt header. *)
Definition cleanFrame (g : Frame) : Prop :=
  Command g = SEND /\ fContains g Receipt = None.

Definition storeClean (s : gmap string (list Frame)) : Prop :=
  map_Forall (fun _ l => Forall cleanFrame l) s.

(** The fields no command handler writes. *)
Definition unchanged (c c' : Conn) : Prop :=
  lastMsgId c' = lastMsgId c /\ heap c' = heap c
  /\ subListP c' = subListP c /\ config c' = config c.

(** An event that is not the write of a MESSAGE frame. *)
Definition tame (e : Event) : Prop :=
  match e with
  | Written (Some w) _ => Command w <> MESSAGE
  | _ => True
  end.

(** [c'] comes from [c] by tame events only. *)
Definition quietly (c c' : Conn) : Prop :=
  unchanged c c' /\ exists evs, log c' = (log c ++ evs)%list /\ Forall tame evs.

Definition hConn (r : Handled) : Conn := fst (fst r).

(** A state function that keeps the store clean and the session quiet. *)
Definition Good (k : Frame -> Conn -> Handled) : Prop :=
  forall f c, storeClean (txStore c) ->
    storeClean (txStore (hConn (k f c))) /\ quietly c (hConn (k f c)).

Definition outConn (o : Outcome) : Conn :=
  match o with Continue c | Return c | Panicked c _ => c end.

(** The commands whose handler sends a receipt. *)
Definition receiptCommands : list string :=
  [SEND; SUBSCRIBE; UNSUBSCRIBE; ACK; NACK; BEGIN; COMMIT; ABORT].

(** What may follow the receipt of a frame: requests to route a frame,
    and frames appended to the store, without receipt header. *)
Definition receiptFree (e : Event) : Prop :=
  match e with
  | Requested (EnqueueOp g) => fContains g Receipt = None
  | Stored _ g => fContains g Receipt = None
  | _ => False
  end.

(** The events a receipt header asks for, first of all the events of a
    frame. *)
Definition receiptPrefix (f : Frame) (pre : list Event) (w : option Error) : Prop :=
  match fContains f Receipt with
  | None => pre = [] /\ w = None
  | Some v => pre = [Written (Some (NewFrame RECEIPT [(ReceiptId, v)])) w]
  end.

(** A handler served the frame [f]: the receipt first, if asked for, and
    nothing more when that write failed; then receipt-free events only. *)
Definition Served (f : Frame) (c : Conn) (r : Handled) : Prop :=
  let '(c', f', err) := r in
  exists pre w rest,
    log c' = (log c ++ pre ++ rest)%list
    /\ receiptPrefix f pre w
    /\ (w <> None -> rest = [] /\ err = w /\ txStore c' = txStore c)
    /\ Forall receiptFree rest
    /\ err <> Some replayDepthExhausted
    /\ fContains f' Receipt = None
    /\ stateFunc c' = stateFunc c.

(** The message-id headers of the MESSAGE frames handed to the writer,
    in the order of the writes. *)
Definition msgIdOf (e : Event) : list (option string) :=
  match e with
  | Written (Some w) _ =>
      if String.eqb (Command w) MESSAGE then [fContains w MessageId] else []
  | _ => []
  end.

Definition msgIds (evs : list Event) : list (option string) :=
  flat_map msgIdOf evs.



(** The headers each command must carry, as the [validate...] functions
    of the frame list them; CONNECT and STOMP have rules of their own. *)
Definition requiredHeaders (cmd : string) : list string :=
  if String.eqb cmd SEND then [Destination]
  else if String.eqb cmd SUBSCRIBE then [Destination; Id]
  else if String.eqb cmd UNSUBSCRIBE then [Id]
  else if String.eqb cmd ACK then [Id]
  else if String.eqb cmd NACK then [Id]
  else if String.eqb cmd BEGIN then [Transaction]
  else if String.eqb cmd COMMIT then [Transaction]
  else if String.eqb cmd ABORT then [Transaction]
  else if String.eqb cmd MESSAGE then [Destination; MessageId; message.Subscription]
  else if String.eqb cmd RECEIPT then [ReceiptId]
  else [].

(** A numeral of one to nine digits, as the heart-beat pattern wants
    on each side of the comma. *)
Definition period (s : string) : Prop :=
  allDigits s = true /\ (1 <= String.length s <= 9)%nat.


(** The answer of the configuration to the credentials of a frame. *)
Definition authenticated (c : Conn) (f : Frame) : bool :=
  Authenticate (config c) (default EmptyString (fContains f Login))
               (default EmptyString (fContains f Passcode)).

(** The CONNECTED frame that answers version [v] with write period [wr]
    and read period [rd]. *)
Definition connectedReply (v : StompVersion) (wr rd : Z) : Frame :=
  NewFrame CONNECTED
    [(Version, v); (Server, "stompd/x.y.z");
     (HeartBeatH, (FormatUint wr ++ "," ++ FormatUint rd)%string)].

(** What the negotiation of a session settled. *)
Definition negotiated (c : Conn) : StateFunc * StompVersion * Z * Z :=
  (stateFunc c, version c, readTimeout c, writeTimeout c).


(** The frames among the reads up to the first error. *)
Fixpoint framesBeforeError (reads : list Read) : list Frame :=
  match reads with
  | [] => []
  | ReadError :: _ => []
  | ReadNil :: rest => framesBeforeError rest
  | ReadFrame f :: rest => f :: framesBeforeError rest
  end.

(** The frames [readLoop] pushed on the read channel. *)
Definition pushedFrames (evs : list ReaderEvent) : list Frame :=
  flat_map (fun e => match e with Pushed f => [f] | _ => [] end) evs.

(** The read timeouts [readLoop] set its deadlines from. *)
Definition deadlines (evs : list ReaderEvent) : list Z :=
  flat_map (fun e => match e with SetReadDeadline t => [t] | _ => [] end) evs.


(** A state function that leaves the negotiation of a connected session
    alone. *)
Definition Stable (k : Frame -> Conn -> Handled) : Prop :=
  forall f c, stateFunc c = connectedS ->
    negotiated (hConn (k f c)) = negotiated c.


(** The ERROR frame that answers the error [err] of a frame whose
    receipt header, if any, is [receipt]. *)
Definition errorReply (err : Error) (receipt : option string) : Frame :=
  match receipt with
  | Some r => fAppend (NewFrame ERROR [(Message, errorText err)]) ReceiptId r
  | None => NewFrame ERROR [(Message, errorText err)]
  end.

(** An event that is a request to the upper layer. *)
Definition isRequest (e : Event) : Prop :=
  match e with Requested _ => True | _ => False end.


(** The pending-ack lists and the back-pointers agree: no list holds a
    subscription twice, every member of a list points back to it, and
    every subscription that points to a list is a member of it. *)
Definition linked (h : Heap) : Prop :=
  (forall sl l, lists h !! sl = Some l -> List.NoDup l)
  /\ (forall sl l p, lists h !! sl = Some l -> In p l ->
        exists s, subscriptions h !! p = Some s /\ subList s = Some sl)
  /\ (forall p s sl, subscriptions h !! p = Some s -> subList s = Some sl ->
        exists l, lists h !! sl = Some l /\ In p l).


(** An event that lets a frame of the client through, to the upper
    layer or into the transaction store. *)
Definition passesOn (e : Event) : Prop :=
  match e with
  | Requested (EnqueueOp _) | Stored _ _ => True
  | _ => False
  end.

(** [c'] comes from [c] without letting a frame through and without a
    change of state function, store or configuration. *)
Definition silently (c c' : Conn) : Prop :=
  config c' = config c /\ txStore c' = txStore c /\ stateFunc c' = stateFunc c
  /\ exists evs, log c' = (log c ++ evs)%list
                 /\ Forall (fun e => ~ passesOn e) evs.



(** The turns in which the loop receives the frames [fs] from the read
    channel, one after the other. *)
Definition reads (fs : list Frame) : list Turn :=
  map (fun f => Selects (ReadChannel (Some f))) fs.

(** A valid frame of command [cmd] for transaction [tx] that asks for no
    receipt. *)
Definition inTransaction (tx cmd : string) (f : Frame) : Prop :=
  Command f = cmd /\ fContains f Transaction = Some tx
  /\ fContains f Receipt = None /\ Validate f = None.

(** A frame as it is replayed at commit: a SEND with neither receipt nor
    transaction header. *)
Definition replayable (g : Frame) : Prop :=
  Command g = SEND /\ fContains g Receipt = None
  /\ fContains g Transaction = None.



(** The write of a heart-beat. *)
Definition isHeartBeat (e : Event) : Prop :=
  match e with Written None _ => True | _ => False end.



(** * Scenarios *)

(** One subscription with id s1, and one empty list at address 0. *)
Definition heapOne : Heap :=
  mkHeap {[ 1%nat := mkSub "s1" "/q" AckClient None None ]} {[ 0%nat := [] ]}.

(** A subscription in auto mode holding a MESSAGE for the client. *)
Definition heapAuto : gmap loc Subscription :=
  {[ 1%nat := mkSub "s1" "/q" AckAuto
                (Some (NewFrame MESSAGE
                         [(Destination, "/q"); (message.Subscription, "s1")]))
                None ]}.

(** The MESSAGE of scenarios S4 and S5 as the client gets it. *)
Definition messageOne : Frame :=
  NewFrame MESSAGE [(Destination, "/q"); (message.Subscription, "s1");
                    (MessageId, "1"); (Ack, "1")].


(** Scenario S4: subscription s1 in client mode is handed a delivery. *)
Definition sessionS4 : Conn :=
  setStateFunc connectedS
    (NewConn (mkConfig 0 (fun _ _ => true)) 0%nat
       {[ 1%nat := mkSub "s1" "/q" AckClient
                     (Some (NewFrame MESSAGE
                              [(Destination, "/q"); (message.Subscription, "s1")]))
                     None ]}
       []).

(** * Properties *)

(** ** Decimal text *)

Lemma digitVal_range c : isDigit c = true -> 0 <= digitVal c <= 9.
Proof. unfold isDigit, digitVal. intros H. lia. Qed.

Lemma digitsValue_nonneg s : allDigits s = true -> 0 <= digitsValue s.
Proof.
  induction s as [|c s IH]; simpl; [lia|].
  intros [Hc Hs]%andb_prop. pose proof (digitVal_range c Hc).
  specialize (IH Hs).
  assert (0 < 10 ^ Z.of_nat (String.length s)) by (apply Z.pow_pos_nonneg; lia).
  nia.
Qed.

Lemma parseLoop_digits maxVal s : forall n,
  allDigits s = true -> 0 <= n <= maxVal ->
  parseLoop maxVal s n =
    if n * 10 ^ Z.of_nat (String.length s) + digitsValue s <=? maxVal
    then (n * 10 ^ Z.of_nat (String.length s) + digitsValue s, None)
    else (maxVal, Some NumErrorRange).
Proof.
  induction s as [|c s IH]; intros n Hd Hn.
  - simpl. rewrite Z.mul_1_r, Z.add_0_r.
    destruct (Z.leb_spec n maxVal); [reflexivity | lia].
  - simpl in Hd. apply andb_prop in Hd as [Hc Hs].
    cbn [parseLoop]. rewrite Hc.
    pose proof (digitVal_range c Hc) as Hr.
    pose proof (digitsValue_nonneg s Hs) as Hv.
    assert (Hp : 0 < 10 ^ Z.of_nat (String.length s))
      by (apply Z.pow_pos_nonneg; lia).
    assert (Hpow : 10 ^ Z.of_nat (String.length (String c s))
                   = 10 * 10 ^ Z.of_nat (String.length s)).
    { cbn [String.length]. rewrite Nat2Z.inj_succ, Z.pow_succ_r; lia. }
    rewrite Hpow. cbn [digitsValue].
    set (p := 10 ^ Z.of_nat (String.length s)) in *.
    set (d := digitVal c) in *. set (v := digitsValue s) in *.
    destruct (maxVal <? n * 10 + d) eqn:E.
    + apply Z.ltb_lt in E.
      destruct (n * (10 * p) + (d * p + v) <=? maxVal) eqn:E'; [|reflexivity].
      apply Z.leb_le in E'. nia.
    + apply Z.ltb_ge in E. rewrite IH by (auto; nia).
      replace ((n * 10 + d) * p + v) with (n * (10 * p) + (d * p + v)) by ring.
      reflexivity.
Qed.

Lemma parseLoop_not_digits maxVal s : forall n,
  allDigits s = false ->
  exists v e, parseLoop maxVal s n = (v, Some e)
              /\ (e = NumErrorSyntax \/ e = NumErrorRange).
Proof.
  induction s as [|c s IH]; intros n Hd; [discriminate|].
  cbn [parseLoop allDigits] in *.
  destruct (isDigit c); [|eauto].
  destruct (maxVal <? n * 10 + digitVal c); [eauto|].
  apply IH. exact Hd.
Qed.

(** [ParseUint] accepts exactly the numerals whose value fits the bit
    size, and returns that value. *)
Lemma ParseUint_numeral s bits :
  0 <= bits -> isNumeral s = true ->
  ParseUint s bits =
    if digitsValue s <? 2 ^ bits then (digitsValue s, None)
    else (2 ^ bits - 1, Some NumErrorRange).
Proof.
  intros Hb Hn. destruct s as [|c s]; [discriminate|].
  unfold ParseUint. simpl in Hn.
  assert (0 < 2 ^ bits) by (apply Z.pow_pos_nonneg; lia).
  rewrite parseLoop_digits by (auto; lia).
  rewrite Z.mul_0_l, Z.add_0_l.
  destruct (Z.leb_spec (digitsValue (String c s)) (2 ^ bits - 1));
    destruct (Z.ltb_spec (digitsValue (String c s)) (2 ^ bits));
    try reflexivity; lia.
Qed.

Lemma ParseUint_not_numeral s bits :
  isNumeral s = false ->
  exists v e, ParseUint s bits = (v, Some e)
              /\ (e = NumErrorSyntax \/ e = NumErrorRange).
Proof.
  intros Hn. destruct s as [|c s]; [simpl; eauto|].
  unfold ParseUint. apply parseLoop_not_digits. exact Hn.
Qed.

(** ** Content length *)

(** C9.  [ContentLength] reads the header as an unsigned decimal numeral of
    at most 32 bits.  An absent header is reported as not found, without
    error.  A numeral of value at most 16 MiB (16777216 included) is
    accepted with that value; a value above 16 MiB that fits 32 bits fails
    with [exceededMaxFrameSize]; a numeral that does not fit 32 bits, and
    a text that is no numeral, are refused by the parser with its own
    error. *)
Theorem ContentLength_spec (f : Frame) :
  match fContains f ContentLengthH with
  | None => ContentLength f = (0, false, None)
  | Some text =>
      if isNumeral text then
        let value := digitsValue text in
        if value <=? 16777216 then ContentLength f = (value, true, None)
        else if value <? 2 ^ 32 then
          ContentLength f = (0, false, Some exceededMaxFrameSize)
        else ContentLength f = (0, false, Some NumErrorRange)
      else
        exists e, ContentLength f = (0, false, Some e)
                  /\ (e = NumErrorSyntax \/ e = NumErrorRange)
  end.
Proof.
  unfold ContentLength.
  destruct (fContains f ContentLengthH) as [text|]; [|reflexivity].
  destruct (isNumeral text) eqn:Hn.
  - rewrite ParseUint_numeral by (auto; lia).
    cbv zeta.
    destruct (Z.leb_spec (digitsValue text) 16777216) as [Hle|Hgt].
    + destruct (Z.ltb_spec (digitsValue text) (2 ^ 32)); [|lia].
      unfold MaxContentLength.
      destruct (Z.ltb_spec (16 * 1024 * 1024) (digitsValue text)); [lia|].
      reflexivity.
    + destruct (Z.ltb_spec (digitsValue text) (2 ^ 32)); [|reflexivity].
      unfold MaxContentLength.
      destruct (Z.ltb_spec (16 * 1024 * 1024) (digitsValue text)); [|lia].
      reflexivity.
  - destruct (ParseUint_not_numeral text 32 Hn) as (v & e & -> & He).
    exists e. split; [reflexivity | exact He].
Qed.

Example ContentLength_16MiB :
  ContentLength (NewFrame SEND [(ContentLengthH, "16777216")])
  = (16777216, true, None).
Proof. vm_compute. reflexivity. Qed.

Example ContentLength_16MiB_plus_1 :
  ContentLength (NewFrame SEND [(ContentLengthH, "16777217")])
  = (0, false, Some exceededMaxFrameSize).
Proof. vm_compute. reflexivity. Qed.

Example ContentLength_ten_digits :
  ContentLength (NewFrame SEND [(ContentLengthH, "4294967296")])
  = (0, false, Some NumErrorRange).
Proof. vm_compute. reflexivity. Qed.

(** ** Accept-version *)

Section StringOrder.

Lemma strLe_iff a b :
  strLe a b = true <-> a = b \/ String_as_OT.lt a b.
Proof.
  unfold strLe.
  destruct (String_as_OT.compare_spec a b) as [E|L|G].
  - split; [intros _; left; exact E | reflexivity].
  - split; [intros _; right; exact L | reflexivity].
  - split; [discriminate|].
    intros [-> | L]; exfalso.
    + exact (StrictOrder_Irreflexive _ G).
    + apply (StrictOrder_Irreflexive a).
      exact (StrictOrder_Transitive _ _ _ L G).
Qed.

Lemma strLe_refl a : strLe a a = true.
Proof. apply strLe_iff. now left. Qed.

Lemma strLe_trans a b c :
  strLe a b = true -> strLe b c = true -> strLe a c = true.
Proof.
  rewrite !strLe_iff. intros [-> | L1] [-> | L2]; auto.
  right. exact (StrictOrder_Transitive _ _ _ L1 L2).
Qed.

Lemma strLe_total a b : strLe a b = true \/ strLe b a = true.
Proof.
  rewrite !strLe_iff.
  destruct (String_as_OT.compare_spec a b); auto.
Qed.

Lemma strLe_antisym a b :
  strLe a b = true -> strLe b a = true -> a = b.
Proof.
  rewrite !strLe_iff. intros [-> | L1] [E | L2]; auto.
  exfalso. apply (StrictOrder_Irreflexive a).
  exact (StrictOrder_Transitive _ _ _ L1 L2).
Qed.

End StringOrder.

Lemma insertSorted_perm x l : Permutation (x :: l) (insertSorted x l).
Proof.
  induction l as [|y l IH]; simpl; [reflexivity|].
  destruct (strLe x y); [reflexivity|].
  rewrite perm_swap. constructor. exact IH.
Qed.

Lemma sortStrings_perm l : Permutation l (sortStrings l).
Proof.
  induction l as [|x l IH]; simpl; [constructor|].
  rewrite <- insertSorted_perm. constructor. exact IH.
Qed.

Lemma insertSorted_sorted x l :
  StronglySorted strLeP l -> StronglySorted strLeP (insertSorted x l).
Proof.
  induction 1 as [|y l Hs IH Hall]; simpl.
  - repeat constructor.
  - destruct (strLe x y) eqn:E.
    + constructor; [constructor; assumption|].
      constructor; [exact E|].
      rewrite List.Forall_forall in *. intros z Hz.
      exact (strLe_trans _ _ _ E (Hall z Hz)).
    + constructor; [exact IH|].
      assert (Hyx : strLeP y x) by (destruct (strLe_total x y); congruence).
      rewrite List.Forall_forall in *. intros z Hz.
      apply (Permutation_in _ (Permutation_sym (insertSorted_perm x l))) in Hz.
      destruct Hz as [<-|Hz]; auto.
Qed.

Lemma sortStrings_sorted l : StronglySorted strLeP (sortStrings l).
Proof.
  induction l; simpl; [constructor | now apply insertSorted_sorted].
Qed.

Lemma recognizedb_iff v : recognizedb v = true <-> recognized v.
Proof.
  unfold recognizedb, recognized.
  rewrite !orb_true_iff, !String.eqb_eq. tauto.
Qed.

Lemma acceptStep_recognized acc v :
  recognized v -> acceptStep acc v = (v, None).
Proof. intros [-> | [-> | ->]]; reflexivity. Qed.

Lemma acceptStep_other acc v :
  ~ recognized v -> acceptStep acc v = acc.
Proof.
  intros Hn. unfold acceptStep.
  destruct (String.eqb_spec v V1_0); [exfalso; apply Hn; now left|].
  destruct (String.eqb_spec v V1_1); [exfalso; apply Hn; right; now left|].
  destruct (String.eqb_spec v V1_2); [exfalso; apply Hn; right; now right|].
  reflexivity.
Qed.

Lemma scan_none l acc :
  (forall w, In w l -> ~ recognized w) ->
  fold_left acceptStep l acc = acc.
Proof.
  revert acc. induction l as [|x l IH]; intros acc H; [reflexivity|].
  simpl. rewrite acceptStep_other by (apply H; now left).
  apply IH. intros w Hw. apply H. now right.
Qed.

(** Over a sorted list the scan ends on the greatest recognized entry. *)
Lemma scan_sorted l : forall acc v,
  StronglySorted strLeP l ->
  recognized v -> In v l ->
  (forall w, recognized w -> In w l -> strLeP w v) ->
  fold_left acceptStep l acc = (v, None).
Proof.
  induction l as [|x l IH]; intros acc v Hs Hv Hin Hmax; [destruct Hin|].
  apply StronglySorted_inv in Hs as [Hs Hall].
  rewrite List.Forall_forall in Hall. simpl.
  destruct (existsb recognizedb l) eqn:Ex.
  - apply existsb_exists in Ex as (w & Hw & Hrw).
    apply recognizedb_iff in Hrw.
    assert (Hvl : In v l).
    { destruct Hin as [<- | Hin]; [|exact Hin].
      assert (w = x) as ->; [|exact Hw].
      apply strLe_antisym; [apply Hmax; auto; now right | apply Hall, Hw]. }
    apply IH; auto. intros u Hu Hul. apply Hmax; auto. now right.
  - assert (Hnone : forall w, In w l -> ~ recognized w).
    { intros w Hw Hr. apply recognizedb_iff in Hr.
      assert (existsb recognizedb l = true); [|congruence].
      apply existsb_exists. eauto. }
    rewrite scan_none by exact Hnone.
    destruct Hin as [<- | Hin]; [|exfalso; exact (Hnone v Hin Hv)].
    apply acceptStep_recognized, Hv.
Qed.

(** The lists of entries split in two kinds: some hold a greatest
    recognized version, the others hold no recognized version at all. *)
Lemma greatestRecognized_cases entries :
  (exists v, greatestRecognized entries v)
  \/ (forall w, In w entries -> ~ recognized w).
Proof.
  destruct (existsb (String.eqb V1_2) entries) eqn:E2.
  { left. exists V1_2. apply existsb_exists in E2 as (w & Hw & Heq%String.eqb_eq); subst w.
    split; [right; now right|]. split; [exact Hw|].
    intros u [-> | [-> | ->]] _; reflexivity. }
  destruct (existsb (String.eqb V1_1) entries) eqn:E1.
  { left. exists V1_1. apply existsb_exists in E1 as (w & Hw & Heq%String.eqb_eq); subst w.
    split; [right; now left|]. split; [exact Hw|].
    intros u [-> | [-> | ->]] Hu; try reflexivity.
    assert (existsb (String.eqb V1_2) entries = true); [|congruence].
    apply existsb_exists. exists V1_2. split; [exact Hu | reflexivity]. }
  destruct (existsb (String.eqb V1_0) entries) eqn:E0.
  { left. exists V1_0. apply existsb_exists in E0 as (w & Hw & Heq%String.eqb_eq); subst w.
    split; [now left|]. split; [exact Hw|].
    intros u [-> | [-> | ->]] Hu; try reflexivity.
    - assert (existsb (String.eqb V1_1) entries = true); [|congruence].
      apply existsb_exists. exists V1_1. split; [exact Hu | reflexivity].
    - assert (existsb (String.eqb V1_2) entries = true); [|congruence].
      apply existsb_exists. exists V1_2. split; [exact Hu | reflexivity]. }
  right. intros w Hw [-> | [-> | ->]].
  - assert (existsb (String.eqb V1_0) entries = true); [|congruence].
    apply existsb_exists. exists V1_0. split; [exact Hw | reflexivity].
  - assert (existsb (String.eqb V1_1) entries = true); [|congruence].
    apply existsb_exists. exists V1_1. split; [exact Hw | reflexivity].
  - assert (existsb (String.eqb V1_2) entries = true); [|congruence].
    apply existsb_exists. exists V1_2. split; [exact Hw | reflexivity].
Qed.

(** C2.  [AcceptVersion] fails with [notConnectFrame] on a command other
    than CONNECT and STOMP.  On CONNECT and STOMP: without the
    accept-version header it returns [V1_0] for CONNECT and fails with
    [missingHeader accept-version] for STOMP; with the header it returns
    the lexicographically greatest recognized version among the
    comma-separated entries, and fails with [unknownVersion] when no entry
    is recognized (one of the two is always the case). *)
Theorem AcceptVersion_spec (f : Frame) :
  (Command f <> CONNECT -> Command f <> STOMP ->
   AcceptVersion f = (EmptyString, Some notConnectFrame))
  /\ (Command f = CONNECT -> Contains (headers f) AcceptVersionH = None ->
      AcceptVersion f = (V1_0, None))
  /\ (Command f = STOMP -> Contains (headers f) AcceptVersionH = None ->
      AcceptVersion f = (EmptyString, Some (missingHeader AcceptVersionH)))
  /\ (forall text,
        Command f = CONNECT \/ Command f = STOMP ->
        Contains (headers f) AcceptVersionH = Some text ->
        (forall v, greatestRecognized (Split text) v ->
                   AcceptVersion f = (v, None))
        /\ ((forall w, In w (Split text) -> ~ recognized w) ->
            AcceptVersion f = (EmptyString, Some unknownVersion))
        /\ ((exists v, greatestRecognized (Split text) v)
            \/ (forall w, In w (Split text) -> ~ recognized w))).
Proof.
  unfold AcceptVersion. repeat split.
  - intros H1 H2.
    destruct (String.eqb_spec (Command f) CONNECT); [contradiction|].
    destruct (String.eqb_spec (Command f) STOMP); [contradiction|].
    reflexivity.
  - intros -> ->. reflexivity.
  - intros -> ->. reflexivity.
  - intros v (Hv & Hin & Hmax).
    assert (Hc : negb (String.eqb (Command f) CONNECT)
                 && negb (String.eqb (Command f) STOMP) = false).
    { destruct H as [-> | ->]; reflexivity. }
    rewrite Hc, H0. cbv zeta.
    apply scan_sorted; auto using sortStrings_sorted.
    + apply (Permutation_in _ (sortStrings_perm _)), Hin.
    + intros w Hw Hwin. apply Hmax; auto.
      apply (Permutation_in _ (Permutation_sym (sortStrings_perm _))), Hwin.
  - intros Hnone.
    assert (Hc : negb (String.eqb (Command f) CONNECT)
                 && negb (String.eqb (Command f) STOMP) = false).
    { destruct H as [-> | ->]; reflexivity. }
    rewrite Hc, H0. cbv zeta.
    apply scan_none. intros w Hw. apply Hnone.
    apply (Permutation_in _ (Permutation_sym (sortStrings_perm _))), Hw.
  - apply greatestRecognized_cases.
Qed.

Lemma AcceptVersion_spec_witness :
  AcceptVersion (NewFrame CONNECT [(AcceptVersionH, "1.0,1.2")]) = (V1_2, None).
Proof.
  destruct (AcceptVersion_spec (NewFrame CONNECT [(AcceptVersionH, "1.0,1.2")]))
    as (_ & _ & _ & H).
  destruct (H "1.0,1.2" (or_introl eq_refl) eq_refl) as (Hg & _ & _).
  apply Hg. split; [right; right; reflexivity|].
  split; [right; left; reflexivity|].
  intros w [-> | [-> | ->]] _; reflexivity.
Defined.

(** ** Heart-beat *)

Lemma spanDigits_spec s : forall a r,
  spanDigits s = (a, r) -> s = (a ++ r)%string /\ allDigits a = true.
Proof.
  induction s as [|c s IH]; intros a r; simpl.
  - intros [= <- <-]. auto.
  - destruct (isDigit c) eqn:Hc.
    + destruct (spanDigits s) as [d r0]. intros [= <- <-].
      destruct (IH d r0 eq_refl) as [-> Hd]. simpl. rewrite Hc. auto.
    + intros [= <- <-]. auto.
Qed.

Lemma isDigit_not_comma c : isDigit c = true -> Ascii.eqb c "," = false.
Proof.
  intros H. destruct (Ascii.eqb_spec c ","); [subst; discriminate | reflexivity].
Qed.

Lemma Split_digits b : allDigits b = true -> Split b = [b].
Proof.
  induction b as [|c b IH]; simpl; [reflexivity|].
  intros [Hc Hb]%andb_prop. rewrite (isDigit_not_comma c Hc), (IH Hb).
  reflexivity.
Qed.

Lemma Split_pair a b :
  allDigits a = true -> allDigits b = true ->
  Split (a ++ String "," b) = [a; b].
Proof.
  intros Ha Hb. induction a as [|c a IH]; simpl.
  - rewrite (Split_digits b Hb). reflexivity.
  - simpl in Ha. apply andb_prop in Ha as [Hc Ha].
    rewrite (isDigit_not_comma c Hc), (IH Ha). reflexivity.
Qed.

Lemma digitsValue_bound s :
  allDigits s = true -> digitsValue s < 10 ^ Z.of_nat (String.length s).
Proof.
  induction s as [|c s IH]; simpl String.length; simpl digitsValue.
  - intros _. simpl. lia.
  - simpl. intros [Hc Hs]%andb_prop. specialize (IH Hs).
    pose proof (digitVal_range c Hc).
    rewrite Nat2Z.inj_succ, Z.pow_succ_r by lia. nia.
Qed.

Lemma oneToNine_value s :
  oneToNine s = true -> allDigits s = true ->
  isNumeral s = true /\ 0 <= digitsValue s < 10 ^ 9.
Proof.
  unfold oneToNine. intros [H1 H9]%andb_prop Hd.
  apply Nat.leb_le in H1, H9.
  split; [destruct s; [simpl in H1; lia | exact Hd]|].
  split; [now apply digitsValue_nonneg|].
  eapply Z.lt_le_trans; [now apply digitsValue_bound|].
  apply Z.pow_le_mono_r; lia.
Qed.

Lemma append_empty_r (s : string) : (s ++ "")%string = s.
Proof.
  induction s as [|c s IH]; [reflexivity|].
  change (String c (s ++ "")%string = String c s). now rewrite IH.
Qed.

(** The text the heart-beat pattern accepts: two numerals of one to
    nine digits around a comma. *)
Lemma heartBeatRegexp_inv s :
  heartBeatRegexp s = true ->
  exists a b, s = (a ++ String "," b)%string
              /\ allDigits a = true /\ allDigits b = true
              /\ oneToNine a = true /\ oneToNine b = true.
Proof.
  unfold heartBeatRegexp.
  destruct (spanDigits s) as [a r] eqn:Ea.
  destruct (spanDigits_spec _ _ _ Ea) as [-> Ha].
  intros [H1 H]%andb_prop. destruct r as [|c r']; [discriminate|].
  apply andb_prop in H as [Hc H].
  destruct (spanDigits r') as [b r''] eqn:Eb.
  destruct (spanDigits_spec _ _ _ Eb) as [-> Hb].
  apply andb_prop in H as [H2 H]. destruct r''; [|discriminate].
  apply Ascii.eqb_eq in Hc. subst c.
  exists a, b. rewrite append_empty_r. auto.
Qed.

(** A heart-beat that parses gives two periods below ten to the nine. *)
Lemma HeartBeat_range f cx cy :
  HeartBeat f = (cx, cy, None) -> 0 <= cx < 10 ^ 9 /\ 0 <= cy < 10 ^ 9.
Proof.
  unfold HeartBeat.
  destruct (negb (Command f =? CONNECT)%string && negb (Command f =? STOMP)%string
            && negb (Command f =? CONNECTED)%string); [discriminate|].
  destruct (Contains (headers f) HeartBeatH) as [hb|]; [|intros [= <- <-]; lia].
  destruct (heartBeatRegexp hb) eqn:Hm; [|discriminate]. cbn [negb].
  destruct (heartBeatRegexp_inv hb Hm) as (a & b & -> & Ha & Hb & Ha9 & Hb9).
  rewrite (Split_pair a b Ha Hb). cbn [nth].
  destruct (oneToNine_value a Ha9 Ha) as [Na Ra].
  destruct (oneToNine_value b Hb9 Hb) as [Nb Rb].
  rewrite !ParseUint_numeral by (auto; lia).
  destruct (Z.ltb_spec (digitsValue a) (2 ^ 32)); [|lia].
  destruct (Z.ltb_spec (digitsValue b) (2 ^ 32)); [|lia].
  cbn [fst]. intros [= <- <-]. auto.
Qed.

(** ** [FormatUint] writes the decimal numeral of its argument *)

Lemma allDigits_string_of_uint d :
  allDigits (NilEmpty.string_of_uint d) = true.
Proof. induction d; simpl; auto. Qed.

Lemma of_uint_acc_value d : forall acc,
  Z.pos (Pos.of_uint_acc d acc)
  = Z.pos acc * 10 ^ Z.of_nat (String.length (NilEmpty.string_of_uint d))
    + digitsValue (NilEmpty.string_of_uint d).
Proof.
  induction d; intros acc;
    cbn [Pos.of_uint_acc NilEmpty.string_of_uint String.length digitsValue];
    [simpl; lia | ..];
    rewrite IHd, Nat2Z.inj_succ, Z.pow_succ_r by lia;
    rewrite ?Pos2Z.inj_add, Pos2Z.inj_mul;
    match goal with |- context [digitVal ?c] =>
      let v := eval vm_compute in (digitVal c) in
      change (digitVal c) with v
    end; lia.
Qed.

Lemma of_uint_value d :
  Z.of_N (Pos.of_uint d) = digitsValue (NilEmpty.string_of_uint d).
Proof.
  induction d;
    cbn [Pos.of_uint NilEmpty.string_of_uint digitsValue];
    [reflexivity | ..];
    match goal with |- context [digitVal ?c] =>
      let v := eval vm_compute in (digitVal c) in
      change (digitVal c) with v
    end;
    [rewrite IHd; lia | ..];
    cbn [Z.of_N]; rewrite of_uint_acc_value; lia.
Qed.

Lemma FormatUint_value n :
  0 <= n ->
  isNumeral (FormatUint n) = true /\ digitsValue (FormatUint n) = n.
Proof.
  intros Hn. unfold FormatUint.
  pose proof (DecimalN.Unsigned.of_to (Z.to_N n)) as Hof.
  unfold N.of_uint in Hof.
  pose proof (of_uint_value (N.to_uint (Z.to_N n))) as Hv.
  rewrite Hof, Z2N.id in Hv by exact Hn.
  destruct (N.to_uint (Z.to_N n)) eqn:E;
    [simpl in Hv; subst n; split; reflexivity | ..];
    (split; [|exact (eq_sym Hv)]);
    match goal with
    | |- isNumeral (NilZero.string_of_uint ?d) = true =>
        exact (allDigits_string_of_uint d)
    end.
Qed.

Lemma FormatUint_inj n m :
  0 <= n -> 0 <= m -> FormatUint n = FormatUint m -> n = m.
Proof.
  intros Hn Hm E.
  destruct (FormatUint_value n Hn) as [_ <-].
  destruct (FormatUint_value m Hm) as [_ <-].
  now rewrite E.
Qed.

(** ** CONNECT handling *)

Lemma applyMinimum_clamp v min : 0 <= v -> applyMinimum v min = clamp v min.
Proof.
  intros Hv. unfold applyMinimum, clamp.
  destruct (Z.ltb_spec 0 v); destruct (Z.ltb_spec v min); simpl; lia.
Qed.

Lemma wrap64_small z : - 2 ^ 63 <= z < 2 ^ 63 -> wrap64 z = z.
Proof. intros H. unfold wrap64. rewrite Z.mod_small; lia. Qed.

Lemma serverMin_le c : serverMin c <= MaxHeartBeat.
Proof. unfold serverMin, asMilliseconds. lia. Qed.

Lemma formatInt_nonneg z : 0 <= z -> formatInt z = FormatUint z.
Proof. intros H. unfold formatInt. destruct (Z.ltb_spec z 0); [lia | reflexivity]. Qed.

(** C3.  On a CONNECT or STOMP frame that passes the receipt check, the
    authentication and the version negotiation, and whose heart-beat
    parses as (cx, cy), [handleConnect] succeeds; it stores the read
    period max(cx, serverMin) when cx > 0 (0 stays 0) and the write
    period max(cy, serverMin) when cy > 0 (0 stays 0), both in
    milliseconds; it queues one CONNECTED frame for the client whose
    heart-beat header is the write period, a comma, the read period, in
    decimal; the header is there whatever version was negotiated. *)
Theorem handleConnect_heartbeat (c : Conn) (f : Frame) (v : StompVersion)
    (cx cy : Z) :
  fContains f Receipt = None ->
  Authenticate (config c) (default EmptyString (fContains f Login))
               (default EmptyString (fContains f Passcode)) = true ->
  AcceptVersion f = (v, None) ->
  HeartBeat f = (cx, cy, None) ->
  let rd := clamp cx (serverMin c) in
  let wr := clamp cy (serverMin c) in
  let reply :=
    NewFrame CONNECTED
      [(Version, v); (Server, "stompd/x.y.z");
       (HeartBeatH, (FormatUint wr ++ "," ++ FormatUint rd)%string)] in
  exists c',
    handleConnect f c = (c', f, None)
    /\ readTimeout c' = rd * Millisecond
    /\ writeTimeout c' = wr * Millisecond
    /\ version c' = v
    /\ stateFunc c' = connectedS
    /\ log c' = (log c ++ [Queued reply])%list
    /\ fContains reply HeartBeatH
       = Some (FormatUint wr ++ "," ++ FormatUint rd)%string.
Proof.
  intros Hr Ha Hv Hh rd wr reply.
  destruct (HeartBeat_range f cx cy Hh) as [Hcx Hcy].
  pose proof (serverMin_le c) as Hmin. unfold MaxHeartBeat in Hmin.
  assert (Hrd : 0 <= rd < 10 ^ 9).
  { unfold rd, clamp. destruct (Z.ltb_spec 0 cx); lia. }
  assert (Hwr : 0 <= wr < 10 ^ 9).
  { unfold wr, clamp. destruct (Z.ltb_spec 0 cy); lia. }
  unfold handleConnect. rewrite Hr, Ha, Hv, Hh. cbn [negb].
  cbv zeta. cbn [config setVersion].
  fold (serverMin c).
  rewrite !applyMinimum_clamp by lia. fold rd. fold wr.
  rewrite !formatInt_nonneg by lia.
  rewrite !wrap64_small by (unfold Millisecond; lia).
  eexists. split; [reflexivity|].
  repeat split; reflexivity.
Qed.

(** Scenario S1: versions 1.0 and 1.2 offered, heart-beat 500,1000, a
    server minimum of 800 ms. *)
Lemma handleConnect_heartbeat_witness :
  let c := NewConn (mkConfig (800 * Millisecond) (fun _ _ => true)) 0%nat ∅ [] in
  let f := NewFrame CONNECT
             [(AcceptVersionH, "1.0,1.2"); (Host, "/"); (HeartBeatH, "500,1000")] in
  exists c',
    handleConnect f c = (c', f, None)
    /\ readTimeout c' = 800 * Millisecond
    /\ writeTimeout c' = 1000 * Millisecond
    /\ log c' = [Queued (NewFrame CONNECTED
                   [(Version, "1.2"); (Server, "stompd/x.y.z");
                    (HeartBeatH, "1000,800")])].
Proof.
  intros c f.
  destruct (handleConnect_heartbeat c f V1_2 500 1000)
    as (c' & H & Hrd & Hwr & _ & _ & Hlog & _);
    try (vm_compute; reflexivity).
  exists c'. split; [exact H|]. split; [exact Hrd|]. split; [exact Hwr|].
  exact Hlog.
Defined.

(** ** The state machine *)

Ltac not_command H :=
  repeat match goal with
  | |- context [String.eqb (Command ?f) ?x] =>
      destruct (String.eqb_spec (Command f) x) as [?E|_];
      [exfalso; apply H; rewrite E; simpl; tauto|]
  end.

Lemma connected_handler k cmd h f c :
  In (cmd, h) (handlers k) -> Command f = cmd -> connected k f c = h f c.
Proof.
  intros Hin E. unfold connected. rewrite E. simpl in Hin.
  repeat (destruct Hin as [[= <- <-] | Hin]; [reflexivity|]).
  destruct Hin.
Qed.

(** C5, the dispatch.  In the connecting state a command other than CONNECT
    and STOMP yields [notConnected], and CONNECT and STOMP go to
    [handleConnect].  In the connected state CONNECT, STOMP, MESSAGE,
    RECEIPT and ERROR yield [unexpectedCommand], a command outside the
    STOMP vocabulary yields [unknownCommand], and each of DISCONNECT,
    BEGIN, ABORT, COMMIT, SEND, SUBSCRIBE, UNSUBSCRIBE, ACK and NACK goes
    to its handler. *)
Theorem dispatch_table (d : nat) (c : Conn) (f : Frame) :
  (stateFunc c = connectingS ->
     (~ In (Command f) [CONNECT; STOMP] ->
      callState (S d) f c = (c, f, Some notConnected))
     /\ (In (Command f) [CONNECT; STOMP] ->
         callState (S d) f c = handleConnect f c))
  /\ (stateFunc c = connectedS ->
     (In (Command f) unexpected ->
      callState (S d) f c = (c, f, Some unexpectedCommand))
     /\ (~ In (Command f) vocabulary ->
         callState (S d) f c = (c, f, Some unknownCommand))
     /\ (forall cmd h, In (cmd, h) (handlers (callState d)) ->
         Command f = cmd -> callState (S d) f c = h f c)).
Proof.
  split; intros Hs; cbn [callState]; rewrite Hs.
  - split; intros H; unfold connecting.
    + not_command H. reflexivity.
    + destruct H as [<- | [<- | []]].
      * rewrite String.eqb_refl. reflexivity.
      * rewrite String.eqb_refl, orb_true_r. reflexivity.
  - split; [|split].
    + intros H. unfold connected.
      simpl in H. destruct H as [E | [E | [E | [E | [E | []]]]]];
        rewrite <- E; reflexivity.
    + intros H. unfold connected. not_command H. reflexivity.
    + intros cmd h Hin E. now apply (connected_handler _ cmd).
Qed.

Lemma dispatch_table_witness :
  let c := setStateFunc connectedS (NewConn (mkConfig 0 (fun _ _ => true)) 0%nat ∅ []) in
  let f := NewFrame ACK [(Id, "7")] in
  callState 2 f c = handleAck f c.
Proof.
  intros c f.
  destruct (dispatch_table 1 c f) as [_ H].
  destruct (H eq_refl) as (_ & _ & Hh).
  apply (Hh ACK handleAck); [|reflexivity].
  simpl. do 7 right. left. reflexivity.
Defined.

(** C5 does not extend to CONNECTED: the frame is valid, its
    command belongs to the vocabulary and is none of CONNECT, STOMP,
    MESSAGE, RECEIPT, ERROR, yet the connected state answers
    [unknownCommand] and no handler is called. *)
Lemma dispatch_CONNECTED_counterexample :
  let c := setStateFunc connectedS (NewConn (mkConfig 0 (fun _ _ => true)) 0%nat ∅ []) in
  let f := NewFrame CONNECTED [] in
  Validate f = None
  /\ In (Command f) vocabulary
  /\ ~ In (Command f) unexpected
  /\ callState 2 f c = (c, f, Some unknownCommand)
  /\ Forall (fun h => snd h f c <> callState 2 f c) (handlers (callState 1)).
Proof.
  intros c f. split; [reflexivity|]. split; [simpl; tauto|].
  split.
  { simpl. intros [E | [E | [E | [E | [E | []]]]]]; discriminate E. }
  split; [reflexivity|].
  repeat constructor; intros H; apply (f_equal snd) in H;
    vm_compute in H; discriminate H.
Qed.

(** ** The pending-ack list *)

(** [Add] panics exactly when the back-pointer of the subscription is
    set. *)
Lemma Add_panics_iff sl p h s l :
  subscriptions h !! p = Some s -> lists h !! sl = Some l ->
  (Add sl p h = Panic alreadyInList <-> subList s <> None)
  /\ (subList s = None -> exists h', Add sl p h = Ok h').
Proof.
  intros Hs Hl. unfold Add. rewrite Hs.
  destruct (subList s) as [q|]; rewrite ?Hl; split;
    try (split; congruence); try discriminate; eauto.
Qed.

(** A subscription taken by [Get] can be added again. *)
Lemma Get_then_Add sl sl' p h h' l :
  Get sl h = Ok (Some p, h') -> lists h' !! sl' = Some l ->
  exists h'', Add sl' p h' = Ok h''.
Proof.
  unfold Get. destruct (lists h !! sl) as [[|front l0]|]; try discriminate.
  destruct (subscriptions h !! front) as [s|] eqn:Hs; [|discriminate].
  intros [= <- <-] Hl. unfold Add. cbn [subscriptions lists] in *.
  rewrite lookup_insert_eq. cbn [subList withSubList]. rewrite Hl. eauto.
Qed.

(** A subscription unlinked by [Remove] can be added again. *)
Lemma Remove_then_Add sl sl' p h h' l l0 :
  lists h !! sl = Some l0 -> In p l0 ->
  Remove sl p h = Ok h' -> lists h' !! sl' = Some l ->
  exists h'', Add sl' p h' = Ok h''.
Proof.
  intros Hl0 Hin. unfold Remove. rewrite Hl0.
  assert (Hrm : exists r, removeFirst p l0 = Some r).
  { clear Hl0. induction l0 as [|e l0 IH]; [destruct Hin|].
    simpl. destruct (Nat.eqb_spec e p); [eauto|].
    destruct Hin as [->|Hin]; [contradiction|].
    destruct (IH Hin) as [r ->]. eauto. }
  destruct Hrm as [r ->].
  destruct (subscriptions h !! p) as [s|] eqn:Hs; [|discriminate].
  intros [= <-] Hl. unfold Add. cbn [subscriptions lists] in *.
  rewrite lookup_insert_eq. cbn [subList withSubList]. rewrite Hl. eauto.
Qed.

(** [FindByIdAndRemove] writes no subscription object: the one it unlinks
    keeps the back-pointer it had. *)
Lemma FindByIdAndRemove_subscriptions sl ident h r h' :
  FindByIdAndRemove sl ident h = Ok (r, h') ->
  subscriptions h' = subscriptions h.
Proof.
  unfold FindByIdAndRemove. destruct (lists h !! sl); [|discriminate].
  destruct (findById (subscriptions h) ident l) as [[[e|] l']|]; try discriminate;
    intros [= <- <-]; reflexivity.
Qed.

Lemma findById_found m ident l p l' :
  findById m ident l = Ok (Some p, l') -> In p l.
Proof.
  revert l'. induction l as [|e l IH]; intros l'; cbn [findById]; [discriminate|].
  destruct (m !! e) as [sub|]; [|discriminate].
  destruct (String.eqb (id sub) ident).
  - intros [= <- _]. now left.
  - destruct (findById m ident l) as [[r rest]|]; [|discriminate].
    intros [= -> _]. right. eapply IH. reflexivity.
Qed.

(** In a list whose members all point back to a list, the subscription
    that [FindByIdAndRemove] returns cannot be added to any list. *)
Lemma FindByIdAndRemove_then_Add sl sl' ident h p h' l :
  lists h !! sl = Some l ->
  (forall q, In q l ->
     exists s, subscriptions h !! q = Some s /\ subList s <> None) ->
  FindByIdAndRemove sl ident h = Ok (Some p, h') ->
  Add sl' p h' = Panic alreadyInList.
Proof.
  intros Hl Hback Hfind.
  pose proof (FindByIdAndRemove_subscriptions _ _ _ _ _ Hfind) as Hsame.
  unfold FindByIdAndRemove in Hfind. rewrite Hl in Hfind.
  destruct (findById (subscriptions h) ident l) as [[[e|] l']|] eqn:E;
    try discriminate.
  injection Hfind as -> _.
  destruct (Hback p (findById_found _ _ _ _ _ E)) as (s & Hs & Hp).
  unfold Add. rewrite Hsame, Hs. destruct (subList s); [reflexivity | contradiction].
Qed.

(** C8, the defect.  A subscription is added to the list and taken out
    again by [FindByIdAndRemove]: the list is empty, the back-pointer is
    still set, and adding the subscription again panics.  Taken out by
    [Get] or by [Remove] instead, it is added again without panic. *)
Theorem FindByIdAndRemove_keeps_back_pointer :
  exists h1 h2 h3 h4,
    Add 0%nat 1%nat heapOne = Ok h1
    /\ FindByIdAndRemove 0%nat "s1" h1 = Ok (Some 1%nat, h2)
    /\ lists h2 !! 0%nat = Some []
    /\ (subList <$> subscriptions h2 !! 1%nat) = Some (Some 0%nat)
    /\ Add 0%nat 1%nat h2 = Panic alreadyInList
    /\ Get 0%nat h1 = Ok (Some 1%nat, h3)
    /\ (subList <$> subscriptions h3 !! 1%nat) = Some None
    /\ (exists h, Add 0%nat 1%nat h3 = Ok h)
    /\ Remove 0%nat 1%nat h1 = Ok h4
    /\ (subList <$> subscriptions h4 !! 1%nat) = Some None
    /\ (exists h, Add 0%nat 1%nat h4 = Ok h).
Proof.
  do 4 eexists.
  split; [vm_compute; reflexivity|].
  split; [vm_compute; reflexivity|].
  split; [vm_compute; reflexivity|].
  split; [vm_compute; reflexivity|].
  split; [vm_compute; reflexivity|].
  split; [vm_compute; reflexivity|].
  split; [vm_compute; reflexivity|].
  split; [eexists; vm_compute; reflexivity|].
  split; [vm_compute; reflexivity|].
  split; [vm_compute; reflexivity|].
  eexists; vm_compute; reflexivity.
Qed.

(** ** Frames from the write channel *)

(** C10, the defect.  A MESSAGE frame taken from the write channel makes
    [allocateMessageId] read the acknowledgement mode through the nil
    subscription it was given: the turn of the loop panics, whatever the
    session and the rest of the frame. *)
Theorem write_channel_MESSAGE_panics (d : nat) (c : Conn) (hs : Headers)
    (body : list Byte.byte) :
  allocateMessageId (mkFrame MESSAGE hs body) None c = Panic nilDereference
  /\ loopBody d c (WriteChannel (Some (mkFrame MESSAGE hs body)))
     = Panicked c nilDereference.
Proof. split; reflexivity. Qed.

(** Any other frame from the write channel leaves [allocateMessageId]
    without effect. *)
Lemma allocateMessageId_other f sub c :
  Command f <> MESSAGE -> allocateMessageId f sub c = Ok (c, f).
Proof.
  intros H. unfold allocateMessageId.
  destruct (String.eqb_spec (Command f) MESSAGE); [contradiction | reflexivity].
Qed.

(** ** DISCONNECT *)

(** In the connected state a DISCONNECT frame never ends the loop:
    [handleDisconnect] returns no error, whatever the write of the
    receipt gave. *)
Lemma DISCONNECT_continues (d : nat) (c : Conn) (f : Frame) :
  stateFunc c = connectedS -> Command f = DISCONNECT ->
  exists c', loopBody (S d) c (ReadChannel (Some f)) = Continue c'.
Proof.
  intros Hs Hc. cbn [loopBody callState]. rewrite Hs.
  unfold Validate, connected. rewrite Hc. cbn.
  unfold handleDisconnect, sendReceiptImmediately.
  destruct (fContains f Receipt); [|eauto].
  destruct (sendImmediately _ c) as [c1 e]. eauto.
Qed.

(** C4, the defect.  A session connects, is sent its CONNECTED frame,
    receives DISCONNECT with a receipt, and is then handed a delivery by
    the upper layer: the loop is still running after the DISCONNECT, and
    after the RECEIPT it writes the MESSAGE to the client. *)
Theorem frames_sent_after_DISCONNECT :
  let connect := NewFrame CONNECT [] in
  let reply := NewFrame CONNECTED
                 [(Version, "1.0"); (Server, "stompd/x.y.z"); (HeartBeatH, "0,0")] in
  let disconnect := NewFrame DISCONNECT [(Receipt, "r9")] in
  let delivered := NewFrame MESSAGE
                     [(Destination, "/q"); (message.Subscription, "s1"); (MessageId, "1")] in
  exists c',
    loop 2 (NewConn (mkConfig 0 (fun _ _ => true)) 0%nat heapAuto [])
         [Selects (ReadChannel (Some connect));
          Selects (WriteChannel (Some reply));
          Selects (ReadChannel (Some disconnect));
          Selects (SubChannel (Some 1%nat))]
    = Continue c'
    /\ log c' =
       [Queued reply;
        Written (Some reply) None;
        Written (Some (NewFrame RECEIPT [(ReceiptId, "r9")])) None;
        Written (Some delivered) None;
        Requested (SubscribeOp 1%nat)].
Proof.
  intros connect reply disconnect delivered.
  eexists. split; vm_compute; reflexivity.
Qed.

(** ** Cleanup *)











(** ** Headers *)

Lemma Contains_Remove_same h k : Contains (message.Remove h k) k = None.
Proof.
  induction h as [|[k0 v0] h IH]; cbn [message.Remove List.filter fst]; [reflexivity|].
  destruct (String.eqb_spec k0 k) as [->|Hne]; cbn [negb].
  - exact IH.
  - cbn [Contains]. destruct (String.eqb_spec k0 k); [contradiction | exact IH].
Qed.

Lemma Contains_Remove_other h k k' :
  k <> k' -> Contains (message.Remove h k) k' = Contains h k'.
Proof.
  intros Hne.
  induction h as [|[k0 v0] h IH]; cbn [message.Remove List.filter fst]; [reflexivity|].
  destruct (String.eqb_spec k0 k) as [->|Hk]; cbn [negb Contains].
  - destruct (String.eqb_spec k k'); [contradiction | exact IH].
  - destruct (String.eqb_spec k0 k'); [reflexivity | exact IH].
Qed.






(** ** Receipts and the transaction store *)

Lemma quietly_refl c : quietly c c.
Proof.
  split; [repeat split|]. exists []. rewrite app_nil_r. auto.
Qed.

Lemma quietly_trans c1 c2 c3 : quietly c1 c2 -> quietly c2 c3 -> quietly c1 c3.
Proof.
  intros [(A1 & A2 & A3 & A4) (e1 & L1 & F1)] [(B1 & B2 & B3 & B4) (e2 & L2 & F2)].
  split; [repeat split; congruence|].
  exists (e1 ++ e2)%list. rewrite L2, L1, <- app_assoc. split; [reflexivity|].
  apply Forall_app; auto.
Qed.

Lemma quietly_emit e c : tame e -> quietly c (emit e c).
Proof.
  intros He. split; [repeat split|]. exists [e]. split; [reflexivity|].
  constructor; [exact He | constructor].
Qed.

Lemma writerWrite_spec f c :
  exists w c1,
    writerWrite f c = (c1, w)
    /\ log c1 = (log c ++ [Written f w])%list
    /\ txStore c1 = txStore c /\ stateFunc c1 = stateFunc c
    /\ unchanged c c1
    /\ (w = None \/ w = Some writeError).
Proof.
  unfold writerWrite. destruct (netErrors c) as [|[|] rest];
    do 2 eexists; (split; [reflexivity|]); repeat split; auto.
Qed.

(** What [sendReceiptImmediately] does: nothing without receipt header;
    with one, the header is taken off the frame and a RECEIPT frame with
    that receipt-id goes to the writer. *)
Lemma sendReceiptImmediately_cases f c :
  (fContains f Receipt = None /\ sendReceiptImmediately f c = (c, f, None))
  \/ (exists v w c1,
        fContains f Receipt = Some v
        /\ sendReceiptImmediately f c = (c1, fRemove f Receipt, w)
        /\ log c1 = (log c ++ [Written (Some (NewFrame RECEIPT [(ReceiptId, v)])) w])%list
        /\ txStore c1 = txStore c /\ stateFunc c1 = stateFunc c
        /\ unchanged c c1
        /\ (w = None \/ w = Some writeError)).
Proof.
  unfold sendReceiptImmediately.
  destruct (fContains f Receipt) as [v|]; [right | left; auto].
  unfold sendImmediately.
  destruct (writerWrite_spec (Some (NewFrame RECEIPT [(ReceiptId, v)])) c)
    as (w & c1 & -> & Hlog & Htx & Hst & Hun & Hw).
  exists v, w, c1. auto 10.
Qed.

Lemma sendReceiptImmediately_quietly f c c1 f1 e :
  sendReceiptImmediately f c = (c1, f1, e) ->
  quietly c c1 /\ txStore c1 = txStore c /\ stateFunc c1 = stateFunc c
  /\ Command f1 = Command f
  /\ fContains f1 Receipt = None
  /\ (forall k, k <> Receipt -> fContains f1 k = fContains f k).
Proof.
  destruct (sendReceiptImmediately_cases f c)
    as [[Hn ->] | (v & w & c2 & Hv & -> & Hlog & Htx & Hst & Hun & _)];
    intros [= <- <- <-].
  - split; [apply quietly_refl|]. auto.
  - split.
    { split; [exact Hun|]. eexists. split; [exact Hlog|].
      constructor; [discriminate | constructor]. }
    repeat split; auto.
    + apply Contains_Remove_same.
    + intros k Hk. apply Contains_Remove_other. congruence.
Qed.

Lemma storeClean_same c c' :
  txStore c' = txStore c -> storeClean (txStore c) -> storeClean (txStore c').
Proof. now intros ->. Qed.

Lemma handleConnect_good : Good handleConnect.
Proof.
  intros f c Hc. unfold handleConnect.
  destruct (fContains f Receipt); [split; [exact Hc | apply quietly_refl]|].
  destruct (negb _); [split; [exact Hc | apply quietly_refl]|].
  destruct (AcceptVersion f) as [v [e|]].
  { split; [exact Hc|]. split; [repeat split|]. exists []. now rewrite app_nil_r. }
  destruct (HeartBeat f) as [[cx cy] [e|]].
  { split; [exact Hc|]. split; [repeat split|]. exists []. now rewrite app_nil_r. }
  split; [exact Hc|]. split; [repeat split|].
  eexists. split; [reflexivity|]. constructor; [exact I | constructor].
Qed.

Lemma connecting_good : Good connecting.
Proof.
  intros f c Hc. unfold connecting.
  destruct (_ || _); [now apply handleConnect_good|].
  split; [exact Hc | apply quietly_refl].
Qed.

Lemma handleDisconnect_good : Good handleDisconnect.
Proof.
  intros f c Hc. unfold handleDisconnect.
  destruct (sendReceiptImmediately f c) as [[c1 f1] e] eqn:E.
  destruct (sendReceiptImmediately_quietly _ _ _ _ _ E) as (Hq & Htx & _).
  cbn. split; [now apply (storeClean_same c) | exact Hq].
Qed.

Lemma handleBegin_good : Good handleBegin.
Proof.
  intros f c Hc. unfold handleBegin.
  destruct (fContains f Transaction) as [tx|];
    [|split; [exact Hc | apply quietly_refl]].
  destruct (sendReceiptImmediately f c) as [[c1 f1] e] eqn:E.
  destruct (sendReceiptImmediately_quietly _ _ _ _ _ E) as (Hq & Htx & _).
  destruct e; [cbn; split; [now apply (storeClean_same c) | exact Hq]|].
  unfold txBegin. rewrite Htx.
  destruct (txStore c !! tx) eqn:El; cbn.
  - split; [exact Hc | exact Hq].
  - split; [|exact Hq]. apply map_Forall_insert_2; [constructor | exact Hc].
Qed.

Lemma handleAbort_good : Good handleAbort.
Proof.
  intros f c Hc. unfold handleAbort.
  destruct (fContains f Transaction) as [tx|];
    [|split; [exact Hc | apply quietly_refl]].
  destruct (sendReceiptImmediately f c) as [[c1 f1] e] eqn:E.
  destruct (sendReceiptImmediately_quietly _ _ _ _ _ E) as (Hq & Htx & _).
  destruct e; [cbn; split; [now apply (storeClean_same c) | exact Hq]|].
  unfold txAbort. rewrite Htx.
  destruct (txStore c !! tx) eqn:El; cbn.
  - split; [|exact Hq]. apply map_Forall_delete, Hc.
  - split; [exact Hc | exact Hq].
Qed.

Lemma sendFrameRequest_good : Good sendFrameRequest.
Proof.
  intros f c Hc. unfold sendFrameRequest.
  destruct (sendReceiptImmediately f c) as [[c1 f1] e] eqn:E.
  destruct (sendReceiptImmediately_quietly _ _ _ _ _ E) as (Hq & Htx & _).
  destruct e; cbn; (split; [now apply (storeClean_same c)|]); [exact Hq|].
  apply (quietly_trans _ _ _ Hq), quietly_emit. exact I.
Qed.

(** [handleSend] keeps the store clean: the frame it appends is a SEND
    whose receipt header was taken off before. *)
Lemma handleSend_good f c :
  Command f = SEND -> storeClean (txStore c) ->
  storeClean (txStore (hConn (handleSend f c)))
  /\ quietly c (hConn (handleSend f c)).
Proof.
  intros Hcmd Hc. unfold handleSend.
  destruct (sendReceiptImmediately f c) as [[c1 f1] e] eqn:E.
  destruct (sendReceiptImmediately_quietly _ _ _ _ _ E)
    as (Hq & Htx & _ & Hcmd1 & Hrc & _).
  destruct e; [cbn; split; [now apply (storeClean_same c) | exact Hq]|].
  destruct (fContains f1 Transaction) as [tx|].
  - unfold txAdd. rewrite Htx.
    destruct (txStore c !! tx) as [l|] eqn:El; cbn.
    + split.
      * apply map_Forall_insert_2; [|exact Hc].
        apply Forall_app. split; [exact (map_Forall_lookup_1 _ _ _ _ Hc El)|].
        constructor; [|constructor]. split; [cbn; congruence|].
        unfold fContains, fRemove. cbn [headers withHeaders].
        rewrite Contains_Remove_other by discriminate. exact Hrc.
      * apply (quietly_trans _ c1); [exact Hq|].
        apply (quietly_emit (Stored tx _) (setTxStore _ c1)). exact I.
    + split; [now apply (storeClean_same c) | exact Hq].
  - cbn. split; [now apply (storeClean_same c)|].
    apply (quietly_trans _ _ _ Hq), quietly_emit. exact I.
Qed.

Lemma replayAll_good k frames : forall c,
  Good k -> storeClean (txStore c) ->
  storeClean (txStore (fst (replayAll k frames c)))
  /\ quietly c (fst (replayAll k frames c)).
Proof.
  induction frames as [|g frames IH]; intros c Hk Hc; cbn [replayAll].
  - split; [exact Hc | apply quietly_refl].
  - destruct (Hk g c Hc) as [Hc1 Hq1].
    destruct (k g c) as [[c1 g1] [e|]]; cbn [hConn fst] in *.
    + auto.
    + destruct (IH c1 Hk Hc1) as [Hc2 Hq2].
      split; [exact Hc2 | exact (quietly_trans _ _ _ Hq1 Hq2)].
Qed.

Lemma handleCommit_good k : Good k -> Good (handleCommit k).
Proof.
  intros Hk f c Hc. unfold handleCommit.
  destruct (fContains f Transaction) as [tx|];
    [|split; [exact Hc | apply quietly_refl]].
  destruct (sendReceiptImmediately f c) as [[c1 f1] e] eqn:E.
  destruct (sendReceiptImmediately_quietly _ _ _ _ _ E) as (Hq & Htx & _).
  destruct e; [cbn; split; [now apply (storeClean_same c) | exact Hq]|].
  unfold txCommit. rewrite Htx.
  destruct (txStore c !! tx) as [l|] eqn:El.
  - destruct (replayAll_good k l (setTxStore (delete tx (txStore c)) c1) Hk)
      as [Hc2 Hq2].
    { cbn. apply map_Forall_delete, Hc. }
    destruct (replayAll k l _) as [c2 e2]. cbn in *.
    split; [exact Hc2|]. apply (quietly_trans _ c1); [exact Hq|].
    apply (quietly_trans _ (setTxStore (delete tx (txStore c)) c1)); [|exact Hq2].
    split; [repeat split|]. exists []. now rewrite app_nil_r.
  - cbn. split; [now apply (storeClean_same c) | exact Hq].
Qed.

Lemma connected_good k : Good k -> Good (connected k).
Proof.
  intros Hk f c Hc. unfold connected.
  destruct (_ || _); [split; [exact Hc | apply quietly_refl]|].
  destruct (String.eqb _ DISCONNECT); [now apply handleDisconnect_good|].
  destruct (String.eqb _ BEGIN); [now apply handleBegin_good|].
  destruct (String.eqb _ ABORT); [now apply handleAbort_good|].
  destruct (String.eqb _ COMMIT); [now apply handleCommit_good|].
  destruct (String.eqb_spec (Command f) SEND); [now apply handleSend_good|].
  destruct (String.eqb _ SUBSCRIBE); [now apply sendFrameRequest_good|].
  destruct (String.eqb _ UNSUBSCRIBE); [now apply sendFrameRequest_good|].
  destruct (String.eqb _ ACK); [now apply sendFrameRequest_good|].
  destruct (String.eqb _ NACK); [now apply sendFrameRequest_good|].
  destruct (_ || _); split; try exact Hc; apply quietly_refl.
Qed.

Lemma callState_good d : Good (callState d).
Proof.
  induction d as [|d IH]; intros f c Hc; cbn [callState].
  - split; [exact Hc | apply quietly_refl].
  - destruct (stateFunc c); [now apply connecting_good | now apply connected_good].
Qed.

Lemma sendErrorImmediately_spec err f c :
  exists w frame,
    log (sendErrorImmediately err f c) = (log c ++ [Written (Some frame) w])%list
    /\ Command frame = ERROR
    /\ txStore (sendErrorImmediately err f c) = txStore c
    /\ unchanged c (sendErrorImmediately err f c).
Proof.
  unfold sendErrorImmediately, sendImmediately.
  match goal with |- context [writerWrite (Some ?g) c] =>
    destruct (writerWrite_spec (Some g) c) as (w & c1 & E & Hlog & Htx & _ & Hun & _);
    assert (Hcmd : Command g = ERROR)
      by (destruct f as [f0|]; [destruct (fContains f0 Receipt)|]; reflexivity);
    exists w, g
  end.
  rewrite E. cbn [fst]. auto.
Qed.

Lemma sendErrorImmediately_quietly err f c :
  quietly c (sendErrorImmediately err f c)
  /\ txStore (sendErrorImmediately err f c) = txStore c.
Proof.
  destruct (sendErrorImmediately_spec err f c) as (w & g & Hlog & Hcmd & Htx & Hun).
  split; [|exact Htx]. split; [exact Hun|]. eexists. split; [exact Hlog|].
  constructor; [cbn; rewrite Hcmd; discriminate | constructor].
Qed.

(** Every turn of the loop keeps the transaction store clean. *)
Lemma loopBody_storeClean d c sel :
  storeClean (txStore c) -> storeClean (txStore (outConn (loopBody d c sel))).
Proof.
  intros Hc. destruct sel as [[f|]|[f|]|[p|]|]; cbn [loopBody]; try exact Hc.
  - destruct (allocateMessageId f None c) as [[c1 f1]|msg] eqn:E; [|exact Hc].
    assert (Ht : txStore c1 = txStore c).
    { unfold allocateMessageId in E.
      destruct (String.eqb _ MESSAGE); [discriminate | now inversion E]. }
    destruct (writerWrite_spec (Some f1) c1) as (w & c2 & -> & _ & Htx & _).
    assert (storeClean (txStore c2)) by (rewrite Htx, Ht; exact Hc).
    destruct w; [assumption|]. destruct (String.eqb _ ERROR); assumption.
  - destruct (Validate f).
    + cbn. destruct (sendErrorImmediately_quietly e (Some f) c) as [_ ->]. exact Hc.
    + destruct (callState_good d f c Hc) as [Hc1 _].
      destruct (callState d f c) as [[c1 f1] [e|]]; cbn in *; [|exact Hc1].
      destruct (sendErrorImmediately_quietly e (Some f1) c1) as [_ ->]. exact Hc1.
  - destruct (subscriptions (heap c) !! p) as [sub|]; [|exact Hc].
    destruct (frame sub) as [f|]; [|exact Hc].
    destruct (allocateMessageId f (Some sub) c) as [[c1 f1]|msg] eqn:E; [|exact Hc].
    assert (Ht : txStore c1 = txStore c).
    { unfold allocateMessageId in E.
      destruct (String.eqb _ MESSAGE); [destruct (isAckAuto _)|]; now inversion E. }
    destruct (writerWrite_spec (Some f1) (setHeap (storeFrame p f1 (heap c1)) c1))
      as (w & c2 & -> & _ & Htx & _).
    assert (storeClean (txStore c2)) by (rewrite Htx; cbn; rewrite Ht; exact Hc).
    destruct w; [assumption|].
    destruct (isAckAuto _); [assumption|].
    destruct (Add _ _ _); assumption.
  - destruct (0 <? writeTimeout c); [|exact Hc].
    destruct (writerWrite_spec None c) as (w & c2 & -> & _ & Htx & _).
    destruct w; cbn; rewrite Htx; exact Hc.
Qed.

Lemma loop_storeClean d turns : forall c,
  storeClean (txStore c) -> storeClean (txStore (outConn (loop d c turns))).
Proof.
  induction turns as [|[sel|write] turns IH]; intros c Hc; cbn [loop];
    [exact Hc | | now apply IH].
  pose proof (loopBody_storeClean d c sel Hc) as H.
  destruct (loopBody d c sel); cbn in *; auto.
Qed.

Ltac receipt_sent f c :=
  let v := fresh "v" in let w := fresh "w" in let c1 := fresh "c1" in
  let Hn := fresh "Hn" in let Hv := fresh "Hv" in let Hlog := fresh "Hlog" in
  let Htx := fresh "Htx" in let Hst := fresh "Hst" in let Hun := fresh "Hun" in
  let Hw := fresh "Hw" in
  destruct (sendReceiptImmediately_cases f c)
    as [[Hn ->] | (v & w & c1 & Hv & -> & Hlog & Htx & Hst & Hun & Hw)];
  [| assert (fContains (fRemove f Receipt) Receipt = None)
       by apply Contains_Remove_same].

(** The receipt could not be written: the handler stops there. *)
Lemma served_failed f c c1 v e :
  fContains f Receipt = Some v ->
  log c1 = (log c ++ [Written (Some (NewFrame RECEIPT [(ReceiptId, v)])) (Some e)])%list ->
  txStore c1 = txStore c -> stateFunc c1 = stateFunc c ->
  Some e = Some writeError ->
  Served f c (c1, fRemove f Receipt, Some e).
Proof.
  intros Hv Hlog Htx Hst [= ->].
  exists [Written (Some (NewFrame RECEIPT [(ReceiptId, v)])) (Some writeError)],
         (Some writeError), [].
  unfold receiptPrefix. rewrite Hv, app_nil_r.
  repeat split; auto; try discriminate. apply Contains_Remove_same.
Qed.

(** The general shape of a served frame, from the events of the handler
    after the receipt. *)
Lemma served_after f c c1 f1 c' f' err rest :
  sendReceiptImmediately f c = (c1, f1, None) ->
  log c' = (log c1 ++ rest)%list ->
  Forall receiptFree rest ->
  err <> Some replayDepthExhausted ->
  fContains f' Receipt = None ->
  stateFunc c' = stateFunc c1 ->
  Served f c (c', f', err).
Proof.
  intros E Hlog Hrest Herr Hf Hst.
  destruct (sendReceiptImmediately_cases f c)
    as [[Hn E'] | (v & w & c2 & Hv & E' & Hlog2 & Htx & Hst2 & Hun & Hw)];
    rewrite E' in E; inversion E; subst.
  - exists [], None, rest. unfold receiptPrefix. rewrite Hn.
    repeat split; auto; congruence.
  - exists [Written (Some (NewFrame RECEIPT [(ReceiptId, v)])) None], None, rest.
    unfold receiptPrefix. rewrite Hv, Hlog, Hlog2, <- app_assoc.
    repeat split; auto; congruence.
Qed.

Lemma served_receipt_error f c c1 f1 e :
  sendReceiptImmediately f c = (c1, f1, Some e) ->
  Served f c (c1, f1, Some e).
Proof.
  intros E.
  destruct (sendReceiptImmediately_cases f c)
    as [[Hn E'] | (v & w & c2 & Hv & E' & Hlog2 & Htx & Hst2 & Hun & Hw)];
    rewrite E' in E; inversion E; subst.
  destruct Hw as [Hw|Hw]; [discriminate|].
  now apply (served_failed f c c1 v e).
Qed.

Ltac after_receipt f c :=
  let c1 := fresh "c1" in let f1 := fresh "f1" in let e := fresh "e" in
  let E := fresh "E" in let Hq := fresh "Hq" in let Htx := fresh "Htx" in
  let Hst := fresh "Hst" in let Hcmd := fresh "Hcmd" in
  let Hrc := fresh "Hrc" in let Hoth := fresh "Hoth" in
  destruct (sendReceiptImmediately f c) as [[c1 f1] [e|]] eqn:E;
  [now apply served_receipt_error|];
  destruct (sendReceiptImmediately_quietly _ _ _ _ _ E)
    as (Hq & Htx & Hst & Hcmd & Hrc & Hoth).

Ltac served_done :=
  cbn [log emit request setTxStore stateFunc];
  auto; try discriminate; try (now rewrite app_nil_r);
  repeat constructor; auto.

Lemma sendFrameRequest_served f c : Served f c (sendFrameRequest f c).
Proof.
  unfold sendFrameRequest. after_receipt f c.
  apply (served_after f c c1 f1 _ _ _ [Requested (EnqueueOp f1)] E); served_done.
Qed.

Lemma handleSend_served f c : Served f c (handleSend f c).
Proof.
  unfold handleSend. after_receipt f c.
  destruct (fContains f1 Transaction) as [tx|].
  - unfold txAdd. destruct (txStore c1 !! tx) as [l|].
    + assert (Hf : fContains (fRemove f1 Transaction) Receipt = None).
      { unfold fContains, fRemove. cbn [headers withHeaders].
        rewrite Contains_Remove_other by discriminate. exact Hrc. }
      apply (served_after f c c1 f1 _ _ _ [Stored tx (fRemove f1 Transaction)] E);
        served_done.
    + apply (served_after f c c1 f1 _ _ _ [] E); served_done.
  - apply (served_after f c c1 f1 _ _ _ [Requested (EnqueueOp f1)] E); served_done.
Qed.

Lemma handleBegin_served f c :
  fContains f Transaction <> None -> Served f c (handleBegin f c).
Proof.
  intros Ht. unfold handleBegin.
  destruct (fContains f Transaction) as [tx|]; [|contradiction].
  after_receipt f c.
  unfold txBegin. destruct (txStore c1 !! tx);
    apply (served_after f c c1 f1 _ _ _ [] E); served_done.
Qed.

Lemma handleAbort_served f c :
  fContains f Transaction <> None -> Served f c (handleAbort f c).
Proof.
  intros Ht. unfold handleAbort.
  destruct (fContains f Transaction) as [tx|]; [|contradiction].
  after_receipt f c.
  unfold txAbort. destruct (txStore c1 !! tx);
    apply (served_after f c c1 f1 _ _ _ [] E); served_done.
Qed.

(** Replaying clean frames in the connected state gives receipt-free
    events only and never runs out of depth. *)
Lemma replayAll_silent d frames : forall c,
  stateFunc c = connectedS -> Forall cleanFrame frames ->
  exists c' err rest,
    replayAll (callState (S d)) frames c = (c', err)
    /\ log c' = (log c ++ rest)%list
    /\ Forall receiptFree rest
    /\ err <> Some replayDepthExhausted
    /\ stateFunc c' = connectedS.
Proof.
  induction frames as [|g frames IH]; intros c Hs Hall; cbn [replayAll].
  - exists c, None, []. rewrite app_nil_r. repeat split; auto; discriminate.
  - apply Forall_cons in Hall as [[Hcmd Hrc] Hall].
    assert (Hcall : callState (S d) g c = handleSend g c).
    { cbn [callState]. rewrite Hs. unfold connected. rewrite Hcmd. reflexivity. }
    rewrite Hcall. pose proof (handleSend_served g c) as Hserved.
    destruct (handleSend g c) as [[c1 g1] err1].
    destruct Hserved as (pre & w & rest1 & Hlog & Hpre & Hw & Hrest & Herr & _ & Hst).
    unfold receiptPrefix in Hpre. rewrite Hrc in Hpre. destruct Hpre as [-> ->].
    cbn [app] in Hlog.
    destruct err1 as [e|].
    + exists c1, (Some e), rest1. repeat split; auto. congruence.
    + destruct (IH c1) as (c' & err & rest2 & Hrun & Hlog2 & Hrest2 & Herr2 & Hst2);
        [congruence | exact Hall |].
      exists c', err, (rest1 ++ rest2)%list. rewrite Hrun.
      repeat split; auto.
      * rewrite Hlog2, Hlog, <- app_assoc. reflexivity.
      * apply Forall_app. auto.
Qed.

Lemma handleCommit_served d f c :
  stateFunc c = connectedS -> storeClean (txStore c) ->
  fContains f Transaction <> None ->
  Served f c (handleCommit (callState (S d)) f c).
Proof.
  intros Hs Hc Ht. unfold handleCommit.
  destruct (fContains f Transaction) as [tx|]; [|contradiction].
  after_receipt f c.
  unfold txCommit. rewrite Htx.
  destruct (txStore c !! tx) as [l|] eqn:El.
  - destruct (replayAll_silent d l (setTxStore (delete tx (txStore c)) c1))
      as (c' & err & rest & Hrun & Hlog & Hrest & Herr & Hst');
      [cbn; congruence | exact (map_Forall_lookup_1 _ _ _ _ Hc El) |].
    rewrite Hrun.
    apply (served_after f c c1 f1 _ _ _ rest E); auto. congruence.
  - apply (served_after f c c1 f1 _ _ _ [] E); served_done.
Qed.

Lemma Validate_transaction f :
  Validate f = None -> In (Command f) [BEGIN; COMMIT; ABORT] ->
  fContains f Transaction <> None.
Proof.
  intros Hv Hin. unfold Validate in Hv. unfold fContains.
  simpl in Hin. destruct Hin as [E | [E | [E | []]]]; rewrite <- E in Hv;
    cbn in Hv; destruct (Contains (headers f) Transaction); congruence.
Qed.

(** C1.  In the connected state, a valid SEND, SUBSCRIBE, UNSUBSCRIBE, ACK,
    NACK, BEGIN, COMMIT or ABORT frame with a receipt header is served as
    follows: the first thing the session does is hand to the writer a
    RECEIPT frame whose receipt-id is the value of the header; if that
    write fails nothing else happens; otherwise only requests to the upper
    layer and appends to the transaction store follow, all of frames
    without receipt header; the frame itself has lost its receipt header;
    the store holds no frame with a receipt header afterwards.  And at
    every point of every run of the loop of a new session, no frame in
    the transaction store has a receipt header. *)
Theorem receipt_before_effects :
  (forall (d : nat) (c : Conn) (f : Frame) (v : string),
     stateFunc c = connectedS ->
     storeClean (txStore c) ->
     Validate f = None ->
     In (Command f) receiptCommands ->
     fContains f Receipt = Some v ->
     exists c' f' err w rest,
       callState (S (S d)) f c = (c', f', err)
       /\ log c' = (log c ++ Written (Some (NewFrame RECEIPT [(ReceiptId, v)])) w
                          :: rest)%list
       /\ (w <> None -> rest = [] /\ err = w /\ txStore c' = txStore c)
       /\ Forall receiptFree rest
       /\ err <> Some replayDepthExhausted
       /\ fContains f' Receipt = None
       /\ storeClean (txStore c'))
  /\ (forall (d : nat) cfg sl subsH net (turns : list Turn),
        storeClean (txStore (outConn (loop d (NewConn cfg sl subsH net) turns)))).
Proof.
  split.
  - intros d c f v Hs Hc Hval Hcmd Hv.
    assert (Hserved : Served f c (callState (S (S d)) f c)).
    { cbn [callState]. rewrite Hs. fold (callState (S d)).
      simpl in Hcmd.
      destruct Hcmd as [E | [E | [E | [E | [E | [E | [E | [E | []]]]]]]]].
      - rewrite (connected_handler _ SEND handleSend) by (simpl; auto 10).
        apply handleSend_served.
      - rewrite (connected_handler _ SUBSCRIBE handleSubscribe) by (simpl; auto 10).
        apply sendFrameRequest_served.
      - rewrite (connected_handler _ UNSUBSCRIBE handleUnsubscribe) by (simpl; auto 10).
        apply sendFrameRequest_served.
      - rewrite (connected_handler _ ACK handleAck) by (simpl; auto 10).
        apply sendFrameRequest_served.
      - rewrite (connected_handler _ NACK handleNack) by (simpl; auto 10).
        apply sendFrameRequest_served.
      - rewrite (connected_handler _ BEGIN handleBegin) by (simpl; auto 10).
        apply handleBegin_served, Validate_transaction; [exact Hval|].
        rewrite <- E. simpl. auto.
      - rewrite (connected_handler _ COMMIT (handleCommit (callState (S d))))
          by (simpl; auto 10).
        apply handleCommit_served; auto.
        apply Validate_transaction; [exact Hval|]. rewrite <- E. simpl. auto.
      - rewrite (connected_handler _ ABORT handleAbort) by (simpl; auto 10).
        apply handleAbort_served, Validate_transaction; [exact Hval|].
        rewrite <- E. simpl. auto. }
    destruct (callState_good (S (S d)) f c Hc) as [Hclean _].
    destruct (callState (S (S d)) f c) as [[c' f'] err].
    destruct Hserved as (pre & w & rest & Hlog & Hpre & Hw & Hrest & Herr & Hf & _).
    unfold receiptPrefix in Hpre. rewrite Hv in Hpre. subst pre.
    exists c', f', err, w, rest. repeat split; auto; apply Hw; assumption.
  - intros d cfg sl subsH net turns. apply loop_storeClean.
    cbn. apply map_Forall_empty.
Qed.

(** Scenario S3, the SEND: transaction t1 is open, the frame asks for
    receipt r2. *)
Lemma receipt_before_effects_witness :
  let c := setTxStore {[ "t1" := [] ]}
             (setStateFunc connectedS
                (NewConn (mkConfig 0 (fun _ _ => true)) 0%nat ∅ [])) in
  let f := NewFrame SEND
             [(Destination, "/q"); (Transaction, "t1"); (Receipt, "r2")] in
  exists c' f' err w rest,
    callState 2 f c = (c', f', err)
    /\ log c' = (log c ++ Written (Some (NewFrame RECEIPT [(ReceiptId, "r2")])) w
                       :: rest)%list
    /\ (w <> None -> rest = [] /\ err = w /\ txStore c' = txStore c)
    /\ Forall receiptFree rest
    /\ err <> Some replayDepthExhausted
    /\ fContains f' Receipt = None
    /\ storeClean (txStore c').
Proof.
  intros c f.
  apply (proj1 receipt_before_effects 0%nat c f "r2").
  - reflexivity.
  - apply map_Forall_singleton. constructor.
  - reflexivity.
  - simpl. auto.
  - reflexivity.
Defined.

(** Scenario S3 as a run: BEGIN, a transactional SEND and COMMIT, each
    with a receipt.  The frame routed at commit has neither the
    transaction nor the receipt header. *)
Example scenario_S3 :
  let c := setStateFunc connectedS
             (NewConn (mkConfig 0 (fun _ _ => true)) 0%nat ∅ []) in
  exists c',
    loop 2 c
      [Selects (ReadChannel (Some (NewFrame BEGIN
                      [(Transaction, "t1"); (Receipt, "r1")])));
       Selects (ReadChannel (Some (NewFrame SEND
                      [(Destination, "/q"); (Transaction, "t1"); (Receipt, "r2")])));
       Selects (ReadChannel (Some (NewFrame COMMIT
                      [(Transaction, "t1"); (Receipt, "r3")])))]
    = Continue c'
    /\ log c' =
       [Written (Some (NewFrame RECEIPT [(ReceiptId, "r1")])) None;
        Written (Some (NewFrame RECEIPT [(ReceiptId, "r2")])) None;
        Stored "t1" (NewFrame SEND [(Destination, "/q")]);
        Written (Some (NewFrame RECEIPT [(ReceiptId, "r3")])) None;
        Requested (EnqueueOp (NewFrame SEND [(Destination, "/q")]))].
Proof. intros c. eexists. split; vm_compute; reflexivity. Qed.

(** ** Message ids *)














Example scenario_S4 :
  exists c',
    loopBody 2 sessionS4 (SubChannel (Some 1%nat)) = Continue c'
    /\ log c' = [Written (Some messageOne) None].
Proof. eexists. split; vm_compute; reflexivity. Qed.

(** Two deliveries in auto mode, the upper layer handing the
    subscription a new frame in between: ids 1 and 2. *)
Example two_deliveries :
  exists c',
    loop 1 (NewConn (mkConfig 0 (fun _ _ => true)) 0%nat heapAuto [])
         [Selects (SubChannel (Some 1%nat));
          UpperLayer (storeFrame 1%nat
                        (NewFrame MESSAGE [(Destination, "/q");
                                           (message.Subscription, "s1")]));
          Selects (SubChannel (Some 1%nat))]
    = Continue c'
    /\ msgIds (log c') = [Some "1"; Some "2"].
Proof. eexists. split; vm_compute; reflexivity. Qed.

(** * Further properties of the frame model *)

(** ** Required headers *)

(** X1.  [verifyRequiredHeaders] returns nil exactly when the frame has
    every header of the list; otherwise it reports the first header of
    the list that the frame lacks. *)
Theorem verifyRequiredHeaders_first_missing (f : Frame) (names : list string) :
  (verifyRequiredHeaders f names = None <->
   forall n, In n names -> fContains f n <> None)
  /\ (forall e, verifyRequiredHeaders f names = Some e ->
        exists before n after,
          names = (before ++ n :: after)%list
          /\ e = missingHeader n
          /\ fContains f n = None
          /\ forall m, In m before -> fContains f m <> None).
Proof.
  unfold fContains. induction names as [|n names [IH1 IH2]]; cbn [verifyRequiredHeaders].
  - split; [split; [intros _ n [] | reflexivity] | discriminate].
  - destruct (Contains (headers f) n) as [v|] eqn:E.
    + split.
      * rewrite IH1. split.
        -- intros H m [<- | Hm]; [congruence | now apply H].
        -- intros H m Hm. apply H. now right.
      * intros e He. destruct (IH2 e He) as (b & m & a & -> & -> & Hm & Hb).
        exists (n :: b), m, a. repeat split; auto.
        intros k [<- | Hk]; [congruence | now apply Hb].
    + split.
      * split; [discriminate|]. intros H. exfalso.
        exact (H n (or_introl eq_refl) E).
      * intros e [= <-]. exists [], n, names. repeat split; auto.
Qed.

Lemma verifyRequiredHeaders_None f names :
  verifyRequiredHeaders f names = None <->
  forall n, In n names -> fContains f n <> None.
Proof.
  unfold fContains. induction names as [|n names IH]; cbn [verifyRequiredHeaders].
  - split; [intros _ n [] | reflexivity].
  - destruct (Contains (headers f) n) as [v|] eqn:E.
    + rewrite IH. split.
      * intros H m [<- | Hm]; [congruence | now apply H].
      * intros H m Hm. apply H. now right.
    + split; [discriminate|]. intros H. exfalso.
      exact (H n (or_introl eq_refl) E).
Qed.

Lemma verifyRequiredHeaders_error f names e :
  verifyRequiredHeaders f names = Some e -> exists n, e = missingHeader n.
Proof.
  induction names as [|n names IH]; cbn [verifyRequiredHeaders]; [discriminate|].
  destruct (Contains (headers f) n); [exact IH | intros [= <-]; eauto].
Qed.

Lemma acceptScan_error l : forall acc,
  snd acc = None \/ snd acc = Some unknownVersion ->
  snd (fold_left acceptStep l acc) = None
  \/ snd (fold_left acceptStep l acc) = Some unknownVersion.
Proof.
  induction l as [|x l IH]; intros acc Hacc; cbn [fold_left]; [exact Hacc|].
  apply IH. unfold acceptStep.
  destruct (String.eqb x V1_0); [now left|].
  destruct (String.eqb x V1_1); [now left|].
  destruct (String.eqb x V1_2); [now left | exact Hacc].
Qed.

(** The errors [AcceptVersion] can return. *)
Lemma AcceptVersion_errors f e :
  snd (AcceptVersion f) = Some e ->
  e = notConnectFrame \/ e = unknownVersion \/ e = missingHeader AcceptVersionH.
Proof.
  unfold AcceptVersion.
  destruct (negb _ && negb _); [intros [= <-]; auto|].
  destruct (Contains (headers f) AcceptVersionH).
  - intros H.
    destruct (acceptScan_error (sortStrings (Split s)) (EmptyString, Some unknownVersion))
      as [E|E]; [now right | |]; rewrite E in H; [discriminate|].
    injection H as <-. auto.
  - destruct (String.eqb _ CONNECT); [discriminate | intros [= <-]; auto].
Qed.

Lemma validateConnect_errors f e :
  validateConnect f = Some e -> e <> invalidCommand.
Proof.
  unfold validateConnect.
  destruct (AcceptVersion f) as [v [e0|]] eqn:E.
  - intros [= <-]. destruct (AcceptVersion_errors f e0) as [-> | [-> | ->]];
      [now rewrite E | discriminate..].
  - destruct (String.eqb v V1_0); [discriminate|].
    destruct (verifyRequiredHeaders f [Host]) as [e1|] eqn:E1.
    + intros [= <-]. destruct (verifyRequiredHeaders_error _ _ _ E1) as [n ->].
      discriminate.
    + destruct (fContains f HeartBeatH); [|discriminate].
      destruct (negb _); [intros [= <-]; discriminate | discriminate].
Qed.

(** For the commands without rules of their own, [Validate] checks the
    headers of the table. *)
Lemma Validate_table f :
  In (Command f) vocabulary -> Command f <> CONNECT -> Command f <> STOMP ->
  Validate f = verifyRequiredHeaders f (requiredHeaders (Command f)).
Proof.
  intros Hin H1 H2. unfold Validate, requiredHeaders. simpl in Hin.
  destruct Hin as [E | [E | Hin]]; [congruence | congruence |].
  repeat (destruct Hin as [E | Hin]; [rewrite <- E; reflexivity|]).
  destruct Hin.
Qed.

(** X2.  [Validate] answers [invalidCommand] exactly for the commands
    that are outside the STOMP vocabulary. *)
Theorem Validate_invalidCommand (f : Frame) :
  Validate f = Some invalidCommand <-> ~ In (Command f) vocabulary.
Proof.
  split.
  - intros Hv Hin.
    destruct (String.eqb_spec (Command f) CONNECT) as [E1|N1].
    { unfold Validate in Hv. rewrite E1 in Hv. cbn [String.eqb orb] in Hv.
      change (String.eqb CONNECT CONNECT) with true in Hv. cbn [orb] in Hv.
      exact (validateConnect_errors _ _ Hv eq_refl). }
    destruct (String.eqb_spec (Command f) STOMP) as [E2|N2].
    { unfold Validate in Hv. rewrite E2 in Hv.
      change (String.eqb STOMP CONNECT) with false in Hv.
      change (String.eqb STOMP STOMP) with true in Hv. cbn [orb] in Hv.
      exact (validateConnect_errors _ _ Hv eq_refl). }
    rewrite (Validate_table f Hin N1 N2) in Hv.
    destruct (verifyRequiredHeaders_error _ _ _ Hv) as [n Hn]. discriminate.
  - intros H. unfold Validate. cbv zeta.
    not_command H. reflexivity.
Qed.

(** X3.  For every command of the vocabulary other than CONNECT and
    STOMP, a frame is valid exactly when it carries each header that the
    table requires of its command. *)
Theorem Validate_required (f : Frame) :
  In (Command f) vocabulary -> Command f <> CONNECT -> Command f <> STOMP ->
  (Validate f = None <->
   forall n, In n (requiredHeaders (Command f)) -> fContains f n <> None).
Proof.
  intros Hin H1 H2. rewrite (Validate_table f Hin H1 H2).
  apply verifyRequiredHeaders_None.
Qed.

Lemma Validate_required_witness :
  Validate (NewFrame SUBSCRIBE [(Destination, "/q"); (Id, "s1")]) = None.
Proof.
  apply (Validate_required (NewFrame SUBSCRIBE [(Destination, "/q"); (Id, "s1")])).
  - simpl. auto 10.
  - discriminate.
  - discriminate.
  - intros n [<- | [<- | []]]; discriminate.
Defined.

(** ** The heart-beat header *)

Lemma isDigit_comma : isDigit "," = false.
Proof. reflexivity. Qed.

Lemma spanDigits_digits b : allDigits b = true -> spanDigits b = (b, EmptyString).
Proof.
  induction b as [|c b IH]; cbn [spanDigits allDigits]; [reflexivity|].
  intros [Hc Hb]%andb_prop. rewrite Hc, (IH Hb). reflexivity.
Qed.

Lemma spanDigits_comma a b :
  allDigits a = true -> spanDigits (a ++ String "," b) = (a, String "," b).
Proof.
  induction a as [|c a IH]; intros Ha.
  - reflexivity.
  - cbn [allDigits] in Ha. apply andb_prop in Ha as [Hc Ha].
    change (spanDigits (String c (a ++ String "," b)) = (String c a, String "," b)).
    cbn [spanDigits]. rewrite Hc, (IH Ha). reflexivity.
Qed.

Lemma period_oneToNine s : period s -> oneToNine s = true.
Proof.
  intros [_ [H1 H9]]. unfold oneToNine.
  apply andb_true_intro. split; apply Nat.leb_le; assumption.
Qed.

Lemma oneToNine_period s : allDigits s = true -> oneToNine s = true -> period s.
Proof.
  unfold oneToNine. intros Hd [H1 H9]%andb_prop.
  apply Nat.leb_le in H1, H9. split; auto.
Qed.

(** The pattern accepts exactly two periods around one comma. *)
Lemma heartBeatRegexp_iff s :
  heartBeatRegexp s = true <->
  exists a b, period a /\ period b /\ s = (a ++ String "," b)%string.
Proof.
  split.
  - intros H. destruct (heartBeatRegexp_inv s H) as (a & b & -> & Ha & Hb & Ha9 & Hb9).
    exists a, b. auto using oneToNine_period.
  - intros (a & b & Ha & Hb & ->). unfold heartBeatRegexp.
    rewrite (spanDigits_comma a b (proj1 Ha)), (period_oneToNine a Ha).
    cbn [andb]. change (Ascii.eqb "," ",") with true. cbn [andb].
    rewrite (spanDigits_digits b (proj1 Hb)), (period_oneToNine b Hb). reflexivity.
Qed.

Lemma period_value s : period s ->
  ParseUint s 32 = (digitsValue s, None) /\ 0 <= digitsValue s < 10 ^ 9.
Proof.
  intros Hp. destruct (oneToNine_value s (period_oneToNine s Hp) (proj1 Hp)) as [Hn Hr].
  split; [|exact Hr]. rewrite ParseUint_numeral by (auto; lia).
  destruct (Z.ltb_spec (digitsValue s) (2 ^ 32)); [reflexivity | lia].
Qed.

(** X4.  [HeartBeat] is refused with [invalidOperationForFrame] on every
    command but CONNECT, STOMP and CONNECTED.  On those, an absent
    heart-beat header reads as (0, 0); a header made of two numerals of
    one to nine digits around a comma reads as their two values; any
    other text fails with [invalidHeartBeat]. *)
Theorem HeartBeat_spec (f : Frame) :
  (~ In (Command f) [CONNECT; STOMP; CONNECTED] ->
   HeartBeat f = (0, 0, Some invalidOperationForFrame))
  /\ (In (Command f) [CONNECT; STOMP; CONNECTED] ->
      match fContains f HeartBeatH with
      | None => HeartBeat f = (0, 0, None)
      | Some text =>
          (forall a b, period a -> period b ->
             text = (a ++ String "," b)%string ->
             HeartBeat f = (digitsValue a, digitsValue b, None))
          /\ ((~ exists a b, period a /\ period b
                            /\ text = (a ++ String "," b)%string) ->
              HeartBeat f = (0, 0, Some invalidHeartBeat))
      end).
Proof.
  unfold HeartBeat, fContains. split.
  - intros H. not_command H. reflexivity.
  - intros Hin.
    assert (Hc : negb (String.eqb (Command f) CONNECT)
                 && negb (String.eqb (Command f) STOMP)
                 && negb (String.eqb (Command f) CONNECTED) = false).
    { simpl in Hin. destruct Hin as [<- | [<- | [<- | []]]]; reflexivity. }
    rewrite Hc. destruct (Contains (headers f) HeartBeatH) as [text|]; [|reflexivity].
    split.
    + intros a b Ha Hb ->.
      assert (Hm : heartBeatRegexp (a ++ String "," b) = true)
        by (apply heartBeatRegexp_iff; eauto).
      rewrite Hm. cbn [negb].
      rewrite (Split_pair a b (proj1 Ha) (proj1 Hb)). cbn [nth].
      rewrite (proj1 (period_value a Ha)), (proj1 (period_value b Hb)).
      reflexivity.
    + intros Hno. destruct (heartBeatRegexp text) eqn:Hm; [|reflexivity].
      exfalso. apply Hno, heartBeatRegexp_iff, Hm.
Qed.

Lemma HeartBeat_spec_witness :
  HeartBeat (NewFrame STOMP [(HeartBeatH, "0500,1000")]) = (500, 1000, None).
Proof.
  destruct (HeartBeat_spec (NewFrame STOMP [(HeartBeatH, "0500,1000")])) as [_ H].
  destruct (H (or_intror (or_introl eq_refl))) as [Hok _].
  apply (Hok "0500" "1000"); try reflexivity; split; try reflexivity; simpl; lia.
Defined.

(** ** The numerals [FormatUint] writes have no leading zero *)

Lemma nzhead_leading d :
  Decimal.nzhead d = Decimal.Nil
  \/ match Decimal.nzhead d with
     | Decimal.Nil | Decimal.D0 _ => False
     | _ => True
     end.
Proof. induction d; cbn [Decimal.nzhead]; auto. Qed.

Lemma unorm_leading d :
  Decimal.unorm d = Decimal.D0 Decimal.Nil
  \/ match Decimal.unorm d with
     | Decimal.Nil | Decimal.D0 _ => False
     | _ => True
     end.
Proof.
  unfold Decimal.unorm. destruct (nzhead_leading d) as [-> | H]; [now left|].
  destruct (Decimal.nzhead d); auto; contradiction.
Qed.

Lemma leading_value d :
  match d with Decimal.Nil | Decimal.D0 _ => False | _ => True end ->
  10 ^ (Z.of_nat (String.length (NilEmpty.string_of_uint d)) - 1)
  <= digitsValue (NilEmpty.string_of_uint d).
Proof.
  destruct d as [|d|d|d|d|d|d|d|d|d|d]; try contradiction; intros _;
    cbn [NilEmpty.string_of_uint String.length digitsValue];
    pose proof (digitsValue_nonneg _ (allDigits_string_of_uint d));
    rewrite Nat2Z.inj_succ;
    replace (Z.succ (Z.of_nat (String.length (NilEmpty.string_of_uint d))) - 1)
      with (Z.of_nat (String.length (NilEmpty.string_of_uint d))) by lia;
    match goal with |- context [digitVal ?c] =>
      let v := eval vm_compute in (digitVal c) in
      change (digitVal c) with v
    end;
    assert (0 < 10 ^ Z.of_nat (String.length (NilEmpty.string_of_uint d)))
      by (apply Z.pow_pos_nonneg; lia);
    nia.
Qed.

(** Below ten to the nine, [FormatUint] writes one to nine digits. *)
Lemma FormatUint_period n : 0 <= n < 10 ^ 9 -> period (FormatUint n).
Proof.
  intros Hn. destruct (FormatUint_value n (proj1 Hn)) as [Hnum Hval].
  assert (Hd : allDigits (FormatUint n) = true).
  { destruct (FormatUint n); [discriminate | exact Hnum]. }
  split; [exact Hd|]. split.
  { destruct (FormatUint n); [discriminate | simpl; lia]. }
  unfold FormatUint in *.
  pose proof (DecimalN.Unsigned.to_of (N.to_uint (Z.to_N n))) as Hnorm.
  rewrite DecimalN.Unsigned.of_to in Hnorm.
  destruct (unorm_leading (N.to_uint (Z.to_N n))) as [H0 | Hlead];
    rewrite <- Hnorm in *.
  - rewrite H0. simpl. lia.
  - assert (Hs : NilZero.string_of_uint (N.to_uint (Z.to_N n))
                 = NilEmpty.string_of_uint (N.to_uint (Z.to_N n))).
    { destruct (N.to_uint (Z.to_N n)); [contradiction | reflexivity..]. }
    rewrite Hs in *.
    pose proof (leading_value _ Hlead) as Hlow.
    rewrite Hval in Hlow.
    assert (Z.of_nat (String.length (NilEmpty.string_of_uint (N.to_uint (Z.to_N n)))) - 1 < 9).
    { apply (Z.pow_lt_mono_r_iff 10); lia. }
    lia.
Qed.

(** * Further properties of the session *)

(** ** CONNECT *)

Lemma HeartBeat_periods f a b :
  In (Command f) [CONNECT; STOMP; CONNECTED] ->
  fContains f HeartBeatH = Some (a ++ String "," b)%string ->
  period a -> period b ->
  HeartBeat f = (digitsValue a, digitsValue b, None).
Proof.
  intros Hin Hh Ha Hb. unfold HeartBeat. unfold fContains in Hh.
  assert (Hc : negb (String.eqb (Command f) CONNECT)
               && negb (String.eqb (Command f) STOMP)
               && negb (String.eqb (Command f) CONNECTED) = false).
  { simpl in Hin. destruct Hin as [<- | [<- | [<- | []]]]; reflexivity. }
  rewrite Hc, Hh.
  assert (Hm : heartBeatRegexp (a ++ String "," b) = true)
    by (apply heartBeatRegexp_iff; eauto).
  rewrite Hm. cbn [negb].
  rewrite (Split_pair a b (proj1 Ha) (proj1 Hb)). cbn [nth].
  rewrite (proj1 (period_value a Ha)), (proj1 (period_value b Hb)).
  reflexivity.
Qed.

(** The five ways through [handleConnect], in the order of its checks. *)
Lemma handleConnect_cases f c :
  (fContains f Receipt <> None
   /\ handleConnect f c = (c, f, Some receiptInConnect))
  \/ (fContains f Receipt = None /\ authenticated c f = false
      /\ handleConnect f c = (c, f, Some authenticationFailed))
  \/ (fContains f Receipt = None /\ authenticated c f = true
      /\ exists v e, AcceptVersion f = (v, Some e)
                     /\ handleConnect f c = (setVersion v c, f, Some e))
  \/ (fContains f Receipt = None /\ authenticated c f = true
      /\ exists v cx cy e,
           AcceptVersion f = (v, None) /\ HeartBeat f = (cx, cy, Some e)
           /\ handleConnect f c = (setVersion v c, f, Some e))
  \/ (fContains f Receipt = None /\ authenticated c f = true
      /\ exists v cx cy,
           AcceptVersion f = (v, None) /\ HeartBeat f = (cx, cy, None)
           /\ 0 <= clamp cx (serverMin c) < 10 ^ 9
           /\ 0 <= clamp cy (serverMin c) < 10 ^ 9
           /\ handleConnect f c =
              (setStateFunc connectedS
                 (Send (connectedReply v (clamp cy (serverMin c))
                                         (clamp cx (serverMin c)))
                    (setTimeouts (clamp cx (serverMin c) * Millisecond)
                                 (clamp cy (serverMin c) * Millisecond)
                                 (setVersion v c))),
               f, None)).
Proof.
  unfold handleConnect, authenticated.
  destruct (fContains f Receipt) as [r|]; [left; split; [discriminate | reflexivity]|].
  right.
  destruct (Authenticate _ _ _); cbn [negb]; [right | left; auto].
  destruct (AcceptVersion f) as [v [e|]]; [left; eauto 10 | right].
  destruct (HeartBeat f) as [[cx cy] [e|]] eqn:Hh; [left; eauto 10 | right].
  split; [reflexivity|]. split; [reflexivity|].
  exists v, cx, cy.
  destruct (HeartBeat_range f cx cy Hh) as [Hcx Hcy].
  pose proof (serverMin_le c) as Hmin. unfold MaxHeartBeat in Hmin.
  assert (Hrd : 0 <= clamp cx (serverMin c) < 10 ^ 9).
  { unfold clamp. destruct (Z.ltb_spec 0 cx); lia. }
  assert (Hwr : 0 <= clamp cy (serverMin c) < 10 ^ 9).
  { unfold clamp. destruct (Z.ltb_spec 0 cy); lia. }
  repeat (split; [solve [auto] |]).
  cbv zeta. cbn [config setVersion]. fold (serverMin c).
  rewrite !applyMinimum_clamp by lia.
  rewrite !formatInt_nonneg by lia.
  rewrite !wrap64_small by (unfold Millisecond; lia).
  reflexivity.
Qed.

(** X5.  [handleConnect] succeeds exactly when the frame has no receipt
    header, the credentials are accepted, the version negotiation and
    the heart-beat parse succeed; a receipt header is refused with
    [receiptInConnect] before the credentials are looked at.  On every
    error nothing is queued for the client and the state function and
    both timeouts are left as they were; on success the state function
    is [connected]. *)
Theorem handleConnect_outcome (f : Frame) (c : Conn) :
  let c' := hConn (handleConnect f c) in
  let err := snd (handleConnect f c) in
  (err = None <->
     fContains f Receipt = None /\ authenticated c f = true
     /\ snd (AcceptVersion f) = None /\ snd (HeartBeat f) = None)
  /\ (fContains f Receipt <> None -> err = Some receiptInConnect)
  /\ (err <> None ->
        log c' = log c /\ stateFunc c' = stateFunc c
        /\ readTimeout c' = readTimeout c /\ writeTimeout c' = writeTimeout c)
  /\ (err = None -> stateFunc c' = connectedS).
Proof.
  cbv zeta.
  destruct (handleConnect_cases f c)
    as [(Hr & ->) | [(Hr & Ha & ->) | [(Hr & Ha & v & e & Hv & ->)
       | [(Hr & Ha & v & cx & cy & e & Hv & Hh & ->)
       | (Hr & Ha & v & cx & cy & Hv & Hh & _ & _ & ->)]]]];
    cbn [snd fst hConn]; rewrite ?Hv, ?Hh; cbn [snd];
    (split; [split; [intros H; try discriminate H | intros (H1 & H2 & H3 & H4)];
             try congruence; auto |]);
    (split; [intros H; try reflexivity; congruence |]);
    split; try (intros _; repeat split; reflexivity);
    try (intros H; congruence); try discriminate.
Qed.

(** X6.  When [handleConnect] succeeds, the heart-beat header of the
    CONNECTED frame it queues reads back, with the [HeartBeat] of the
    frame model, as the write period and the read period the session has
    stored, in milliseconds and in that order. *)
Theorem reply_heartbeat_roundtrip (f f' : Frame) (c c' : Conn) :
  handleConnect f c = (c', f', None) ->
  exists reply,
    log c' = (log c ++ [Queued reply])%list
    /\ Command reply = CONNECTED
    /\ fContains reply Version = Some (version c')
    /\ HeartBeat reply
       = (writeTimeout c' / Millisecond, readTimeout c' / Millisecond, None).
Proof.
  intros H.
  destruct (handleConnect_cases f c)
    as [(Hr & E) | [(Hr & Ha & E) | [(Hr & Ha & v & e & Hv & E)
       | [(Hr & Ha & v & cx & cy & e & Hv & Hh & E)
       | (Hr & Ha & v & cx & cy & Hv & Hh & Hrd & Hwr & E)]]]];
    rewrite E in H; try discriminate H.
  injection H as <- <-.
  exists (connectedReply v (clamp cy (serverMin c)) (clamp cx (serverMin c))).
  split; [reflexivity|]. split; [reflexivity|]. split; [reflexivity|].
  cbn [setStateFunc Send emit setTimeouts readTimeout writeTimeout].
  unfold Millisecond. rewrite !Z.div_mul by lia.
  destruct (FormatUint_value _ (proj1 Hrd)) as [_ Er].
  destruct (FormatUint_value _ (proj1 Hwr)) as [_ Ew].
  rewrite <- Er at 2. rewrite <- Ew at 2.
  apply HeartBeat_periods; auto using FormatUint_period.
  simpl. auto.
Qed.

Lemma reply_heartbeat_roundtrip_witness :
  let c := NewConn (mkConfig (800 * Millisecond) (fun _ _ => true)) 0%nat ∅ [] in
  let f := NewFrame CONNECT
             [(AcceptVersionH, "1.0,1.2"); (Host, "/"); (HeartBeatH, "500,1000")] in
  exists c' reply,
    handleConnect f c = (c', f, None)
    /\ log c' = [Queued reply]
    /\ HeartBeat reply = (1000, 800, None).
Proof.
  intros c f.
  destruct (handleConnect f c) as [[c' f'] err] eqn:E.
  assert (Hf : f' = f /\ err = None) by (vm_compute in E; now inversion E).
  destruct Hf as [-> ->].
  destruct (reply_heartbeat_roundtrip f f c c' E) as (reply & Hlog & _ & _ & Hh).
  exists c', reply. split; [reflexivity|]. split; [exact Hlog|].
  rewrite Hh. vm_compute in E. inversion E. reflexivity.
Defined.

(** X7.  A CONNECT or STOMP frame that passed [Validate] can fail in
    [handleConnect] only with [receiptInConnect], with
    [authenticationFailed], or with [invalidHeartBeat]; the last one only
    when version 1.0 was negotiated, for which [Validate] does not look
    at the heart-beat header. *)
Theorem validated_connect_errors (f : Frame) (c : Conn) (e : Error) :
  Validate f = None ->
  In (Command f) [CONNECT; STOMP] ->
  snd (handleConnect f c) = Some e ->
  e = receiptInConnect \/ e = authenticationFailed
  \/ (e = invalidHeartBeat /\ fst (AcceptVersion f) = V1_0).
Proof.
  intros Hval Hin He.
  assert (Hvc : validateConnect f = None).
  { unfold Validate in Hval. simpl in Hin.
    destruct Hin as [E | [E | []]]; rewrite <- E in Hval; exact Hval. }
  unfold validateConnect in Hvc.
  destruct (handleConnect_cases f c)
    as [(Hr & E) | [(Hr & Ha & E) | [(Hr & Ha & v & e0 & Hv & E)
       | [(Hr & Ha & v & cx & cy & e0 & Hv & Hh & E)
       | (Hr & Ha & v & cx & cy & Hv & Hh & _ & _ & E)]]]];
    rewrite E in He; cbn [snd] in He; try discriminate He;
    injection He as <-; auto.
  - rewrite Hv in Hvc. discriminate.
  - rewrite Hv in Hvc. right. right.
    assert (Hcmd : negb (String.eqb (Command f) CONNECT)
                   && negb (String.eqb (Command f) STOMP)
                   && negb (String.eqb (Command f) CONNECTED) = false).
    { simpl in Hin. destruct Hin as [<- | [<- | []]]; reflexivity. }
    unfold HeartBeat in Hh. rewrite Hcmd in Hh.
    unfold fContains in Hvc.
    destruct (Contains (headers f) HeartBeatH) as [hb|]; [|discriminate].
    destruct (negb (heartBeatRegexp hb)) eqn:Hm; [|discriminate].
    injection Hh as _ _ <-. split; [reflexivity|].
    rewrite Hv. cbn [fst].
    destruct (String.eqb_spec v V1_0); [assumption|].
    destruct (verifyRequiredHeaders f [Host]); discriminate.
Qed.

(** A frame that passes [Validate] and that [handleConnect] refuses for
    its heart-beat: no accept-version header, so version 1.0. *)
Lemma validated_connect_errors_witness :
  let c := NewConn (mkConfig 0 (fun _ _ => true)) 0%nat ∅ [] in
  let f := NewFrame CONNECT [(HeartBeatH, "soon")] in
  Validate f = None
  /\ snd (handleConnect f c) = Some invalidHeartBeat
  /\ (invalidHeartBeat = receiptInConnect \/ invalidHeartBeat = authenticationFailed
      \/ (invalidHeartBeat = invalidHeartBeat /\ fst (AcceptVersion f) = V1_0)).
Proof.
  intros c f. split; [reflexivity|]. split; [reflexivity|].
  apply (validated_connect_errors f c invalidHeartBeat).
  - reflexivity.
  - simpl. auto.
  - reflexivity.
Defined.

(** ** The reader *)

Lemma readLoop_unfold cfg r reads :
  readLoop cfg r reads =
  SetReadDeadline (readerTimeout r) ::
  match reads with
  | [] => []
  | ReadError :: _ => [ClosedReadChannel]
  | ReadNil :: rest => readLoop cfg r rest
  | ReadFrame f :: rest =>
      Pushed f :: readLoop cfg (readerHeartBeat cfg r f) rest
  end.
Proof. destruct reads as [|[| |f] rest]; reflexivity. Qed.

(** X8.  [readLoop] pushes on the read channel the frames it reads, in
    the order read, heart-beats left out, up to the first read error; it
    closes the read channel exactly when a read fails, and that is the
    last thing it does. *)
Theorem readLoop_forwards (cfg : Config) (r : Reader) (reads : list Read) :
  let evs := readLoop cfg r reads in
  pushedFrames evs = framesBeforeError reads
  /\ (In ClosedReadChannel evs <-> In ReadError reads)
  /\ (In ReadError reads -> last evs = Some ClosedReadChannel).
Proof.
  cbv zeta. revert r.
  induction reads as [|rd rest IH]; intros r; rewrite readLoop_unfold.
  - split; [reflexivity|]. split; [|intros []].
    split; [intros [H | []]; discriminate H | intros []].
  - destruct rd as [| |f].
    + split; [reflexivity|]. split; [|reflexivity].
      split; [intros _; now left | intros _; right; now left].
    + destruct (IH r) as (Hp & Hc & Hl).
      split; [exact Hp|]. split.
      * split.
        -- intros [H | H]; [discriminate H | right; now apply Hc].
        -- intros [H | H]; [discriminate H | right; now apply Hc].
      * intros [H | H]; [discriminate H|].
        specialize (Hl H). rewrite readLoop_unfold in Hl |- *.
        exact Hl.
    + destruct (IH (readerHeartBeat cfg r f)) as (Hp & Hc & Hl).
      split; [cbn; f_equal; exact Hp|]. split.
      * split.
        -- intros [H | [H | H]]; try discriminate H. right. now apply Hc.
        -- intros [H | H]; [discriminate H|]. right. right. now apply Hc.
      * intros [H | H]; [discriminate H|].
        specialize (Hl H). rewrite readLoop_unfold in Hl |- *.
        exact Hl.
Qed.

Lemma deadlines_fixed cfg reads : forall r,
  expectingConnect r = false ->
  deadlines (readLoop cfg r reads) <> []
  /\ Forall (eq (readerTimeout r)) (deadlines (readLoop cfg r reads)).
Proof.
  induction reads as [|rd rest IH]; intros r Hr; rewrite readLoop_unfold.
  - cbn. split; [discriminate | repeat constructor].
  - assert (Hsame : readerHeartBeat cfg r = fun _ => r).
    { unfold readerHeartBeat. now rewrite Hr. }
    destruct (IH r Hr) as [_ Hall].
    destruct rd as [| |f]; cbn; (split; [discriminate|]);
      constructor; try reflexivity; try constructor.
    + exact Hall.
    + rewrite Hsame. exact Hall.
Qed.

(** X9.  The reader and the session agree on the read timeout: for a
    first frame that [handleConnect] accepts, [readLoop] sets no deadline
    for the first read and, for every read after it, the deadline from
    the very read timeout the session has stored. *)
Theorem reader_agrees_with_session (f f' : Frame) (c c' : Conn)
    (rest : list Read) :
  handleConnect f c = (c', f', None) ->
  exists later,
    deadlines (readLoop (config c) (mkReader true 0) (ReadFrame f :: rest))
    = 0 :: later
    /\ later <> []
    /\ Forall (eq (readTimeout c')) later.
Proof.
  intros H.
  destruct (handleConnect_cases f c)
    as [(Hr & E) | [(Hr & Ha & E) | [(Hr & Ha & v & e & Hv & E)
       | [(Hr & Ha & v & cx & cy & e & Hv & Hh & E)
       | (Hr & Ha & v & cx & cy & Hv & Hh & Hrd & Hwr & E)]]]];
    rewrite E in H; try discriminate H.
  injection H as <- <-.
  rewrite readLoop_unfold.
  assert (Hreader : readerHeartBeat (config c) (mkReader true 0) f
                    = mkReader false (clamp cx (serverMin c) * Millisecond)).
  { unfold readerHeartBeat. cbn [expectingConnect]. rewrite Hh. cbv zeta.
    fold (serverMin c).
    destruct (HeartBeat_range f cx cy Hh) as [Hcx _].
    rewrite applyMinimum_clamp by lia.
    rewrite wrap64_small by (unfold Millisecond; lia). reflexivity. }
  rewrite Hreader.
  destruct (deadlines_fixed (config c) rest
              (mkReader false (clamp cx (serverMin c) * Millisecond)) eq_refl)
    as [Hne Hall].
  eexists. split; [reflexivity|]. split; [exact Hne | exact Hall].
Qed.

Lemma reader_agrees_with_session_witness :
  let c := NewConn (mkConfig (800 * Millisecond) (fun _ _ => true)) 0%nat ∅ [] in
  let f := NewFrame CONNECT
             [(AcceptVersionH, "1.0,1.2"); (Host, "/"); (HeartBeatH, "500,1000")] in
  deadlines (readLoop (config c) (mkReader true 0)
               [ReadFrame f; ReadNil; ReadError])
  = [0; 800 * Millisecond; 800 * Millisecond].
Proof.
  intros c f.
  destruct (handleConnect f c) as [[c' f'] err] eqn:E.
  assert (Hf : err = None /\ readTimeout c' = 800 * Millisecond)
    by (vm_compute in E; inversion E; split; reflexivity).
  destruct Hf as [-> Hrt].
  destruct (reader_agrees_with_session f f' c c' [ReadNil; ReadError] E)
    as (later & Hd & _ & _).
  rewrite Hd. vm_compute in Hd. now inversion Hd.
Defined.

(** ** What a connected session keeps *)

Ltac split_matches :=
  repeat (cbn;
          match goal with
          | |- context [match ?x with _ => _ end] => destruct x
          end);
  cbn; try reflexivity.

Lemma writerWrite_negotiated f c :
  negotiated (fst (writerWrite f c)) = negotiated c.
Proof. unfold writerWrite. split_matches. Qed.

Lemma sendReceiptImmediately_negotiated f c :
  negotiated (hConn (sendReceiptImmediately f c)) = negotiated c.
Proof.
  unfold sendReceiptImmediately, sendImmediately.
  destruct (fContains f Receipt) as [v|]; [|reflexivity].
  pose proof (writerWrite_negotiated (Some (NewFrame RECEIPT [(ReceiptId, v)])) c) as H.
  destruct (writerWrite _ c) as [c1 e]. exact H.
Qed.

Lemma sendErrorImmediately_negotiated e f c :
  negotiated (sendErrorImmediately e f c) = negotiated c.
Proof. unfold sendErrorImmediately, sendImmediately. apply writerWrite_negotiated. Qed.

Lemma replayAll_stable k frames : forall c,
  Stable k -> stateFunc c = connectedS ->
  negotiated (fst (replayAll k frames c)) = negotiated c.
Proof.
  induction frames as [|g frames IH]; intros c Hk Hs; cbn [replayAll]; [reflexivity|].
  pose proof (Hk g c Hs) as H1.
  destruct (k g c) as [[c1 g1] [e|]]; cbn [hConn fst] in *; [exact H1|].
  rewrite IH; auto.
  unfold negotiated in H1. injection H1 as -> _ _ _. exact Hs.
Qed.

Lemma connected_stable k : Stable k -> Stable (connected k).
Proof.
  intros Hk f c Hs. unfold connected.
  destruct (_ || _); [reflexivity|].
  destruct (String.eqb _ DISCONNECT).
  { unfold handleDisconnect.
    pose proof (sendReceiptImmediately_negotiated f c) as H.
    destruct (sendReceiptImmediately f c) as [[c1 f1] e]. exact H. }
  destruct (String.eqb _ BEGIN).
  { unfold handleBegin. destruct (fContains f Transaction); [|reflexivity].
    pose proof (sendReceiptImmediately_negotiated f c) as H.
    destruct (sendReceiptImmediately f c) as [[c1 f1] [e|]]; [exact H|].
    unfold txBegin. destruct (txStore c1 !! s); exact H. }
  destruct (String.eqb _ ABORT).
  { unfold handleAbort. destruct (fContains f Transaction); [|reflexivity].
    pose proof (sendReceiptImmediately_negotiated f c) as H.
    destruct (sendReceiptImmediately f c) as [[c1 f1] [e|]]; [exact H|].
    unfold txAbort. destruct (txStore c1 !! s); exact H. }
  destruct (String.eqb _ COMMIT).
  { unfold handleCommit. destruct (fContains f Transaction); [|reflexivity].
    pose proof (sendReceiptImmediately_negotiated f c) as H.
    destruct (sendReceiptImmediately f c) as [[c1 f1] [e|]]; [exact H|].
    unfold txCommit. destruct (txStore c1 !! s) as [l|]; [|exact H].
    assert (Hs1 : stateFunc (setTxStore (delete s (txStore c1)) c1) = connectedS).
    { cbn. unfold negotiated in H. cbn in H. injection H as -> _ _ _. exact Hs. }
    pose proof (replayAll_stable k l _ Hk Hs1) as H2.
    destruct (replayAll k l _) as [c2 e2]. cbn in *. now rewrite H2. }
  destruct (String.eqb _ SEND).
  { unfold handleSend.
    pose proof (sendReceiptImmediately_negotiated f c) as H.
    destruct (sendReceiptImmediately f c) as [[c1 f1] [e|]]; [exact H|].
    destruct (fContains f1 Transaction); [|exact H].
    unfold txAdd. destruct (txStore c1 !! s); exact H. }
  assert (Hreq : negotiated (hConn (sendFrameRequest f c)) = negotiated c).
  { unfold sendFrameRequest.
    pose proof (sendReceiptImmediately_negotiated f c) as H.
    destruct (sendReceiptImmediately f c) as [[c1 f1] [e|]]; exact H. }
  destruct (String.eqb _ SUBSCRIBE); [exact Hreq|].
  destruct (String.eqb _ UNSUBSCRIBE); [exact Hreq|].
  destruct (String.eqb _ ACK); [exact Hreq|].
  destruct (String.eqb _ NACK); [exact Hreq|].
  destruct (_ || _); reflexivity.
Qed.

Lemma callState_stable d : Stable (callState d).
Proof.
  induction d as [|d IH]; intros f c Hs; cbn [callState]; [reflexivity|].
  rewrite Hs. now apply connected_stable.
Qed.

Lemma loopBody_negotiated d c sel :
  stateFunc c = connectedS ->
  negotiated (outConn (loopBody d c sel)) = negotiated c.
Proof.
  intros Hs. destruct sel as [[f|]|[f|]|[p|]|]; cbn [loopBody outConn];
    try reflexivity.
  - unfold allocateMessageId. destruct (String.eqb _ MESSAGE); [reflexivity|].
    pose proof (writerWrite_negotiated (Some f) c) as H.
    destruct (writerWrite (Some f) c) as [c1 [e|]]; [exact H|].
    destruct (String.eqb _ ERROR); exact H.
  - destruct (Validate f); [apply sendErrorImmediately_negotiated|].
    pose proof (callState_stable d f c Hs) as H.
    destruct (callState d f c) as [[c1 f1] [e|]]; cbn in *; [|exact H].
    now rewrite sendErrorImmediately_negotiated.
  - destruct (subscriptions (heap c) !! p) as [sub|]; [|reflexivity].
    destruct (frame sub) as [f|]; [|reflexivity].
    assert (Hal : forall c1 f1, allocateMessageId f (Some sub) c = Ok (c1, f1) ->
                                negotiated c1 = negotiated c).
    { unfold allocateMessageId. intros c1 f1.
      destruct (String.eqb _ MESSAGE); [destruct (isAckAuto _)|];
        intros [= <- _]; reflexivity. }
    destruct (allocateMessageId f (Some sub) c) as [[c1 f1]|msg]; [|reflexivity].
    specialize (Hal c1 f1 eq_refl).
    pose proof (writerWrite_negotiated (Some f1)
                  (setHeap (storeFrame p f1 (heap c1)) c1)) as H.
    assert (H2 : forall c2 w,
              writerWrite (Some f1) (setHeap (storeFrame p f1 (heap c1)) c1) = (c2, w) ->
              negotiated c2 = negotiated c).
    { intros c2 w E. rewrite E in H. cbn [fst] in H.
      transitivity (negotiated c1); [exact H | exact Hal]. }
    destruct (writerWrite (Some f1) _) as [c2 [e|]];
      specialize (H2 c2 _ eq_refl); [exact H2|].
    destruct (isAckAuto (ack sub)); [exact H2|].
    destruct (Add (subListP c2) p (heap c2)); exact H2.
  - destruct (0 <? writeTimeout c); [|reflexivity].
    pose proof (writerWrite_negotiated None c) as H.
    destruct (writerWrite None c) as [c1 [e|]]; exact H.
Qed.

(** X10.  Once a session is connected, no turn of the loop, whatever
    the frames and deliveries, changes its state function, its version or
    its read and write timeouts. *)
Theorem connected_session_keeps_negotiation (d : nat) (c : Conn)
    (turns : list Turn) :
  stateFunc c = connectedS ->
  negotiated (outConn (loop d c turns)) = negotiated c.
Proof.
  revert c. induction turns as [|[sel|write] turns IH]; intros c Hs; cbn [loop].
  - reflexivity.
  - pose proof (loopBody_negotiated d c sel Hs) as H.
    destruct (loopBody d c sel) as [c1|c1|c1 msg]; cbn [outConn] in *; try exact H.
    rewrite IH; [exact H|].
    unfold negotiated in H. injection H as -> _ _ _. exact Hs.
  - rewrite IH; [reflexivity | exact Hs].
Qed.

Lemma connected_session_keeps_negotiation_witness :
  negotiated (outConn (loop 2 sessionS4
     [Selects (ReadChannel (Some (NewFrame CONNECT [(HeartBeatH, "5,5")])));
      Selects (SubChannel (Some 1%nat))]))
  = (connectedS, EmptyString, 0, 0).
Proof.
  rewrite connected_session_keeps_negotiation; reflexivity.
Defined.

(** ** Errors of the read branch *)

Lemma sendErrorImmediately_reply err f c :
  exists w,
    log (sendErrorImmediately err (Some f) c)
    = (log c ++ [Written (Some (errorReply err (fContains f Receipt))) w])%list
    /\ txStore (sendErrorImmediately err (Some f) c) = txStore c.
Proof.
  unfold sendErrorImmediately, sendImmediately, errorReply.
  destruct (fContains f Receipt) as [r|];
    match goal with |- context [writerWrite (Some ?g) c] =>
      destruct (writerWrite_spec (Some g) c) as (w & c1 & E & Hlog & Htx & _)
    end; rewrite E; cbn [fst]; eauto.
Qed.

Lemma errorReply_headers err receipt :
  Command (errorReply err receipt) = ERROR
  /\ fContains (errorReply err receipt) Message = Some (errorText err)
  /\ fContains (errorReply err receipt) ReceiptId = receipt.
Proof. destruct receipt; repeat split. Qed.

(** X11.  A frame that [Validate] refuses is answered by exactly one
    ERROR frame, whose [message] header is the text of the error and
    whose receipt-id is the receipt header of the frame, if it has one;
    then the loop returns.  No request goes to the upper layer and the
    transaction store is not touched. *)
Theorem invalid_frame_answer (d : nat) (c : Conn) (f : Frame) (err : Error) :
  Validate f = Some err ->
  exists c' w reply,
    loopBody d c (ReadChannel (Some f)) = Return c'
    /\ log c' = (log c ++ [Written (Some reply) w])%list
    /\ Command reply = ERROR
    /\ fContains reply Message = Some (errorText err)
    /\ fContains reply ReceiptId = fContains f Receipt
    /\ txStore c' = txStore c.
Proof.
  intros Hv. cbn [loopBody]. rewrite Hv.
  destruct (sendErrorImmediately_reply err f c) as (w & Hlog & Htx).
  destruct (errorReply_headers err (fContains f Receipt)) as (H1 & H2 & H3).
  eexists _, w, _. split; [reflexivity|]. split; [exact Hlog|]. auto.
Qed.

(** Scenario S2: a STOMP frame for version 1.1 without host header. *)
Lemma invalid_frame_answer_witness :
  let c := NewConn (mkConfig 0 (fun _ _ => true)) 0%nat ∅ [] in
  let f := NewFrame STOMP [(AcceptVersionH, "1.1"); (Receipt, "r7")] in
  exists c' w reply,
    loopBody 2 c (ReadChannel (Some f)) = Return c'
    /\ log c' = (log c ++ [Written (Some reply) w])%list
    /\ Command reply = ERROR
    /\ fContains reply Message = Some (errorText (missingHeader Host))
    /\ fContains reply ReceiptId = Some "r7"
    /\ txStore c' = txStore c.
Proof.
  intros c f. apply (invalid_frame_answer 2 c f (missingHeader Host)). reflexivity.
Defined.

(** Each of the eight handlers serves its frame, with or without
    receipt header. *)
Lemma callState_served d c f :
  stateFunc c = connectedS -> storeClean (txStore c) ->
  Validate f = None -> In (Command f) receiptCommands ->
  Served f c (callState (S (S d)) f c).
Proof.
  intros Hs Hc Hval Hcmd.
  cbn [callState]. rewrite Hs. fold (callState (S d)).
  simpl in Hcmd.
  destruct Hcmd as [E | [E | [E | [E | [E | [E | [E | [E | []]]]]]]]].
  - rewrite (connected_handler _ SEND handleSend) by (simpl; auto 10).
    apply handleSend_served.
  - rewrite (connected_handler _ SUBSCRIBE handleSubscribe) by (simpl; auto 10).
    apply sendFrameRequest_served.
  - rewrite (connected_handler _ UNSUBSCRIBE handleUnsubscribe) by (simpl; auto 10).
    apply sendFrameRequest_served.
  - rewrite (connected_handler _ ACK handleAck) by (simpl; auto 10).
    apply sendFrameRequest_served.
  - rewrite (connected_handler _ NACK handleNack) by (simpl; auto 10).
    apply sendFrameRequest_served.
  - rewrite (connected_handler _ BEGIN handleBegin) by (simpl; auto 10).
    apply handleBegin_served, Validate_transaction; [exact Hval|].
    rewrite <- E. simpl. auto.
  - rewrite (connected_handler _ COMMIT (handleCommit (callState (S d))))
      by (simpl; auto 10).
    apply handleCommit_served; auto.
    apply Validate_transaction; [exact Hval|]. rewrite <- E. simpl. auto.
  - rewrite (connected_handler _ ABORT handleAbort) by (simpl; auto 10).
    apply handleAbort_served, Validate_transaction; [exact Hval|].
    rewrite <- E. simpl. auto.
Qed.

(** X12.  In the connected state, when the handler of a SEND, SUBSCRIBE,
    UNSUBSCRIBE, ACK, NACK, BEGIN, COMMIT or ABORT frame fails, the ERROR
    frame that answers it never has a receipt-id: the handler took the
    receipt header off the frame before it failed.  A frame that asked
    for a receipt is so answered by the RECEIPT first and by an ERROR
    without receipt-id last. *)
Theorem handler_error_without_receipt_id (d : nat) (c : Conn) (f : Frame)
    (e : Error) :
  stateFunc c = connectedS ->
  storeClean (txStore c) ->
  Validate f = None ->
  In (Command f) receiptCommands ->
  snd (callState (S (S d)) f c) = Some e ->
  exists c' pre w1 rest w2,
    loopBody (S (S d)) c (ReadChannel (Some f)) = Return c'
    /\ log c' = (log c ++ pre ++ rest
                 ++ [Written (Some (errorReply e None)) w2])%list
    /\ receiptPrefix f pre w1
    /\ Forall receiptFree rest
    /\ fContains (errorReply e None) ReceiptId = None.
Proof.
  intros Hs Hc Hval Hcmd He.
  pose proof (callState_served d c f Hs Hc Hval Hcmd) as Hserved.
  cbn [loopBody]. rewrite Hval.
  destruct (callState (S (S d)) f c) as [[c1 f1] err].
  cbn [snd] in He. subst err.
  destruct Hserved as (pre & w1 & rest & Hlog & Hpre & _ & Hrest & _ & Hf & _).
  destruct (sendErrorImmediately_reply e f1 c1) as (w2 & Hlog2 & _).
  rewrite Hf in Hlog2.
  exists (sendErrorImmediately e (Some f1) c1), pre, w1, rest, w2.
  split; [reflexivity|]. split.
  { rewrite Hlog2, Hlog, <- !app_assoc. reflexivity. }
  auto.
Qed.

(** BEGIN of a transaction that is open already, with a receipt. *)
Lemma handler_error_without_receipt_id_witness :
  let c := setTxStore {[ "t1" := [] ]}
             (setStateFunc connectedS
                (NewConn (mkConfig 0 (fun _ _ => true)) 0%nat ∅ [])) in
  let f := NewFrame BEGIN [(Transaction, "t1"); (Receipt, "r1")] in
  exists c',
    loopBody 2 c (ReadChannel (Some f)) = Return c'
    /\ log c' = [Written (Some (NewFrame RECEIPT [(ReceiptId, "r1")])) None;
                 Written (Some (errorReply txAlreadyInProgress None)) None].
Proof.
  intros c f.
  destruct (handler_error_without_receipt_id 0 c f txAlreadyInProgress)
    as (c' & pre & w1 & rest & w2 & Hrun & _).
  - reflexivity.
  - apply map_Forall_singleton. constructor.
  - reflexivity.
  - simpl. auto 10.
  - reflexivity.
  - exists c'. split; [exact Hrun|].
    vm_compute in Hrun. inversion Hrun. reflexivity.
Defined.

(** ** Frames from the write channel, once more *)

Lemma write_channel_other d c f :
  Command f <> MESSAGE ->
  exists c' w,
    writerWrite (Some f) c = (c', w)
    /\ log c' = (log c ++ [Written (Some f) w])%list
    /\ lastMsgId c' = lastMsgId c
    /\ loopBody d c (WriteChannel (Some f))
       = match w with
         | Some _ => Return c'
         | None => if String.eqb (Command f) ERROR then Return c' else Continue c'
         end.
Proof.
  intros Hm. cbn [loopBody]. rewrite allocateMessageId_other by exact Hm.
  destruct (writerWrite_spec (Some f) c) as (w & c' & E & Hlog & _ & _ & (Hl & _) & _).
  exists c', w. rewrite E. repeat split; auto.
Qed.

(** X13.  A frame from the write channel that is no MESSAGE is written
    as it is, and the message-id counter does not move.  The loop goes on
    exactly when the write succeeded and the frame is no ERROR frame;
    else it returns. *)
Theorem write_channel_frame (d : nat) (c : Conn) (f : Frame) :
  Command f <> MESSAGE ->
  let o := loopBody d c (WriteChannel (Some f)) in
  exists w,
    log (outConn o) = (log c ++ [Written (Some f) w])%list
    /\ lastMsgId (outConn o) = lastMsgId c
    /\ (o = Continue (outConn o) <-> w = None /\ Command f <> ERROR)
    /\ (o = Return (outConn o) <-> w <> None \/ Command f = ERROR).
Proof.
  intros Hm o. subst o.
  destruct (write_channel_other d c f Hm) as (c' & w & _ & Hlog & Hl & ->).
  exists w.
  destruct w as [e|]; [|destruct (String.eqb_spec (Command f) ERROR)];
    cbn [outConn]; (split; [exact Hlog|]); (split; [exact Hl|]); split; split;
    try discriminate; try tauto; try (intros [? ?]; congruence);
    try (intros _; auto; fail); intros [?|?]; congruence.
Qed.

Lemma write_channel_frame_witness :
  let c := NewConn (mkConfig 0 (fun _ _ => true)) 0%nat ∅ [] in
  let f := connectedReply V1_2 0 0 in
  exists w,
    log (outConn (loopBody 1 c (WriteChannel (Some f)))) = [Written (Some f) w]
    /\ w = None.
Proof.
  intros c f.
  destruct (write_channel_frame 1 c f) as (w & Hlog & _ & Hc & _);
    [discriminate|].
  exists w. split; [exact Hlog|]. apply Hc. reflexivity.
Defined.

(** X14.  [SendError] ends the session: the frame it puts on the write
    channel is an ERROR frame with the text of the error as [message]
    header, and the turn of the loop that takes it from the channel writes
    it and returns, whether the write succeeds or not. *)
Theorem SendError_ends_session (d : nat) (err : Error) (c c1 : Conn) :
  exists E,
    log (SendError err c) = (log c ++ [Queued E])%list
    /\ Command E = ERROR
    /\ fContains E Message = Some (errorText err)
    /\ exists c' w,
         loopBody d c1 (WriteChannel (Some E)) = Return c'
         /\ log c' = (log c1 ++ [Written (Some E) w])%list.
Proof.
  eexists. split; [reflexivity|]. split; [reflexivity|]. split; [reflexivity|].
  match goal with |- context [WriteChannel (Some ?E)] =>
    destruct (write_channel_other d c1 E) as (c' & w & _ & Hlog & _ & Hrun);
      [discriminate|]
  end.
  exists c', w. split; [|exact Hlog]. rewrite Hrun.
  destruct w; reflexivity.
Qed.

(** ** SEND *)

Lemma Remove_absent h k : Contains h k = None -> message.Remove h k = h.
Proof.
  induction h as [|[k0 v0] h IH]; cbn [Contains message.Remove List.filter fst];
    [reflexivity|].
  destruct (String.eqb k0 k); [discriminate|]. cbn [negb].
  intros H. f_equal. now apply IH.
Qed.

Lemma fRemove_absent f k : fContains f k = None -> fRemove f k = f.
Proof.
  unfold fContains, fRemove, withHeaders. intros H.
  rewrite (Remove_absent _ _ H). now destruct f.
Qed.

(** X15.  A SEND frame reaches the upper layer at once exactly when it
    has no transaction header.  With a transaction header [handleSend]
    sends no request at all; without one, and the receipt (if asked for)
    written, its last act is the request to route the frame, the frame
    being the one received less its receipt header. *)
Theorem handleSend_routing (f : Frame) (c : Conn) :
  let '(c', f', err) := handleSend f c in
  exists evs,
    log c' = (log c ++ evs)%list
    /\ (fContains f Transaction <> None -> Forall (fun e => ~ isRequest e) evs)
    /\ (fContains f Transaction = None -> err = None ->
        exists pre,
          evs = (pre ++ [Requested (EnqueueOp (fRemove f Receipt))])%list
          /\ Forall (fun e => ~ isRequest e) pre).
Proof.
  unfold handleSend.
  destruct (sendReceiptImmediately_cases f c)
    as [[Hn ->] | (v & w & c1 & Hv & -> & Hlog & Htx & Hst & Hun & Hw)].
  - destruct (fContains f Transaction) as [tx|] eqn:Ht.
    + unfold txAdd. destruct (txStore c !! tx).
      * eexists. split; [reflexivity|]. split; [|congruence].
        intros _. repeat constructor. intros [].
      * exists []. rewrite app_nil_r. split; [reflexivity|].
        split; [constructor | congruence].
    + eexists. split; [reflexivity|]. split; [congruence|].
      intros _ _. exists []. rewrite (fRemove_absent f Receipt Hn).
      split; [reflexivity | constructor].
  - assert (Ht : fContains (fRemove f Receipt) Transaction = fContains f Transaction).
    { unfold fContains, fRemove. cbn [headers withHeaders].
      apply Contains_Remove_other. discriminate. }
    destruct w as [e|].
    + eexists. split; [exact Hlog|]. split; [|discriminate].
      intros _. repeat constructor. intros [].
    + rewrite Ht. destruct (fContains f Transaction) as [tx|].
      * unfold txAdd. destruct (txStore c1 !! tx).
        -- eexists. split; [cbn; rewrite Hlog, <- app_assoc; reflexivity|].
           split; [|congruence]. intros _. repeat constructor; intros [].
        -- eexists. split; [exact Hlog|]. split; [|congruence].
           intros _. repeat constructor. intros [].
      * eexists. split; [cbn; rewrite Hlog, <- app_assoc; reflexivity|].
        split; [congruence|]. intros _ _.
        eexists. split; [reflexivity|]. repeat constructor. intros [].
Qed.

(** * Further properties of the pending-ack list *)

Lemma NoDup_snoc (l : list loc) p : List.NoDup l -> ~ In p l -> List.NoDup (l ++ [p]).
Proof.
  induction 1 as [|x l Hx Hl IH]; intros Hp; cbn [app].
  - constructor; [intros [] | constructor].
  - constructor.
    + rewrite in_app_iff. intros [H | [H | []]]; [contradiction|].
      apply Hp. now left.
    + apply IH. intros H. apply Hp. now right.
Qed.

Lemma removeFirst_Some p l l' :
  removeFirst p l = Some l' ->
  exists l1 l2, l = (l1 ++ p :: l2)%list /\ l' = (l1 ++ l2)%list /\ ~ In p l1.
Proof.
  revert l'. induction l as [|e l IH]; intros l'; cbn [removeFirst]; [discriminate|].
  destruct (Nat.eqb_spec e p) as [->|Hne].
  - intros [= <-]. exists [], l. auto.
  - destruct (removeFirst p l) as [r|]; [|discriminate].
    intros [= <-]. destruct (IH r eq_refl) as (l1 & l2 & -> & -> & Hn).
    exists (e :: l1), l2. repeat split; auto.
    intros [H | H]; [contradiction | exact (Hn H)].
Qed.

Lemma removeFirst_None p l : removeFirst p l = None <-> ~ In p l.
Proof.
  induction l as [|e l IH]; cbn [removeFirst].
  - split; [intros _ [] | reflexivity].
  - destruct (Nat.eqb_spec e p) as [->|Hne].
    + split; [discriminate | intros H; exfalso; apply H; now left].
    + destruct (removeFirst p l) as [r|].
      * split; [discriminate|]. intros H. exfalso.
        destruct IH as [_ IH]. assert (Hn : ~ In p l) by (intros Hi; apply H; now right).
        specialize (IH Hn). discriminate.
      * split; [|reflexivity]. intros _ [H | H]; [contradiction|].
        now apply (proj1 IH).
Qed.

(** Taking a member out of its list and clearing its back-pointer keeps
    lists and back-pointers in agreement. *)
Lemma unlink_linked h sl p s l l' :
  linked h ->
  lists h !! sl = Some l -> In p l -> subscriptions h !! p = Some s ->
  List.NoDup l' -> (forall q, In q l' <-> In q l /\ q <> p) ->
  linked {| subscriptions := <[p := withSubList s None]> (subscriptions h);
            lists := <[sl := l']> (lists h) |}.
Proof.
  intros (Hnd & Hmem & Hback) Hl Hp Hs Hnd' Hl'.
  assert (Hown : forall sl0 l0, lists h !! sl0 = Some l0 -> In p l0 -> sl0 = sl).
  { intros sl0 l0 Hl0 Hin. destruct (Hmem sl0 l0 p Hl0 Hin) as (s0 & Hs0 & Hb0).
    destruct (Hmem sl l p Hl Hp) as (s1 & Hs1 & Hb1). congruence. }
  split; [|split]; cbn [subscriptions lists].
  - intros sl0 l0. destruct (decide (sl = sl0)) as [<-|Hne].
    + rewrite lookup_insert_eq. intros [= <-]. exact Hnd'.
    + rewrite lookup_insert_ne by exact Hne. apply Hnd.
  - intros sl0 l0 q. destruct (decide (sl = sl0)) as [<-|Hne].
    + rewrite lookup_insert_eq. intros [= <-] Hq.
      apply Hl' in Hq as [Hq Hqp].
      rewrite lookup_insert_ne by congruence. now apply (Hmem sl l).
    + rewrite lookup_insert_ne by exact Hne. intros Hl0 Hq.
      assert (q <> p) by (intros ->; apply Hne; symmetry; eauto).
      rewrite lookup_insert_ne by congruence. now apply (Hmem sl0 l0).
  - intros q s0 sl0. destruct (decide (p = q)) as [<-|Hne].
    + rewrite lookup_insert_eq. intros [= <-]. discriminate.
    + rewrite lookup_insert_ne by exact Hne. intros Hs0 Hb0.
      destruct (Hback q s0 sl0 Hs0 Hb0) as (l0 & Hl0 & Hq).
      destruct (decide (sl = sl0)) as [<-|Hsl].
      * rewrite lookup_insert_eq. exists l'. split; [reflexivity|].
        apply Hl'. split; [congruence | congruence].
      * rewrite lookup_insert_ne by exact Hsl. eauto.
Qed.

Lemma Add_linked sl p h h' : linked h -> Add sl p h = Ok h' -> linked h'.
Proof.
  intros (Hnd & Hmem & Hback). unfold Add.
  destruct (subscriptions h !! p) as [s|] eqn:Hs; [|discriminate].
  destruct (subList s) eqn:Hb; [discriminate|].
  destruct (lists h !! sl) as [l|] eqn:Hl; [|discriminate].
  intros [= <-].
  assert (Hfree : forall sl0 l0, lists h !! sl0 = Some l0 -> ~ In p l0).
  { intros sl0 l0 Hl0 Hin. destruct (Hmem sl0 l0 p Hl0 Hin) as (s0 & Hs0 & Hb0).
    congruence. }
  split; [|split]; cbn [subscriptions lists].
  - intros sl0 l0. destruct (decide (sl = sl0)) as [<-|Hne].
    + rewrite lookup_insert_eq. intros [= <-].
      apply NoDup_snoc; eauto.
    + rewrite lookup_insert_ne by exact Hne. apply Hnd.
  - intros sl0 l0 q. destruct (decide (sl = sl0)) as [<-|Hne].
    + rewrite lookup_insert_eq. intros [= <-] Hq.
      apply in_app_iff in Hq as [Hq | [<- | []]].
      * assert (q <> p) by (intros ->; exact (Hfree sl l Hl Hq)).
        rewrite lookup_insert_ne by congruence. now apply (Hmem sl l).
      * rewrite lookup_insert_eq. eauto.
    + rewrite lookup_insert_ne by exact Hne. intros Hl0 Hq.
      assert (q <> p) by (intros ->; exact (Hfree sl0 l0 Hl0 Hq)).
      rewrite lookup_insert_ne by congruence. now apply (Hmem sl0 l0).
  - intros q s0 sl0. destruct (decide (p = q)) as [<-|Hne].
    + rewrite lookup_insert_eq. intros [= <-] [= <-].
      rewrite lookup_insert_eq. exists (l ++ [p])%list. split; [reflexivity|].
      apply in_app_iff. right. now left.
    + rewrite lookup_insert_ne by exact Hne. intros Hs0 Hb0.
      destruct (Hback q s0 sl0 Hs0 Hb0) as (l0 & Hl0 & Hq).
      destruct (decide (sl = sl0)) as [<-|Hsl].
      * rewrite lookup_insert_eq. exists (l ++ [p])%list. split; [reflexivity|].
        apply in_app_iff. left. congruence.
      * rewrite lookup_insert_ne by exact Hsl. eauto.
Qed.

Lemma Get_linked sl r h h' : linked h -> Get sl h = Ok (r, h') -> linked h'.
Proof.
  intros Hlinked. pose proof Hlinked as (Hnd & _). unfold Get.
  destruct (lists h !! sl) as [[|front l']|] eqn:Hl; [| |discriminate].
  - now intros [= <- <-].
  - destruct (subscriptions h !! front) as [s|] eqn:Hs; [|discriminate].
    intros [= <- <-].
    pose proof (Hnd sl _ Hl) as Hnd0. apply NoDup_cons_iff in Hnd0 as [Hnot Hnd0].
    apply (unlink_linked h sl front s (front :: l') l'); auto.
    + now left.
    + intros q. split.
      * intros Hq. split; [now right | intros ->; contradiction].
      * intros [[-> | Hq] Hne]; [contradiction | exact Hq].
Qed.

Lemma Remove_linked sl p h h' : linked h -> Remove sl p h = Ok h' -> linked h'.
Proof.
  intros Hlinked. pose proof Hlinked as (Hnd & _). unfold Remove.
  destruct (lists h !! sl) as [l|] eqn:Hl; [|discriminate].
  destruct (removeFirst p l) as [l'|] eqn:Hrm; [|now intros [= <-]].
  destruct (subscriptions h !! p) as [s|] eqn:Hs; [|discriminate].
  intros [= <-].
  destruct (removeFirst_Some _ _ _ Hrm) as (l1 & l2 & -> & -> & Hn1).
  pose proof (Hnd sl _ Hl) as Hnd0.
  apply (unlink_linked h sl p s (l1 ++ p :: l2) (l1 ++ l2)); auto.
  - apply in_app_iff. right. now left.
  - exact (NoDup_remove_1 _ _ _ Hnd0).
  - pose proof (NoDup_remove_2 _ _ _ Hnd0) as Hp.
    intros q. rewrite !in_app_iff. cbn [In]. split.
    + intros Hq. split; [tauto|]. intros ->. apply Hp, in_app_iff. exact Hq.
    + intros [[Hq | [Hq | Hq]] Hne]; auto. congruence.
Qed.

(** X16.  [Add], [Get] and [Remove] keep the pending-ack lists and the
    back-pointers of the subscriptions in agreement; while they agree, no
    subscription is in two lists, nor twice in one. *)
Theorem list_operations_keep_links (h : Heap) :
  linked h ->
  (forall sl p h', Add sl p h = Ok h' -> linked h')
  /\ (forall sl r h', Get sl h = Ok (r, h') -> linked h')
  /\ (forall sl p h', Remove sl p h = Ok h' -> linked h')
  /\ (forall p sl1 sl2 l1 l2,
        lists h !! sl1 = Some l1 -> lists h !! sl2 = Some l2 ->
        In p l1 -> In p l2 -> sl1 = sl2)
  /\ (forall sl l, lists h !! sl = Some l -> List.NoDup l).
Proof.
  intros Hlinked. pose proof Hlinked as (Hnd & Hmem & Hback).
  split; [intros sl p h'; now apply Add_linked|].
  split; [intros sl r h'; now apply Get_linked|].
  split; [intros sl p h'; now apply Remove_linked|].
  split; [|exact Hnd].
  intros p sl1 sl2 l1 l2 H1 H2 Hp1 Hp2.
  destruct (Hmem sl1 l1 p H1 Hp1) as (s1 & Hs1 & Hb1).
  destruct (Hmem sl2 l2 p H2 Hp2) as (s2 & Hs2 & Hb2). congruence.
Qed.

Lemma heapOne_linked : linked heapOne.
Proof.
  unfold heapOne. split; [|split]; cbn [subscriptions lists].
  - intros sl l [<- <-]%lookup_singleton_Some. constructor.
  - intros sl l p [<- <-]%lookup_singleton_Some [].
  - intros p s sl [<- <-]%lookup_singleton_Some. discriminate.
Qed.

Lemma list_operations_keep_links_witness :
  exists h', Add 0%nat 1%nat heapOne = Ok h' /\ linked h'.
Proof.
  destruct (list_operations_keep_links heapOne heapOne_linked) as (HAdd & _).
  eexists. split; [reflexivity|]. apply (HAdd 0%nat 1%nat). reflexivity.
Defined.

(** X17.  The list is first in, first out, and taking out what was just
    put into an empty list undoes the [Add]: after [Add] of a
    subscription, [Get] on a list that was empty returns that
    subscription and leaves the heap exactly as it was before the [Add];
    on a list that was not empty it returns the old front, and the added
    subscription is at the back of what remains. *)
Theorem Add_then_Get (sl p : loc) (h h1 : Heap) (l : list loc) :
  lists h !! sl = Some l ->
  Add sl p h = Ok h1 ->
  match l with
  | [] => Get sl h1 = Ok (Some p, h)
  | q :: l' =>
      is_Some (subscriptions h !! q) ->
      exists h2, Get sl h1 = Ok (Some q, h2)
                 /\ lists h2 !! sl = Some (l' ++ [p])%list
  end.
Proof.
  intros Hl. unfold Add.
  destruct (subscriptions h !! p) as [s|] eqn:Hs; [|discriminate].
  destruct (subList s) eqn:Hb; [discriminate|].
  rewrite Hl. intros [= <-].
  destruct l as [|q l'].
  - unfold Get. cbn [lists subscriptions app]. rewrite !lookup_insert_eq.
    f_equal. f_equal. destruct h as [m ls]. cbn [lists subscriptions] in *.
    f_equal.
    + rewrite insert_insert_eq.
      assert (Hsame : withSubList (withSubList s (Some sl)) None = s).
      { destruct s. cbn in *. now rewrite Hb. }
      rewrite Hsame. now apply insert_id.
    + rewrite insert_insert_eq. now apply insert_id.
  - intros [sq Hq]. unfold Get. cbn [lists subscriptions app].
    rewrite lookup_insert_eq.
    destruct (decide (p = q)) as [<-|Hne].
    + rewrite lookup_insert_eq. eexists. split; [reflexivity|].
      cbn [lists]. now rewrite lookup_insert_eq.
    + rewrite lookup_insert_ne, Hq by exact Hne. eexists. split; [reflexivity|].
      cbn [lists]. now rewrite lookup_insert_eq.
Qed.

Lemma Add_then_Get_witness :
  exists h1, Add 0%nat 1%nat heapOne = Ok h1
             /\ Get 0%nat h1 = Ok (Some 1%nat, heapOne).
Proof.
  eexists. split; [reflexivity|].
  apply (Add_then_Get 0%nat 1%nat heapOne _ []); reflexivity.
Defined.

Lemma findById_first m ident l :
  match findById m ident l with
  | Panic _ => True
  | Ok (None, l') =>
      l' = l /\ forall q s, In q l -> m !! q = Some s -> id s <> ident
  | Ok (Some p, l') =>
      exists l1 l2 s,
        l = (l1 ++ p :: l2)%list /\ l' = (l1 ++ l2)%list
        /\ m !! p = Some s /\ id s = ident
        /\ forall q s', In q l1 -> m !! q = Some s' -> id s' <> ident
  end.
Proof.
  induction l as [|e l IH]; cbn [findById].
  - split; [reflexivity | intros q s []].
  - destruct (m !! e) as [sub|] eqn:He; [|exact I].
    destruct (String.eqb_spec (id sub) ident) as [Hid|Hid].
    + exists [], l, sub. repeat split; auto; intros q s' [].
    + destruct (findById m ident l) as [[[p|] l']|msg]; [| |exact I].
      * destruct IH as (l1 & l2 & s & -> & -> & Hp & Hi & Hb).
        exists (e :: l1), l2, s. repeat split; auto.
        intros q s' [<- | Hq] Hs'; [congruence | eauto].
      * destruct IH as [-> Hb]. split; [reflexivity|].
        intros q s [<- | Hq] Hs; [congruence | eauto].
Qed.

(** X18.  [FindByIdAndRemove] takes out the first subscription of the
    list whose id is the one asked for, and only that one: the
    subscriptions in front of it have other ids, and the list keeps all
    the others in their order.  When no subscription of the list has the
    id, it returns nil and changes nothing. *)
Theorem FindByIdAndRemove_first (sl : loc) (ident : string) (h h' : Heap)
    (l : list loc) (r : option loc) :
  lists h !! sl = Some l ->
  FindByIdAndRemove sl ident h = Ok (r, h') ->
  match r with
  | Some p =>
      exists l1 l2 s,
        l = (l1 ++ p :: l2)%list
        /\ lists h' !! sl = Some (l1 ++ l2)%list
        /\ subscriptions h !! p = Some s /\ id s = ident
        /\ forall q s', In q l1 -> subscriptions h !! q = Some s' -> id s' <> ident
  | None =>
      h' = h
      /\ forall q s, In q l -> subscriptions h !! q = Some s -> id s <> ident
  end.
Proof.
  intros Hl. unfold FindByIdAndRemove. rewrite Hl.
  pose proof (findById_first (subscriptions h) ident l) as Hfirst.
  destruct (findById (subscriptions h) ident l) as [[[p|] l']|msg]; [| |discriminate].
  - intros [= <- <-]. destruct Hfirst as (l1 & l2 & s & -> & -> & Hp & Hi & Hb).
    exists l1, l2, s. cbn [lists]. rewrite lookup_insert_eq. auto.
  - intros [= <- <-]. destruct Hfirst as [_ Hb]. auto.
Qed.

(** Two subscriptions with the same id in one list. *)
Lemma FindByIdAndRemove_first_witness :
  let h := mkHeap {[ 1%nat := mkSub "a" "/q" AckClient None (Some 0%nat);
                     2%nat := mkSub "b" "/q" AckClient None (Some 0%nat);
                     3%nat := mkSub "b" "/q" AckClient None (Some 0%nat) ]}
                  {[ 0%nat := [1%nat; 2%nat; 3%nat] ]} in
  exists h', FindByIdAndRemove 0%nat "b" h = Ok (Some 2%nat, h')
    /\ exists l1 l2 s,
         [1%nat; 2%nat; 3%nat] = (l1 ++ 2%nat :: l2)%list
         /\ lists h' !! 0%nat = Some (l1 ++ l2)%list
         /\ subscriptions h !! 2%nat = Some s /\ id s = "b"
         /\ forall q s', In q l1 -> subscriptions h !! q = Some s' -> id s' <> "b".
Proof.
  intros h. eexists. split; [reflexivity|].
  apply (FindByIdAndRemove_first 0%nat "b" h _ [1%nat; 2%nat; 3%nat]
           (Some 2%nat) eq_refl eq_refl).
Defined.

(** X19.  [Remove] of a subscription that is not in the list changes
    nothing and reads nothing through the pointer; [Remove] of a member
    takes its first occurrence out of the list, clears its back-pointer
    and leaves every other subscription as it was. *)
Theorem Remove_spec (sl p : loc) (h : Heap) (l : list loc) :
  lists h !! sl = Some l ->
  (~ In p l -> Remove sl p h = Ok h)
  /\ (In p l -> forall s, subscriptions h !! p = Some s ->
      exists l1 l2 h',
        l = (l1 ++ p :: l2)%list /\ ~ In p l1
        /\ Remove sl p h = Ok h'
        /\ lists h' !! sl = Some (l1 ++ l2)%list
        /\ subscriptions h' !! p = Some (withSubList s None)
        /\ forall q, q <> p -> subscriptions h' !! q = subscriptions h !! q).
Proof.
  intros Hl. unfold Remove. rewrite Hl. split.
  - intros Hn. apply removeFirst_None in Hn. now rewrite Hn.
  - intros Hin s Hs.
    destruct (removeFirst p l) as [l'|] eqn:Hrm.
    + destruct (removeFirst_Some _ _ _ Hrm) as (l1 & l2 & -> & -> & Hn1).
      rewrite Hs. exists l1, l2. eexists. split; [reflexivity|]. split; [exact Hn1|].
      split; [reflexivity|]. cbn [lists subscriptions].
      rewrite !lookup_insert_eq. repeat split.
      intros q Hq. now rewrite lookup_insert_ne by congruence.
    + apply removeFirst_None in Hrm. contradiction.
Qed.

Lemma Remove_spec_witness :
  Remove 0%nat 7%nat heapOne = Ok heapOne.
Proof.
  destruct (Remove_spec 0%nat 7%nat heapOne [] eq_refl) as [H _].
  apply H. intros [].
Defined.

(** * Further properties of the session: before the CONNECT *)

Lemma silently_refl c : silently c c.
Proof.
  repeat split. exists []. now rewrite app_nil_r.
Qed.

Lemma silently_trans c1 c2 c3 : silently c1 c2 -> silently c2 c3 -> silently c1 c3.
Proof.
  intros (Hc & Ht & Hs & e1 & Hl1 & H1) (Hc' & Ht' & Hs' & e2 & Hl2 & H2).
  repeat split; try congruence.
  exists (e1 ++ e2)%list. rewrite Hl2, Hl1, <- app_assoc.
  split; [reflexivity | now apply Forall_app].
Qed.

Lemma silently_emit e c : ~ passesOn e -> silently c (emit e c).
Proof. intros He. repeat split. exists [e]. split; [reflexivity | auto]. Qed.

Lemma writerWrite_silently f c : silently c (fst (writerWrite f c)).
Proof.
  destruct (writerWrite_spec f c) as (w & c1 & -> & Hlog & Htx & Hst & (_ & _ & _ & Hcfg) & _).
  cbn [fst]. repeat split; auto. exists [Written f w]. split; [exact Hlog|].
  constructor; [intros [] | constructor].
Qed.

Lemma sendErrorImmediately_silently err f c :
  silently c (sendErrorImmediately err f c).
Proof. unfold sendErrorImmediately, sendImmediately. apply writerWrite_silently. Qed.

Lemma allocateMessageId_silently f sub c c1 f1 :
  allocateMessageId f sub c = Ok (c1, f1) -> silently c c1.
Proof.
  unfold allocateMessageId. destruct (String.eqb _ MESSAGE).
  - destruct sub as [s|]; [|discriminate].
    destruct (isAckAuto _); intros [= <- _]; repeat split;
      exists []; now rewrite app_nil_r.
  - intros [= <- _]. apply silently_refl.
Qed.

Lemma silently_setHeap h c : silently c (setHeap h c).
Proof. repeat split. exists []. now rewrite app_nil_r. Qed.

(** A turn of the loop in the connecting state lets nothing through;
    it leaves the state only for a CONNECT or STOMP frame with accepted
    credentials, and all it does then is queue the CONNECTED frame. *)
Lemma loopBody_connecting d c sel :
  stateFunc c = connectingS ->
  let c1 := outConn (loopBody d c sel) in
  silently c c1
  \/ (exists f reply,
        sel = ReadChannel (Some f)
        /\ In (Command f) [CONNECT; STOMP]
        /\ authenticated c f = true
        /\ Command reply = CONNECTED
        /\ log c1 = (log c ++ [Queued reply])%list
        /\ txStore c1 = txStore c).
Proof.
  intros Hs. destruct sel as [[f|]|[f|]|[p|]|]; cbn [loopBody];
    try (left; apply silently_refl).
  - left. destruct (allocateMessageId f None c) as [[c1 f1]|msg] eqn:E;
      [|apply silently_refl].
    pose proof (allocateMessageId_silently _ _ _ _ _ E) as H1.
    pose proof (writerWrite_silently (Some f1) c1) as H2.
    destruct (writerWrite (Some f1) c1) as [c2 [w|]]; cbn [fst] in H2;
      [|destruct (String.eqb _ ERROR)]; cbn [outConn];
      exact (silently_trans _ _ _ H1 H2).
  - destruct (Validate f) as [err|];
      [left; apply sendErrorImmediately_silently|].
    destruct d as [|d]; cbn [callState];
      [left; apply sendErrorImmediately_silently|].
    rewrite Hs. unfold connecting.
    destruct (String.eqb (Command f) CONNECT || String.eqb (Command f) STOMP) eqn:Ec;
      [|left; apply sendErrorImmediately_silently].
    assert (Hcmd : In (Command f) [CONNECT; STOMP]).
    { apply orb_true_iff in Ec as [E%String.eqb_eq | E%String.eqb_eq];
        rewrite E; simpl; auto. }
    destruct (handleConnect_cases f c)
      as [[_ ->] | [(_ & _ & ->) | [(_ & _ & v & e & _ & ->)
          | [(_ & _ & v & cx & cy & e & _ & _ & ->)
          | (_ & Hauth & v & cx & cy & _ & _ & _ & _ & ->)]]]];
      cbn [outConn].
    + left. apply sendErrorImmediately_silently.
    + left. apply sendErrorImmediately_silently.
    + left. apply (silently_trans _ (setVersion v c));
        [|apply sendErrorImmediately_silently].
      repeat split. exists []. now rewrite app_nil_r.
    + left. apply (silently_trans _ (setVersion v c));
        [|apply sendErrorImmediately_silently].
      repeat split. exists []. now rewrite app_nil_r.
    + right. exists f. eexists. repeat split; try eassumption; reflexivity.
  - left. destruct (subscriptions (heap c) !! p) as [sub|]; [|apply silently_refl].
    destruct (frame sub) as [f|]; [|apply silently_refl].
    destruct (allocateMessageId f (Some sub) c) as [[c1 f1]|msg] eqn:E;
      [|apply silently_refl].
    pose proof (allocateMessageId_silently _ _ _ _ _ E) as H1.
    pose proof (silently_setHeap (storeFrame p f1 (heap c1)) c1) as H2.
    pose proof (writerWrite_silently (Some f1)
                  (setHeap (storeFrame p f1 (heap c1)) c1)) as H3.
    pose proof (silently_trans _ _ _ H1 (silently_trans _ _ _ H2 H3)) as H4.
    destruct (writerWrite (Some f1) (setHeap (storeFrame p f1 (heap c1)) c1))
      as [c2 [w|]]; cbn [fst] in H4; [exact H4|].
    destruct (isAckAuto (ack sub)).
    + cbn [outConn]. apply (silently_trans _ _ _ H4).
      apply silently_emit. intros [].
    + destruct (Add (subListP c2) p (heap c2)); cbn [outConn]; [|exact H4].
      apply (silently_trans _ _ _ H4), silently_setHeap.
  - left. destruct (0 <? writeTimeout c); [|apply silently_refl].
    pose proof (writerWrite_silently None c) as H.
    destruct (writerWrite None c) as [c2 [w|]]; exact H.
Qed.

(** The log of a session only grows. *)
Lemma loopBody_grows d c sel :
  storeClean (txStore c) -> log c `prefix_of` log (outConn (loopBody d c sel)).
Proof.
  intros Hc.
  assert (Hw : forall f c0, log c0 `prefix_of` log (fst (writerWrite f c0))).
  { intros f c0. destruct (writerWrite_spec f c0) as (w & c1 & -> & Hl & _).
    cbn [fst]. rewrite Hl. now eexists. }
  assert (Ha : forall f sub c0 c1 f1,
             allocateMessageId f sub c0 = Ok (c1, f1) -> log c1 = log c0).
  { intros f sub c0 c1 f1. unfold allocateMessageId.
    destruct (String.eqb _ MESSAGE); [destruct sub; [destruct (isAckAuto _)|]|];
      (discriminate || now intros [= <- _]). }
  assert (He : forall e f c0, log c0 `prefix_of` log (sendErrorImmediately e f c0)).
  { intros e f c0. apply Hw. }
  destruct sel as [[f|]|[f|]|[p|]|]; cbn [loopBody]; try reflexivity.
  - destruct (allocateMessageId f None c) as [[c1 f1]|msg] eqn:E; [|reflexivity].
    rewrite <- (Ha _ _ _ _ _ E). pose proof (Hw (Some f1) c1) as H.
    destruct (writerWrite (Some f1) c1) as [c2 [w|]];
      [|destruct (String.eqb _ ERROR)]; exact H.
  - destruct (Validate f) as [err|]; [apply He|].
    destruct (callState_good d f c Hc) as [_ [_ (evs & Hlog & _)]].
    destruct (callState d f c) as [[c1 f1] [e|]]; cbn [hConn fst outConn] in *.
    + etrans; [|apply He]. now exists evs.
    + now exists evs.
  - destruct (subscriptions (heap c) !! p) as [sub|]; [|reflexivity].
    destruct (frame sub) as [f|]; [|reflexivity].
    destruct (allocateMessageId f (Some sub) c) as [[c1 f1]|msg] eqn:E; [|reflexivity].
    rewrite <- (Ha _ _ _ _ _ E).
    pose proof (Hw (Some f1) (setHeap (storeFrame p f1 (heap c1)) c1)) as H.
    destruct (writerWrite (Some f1) (setHeap (storeFrame p f1 (heap c1)) c1))
      as [c2 [w|]]; cbn [fst] in H; [exact H|].
    destruct (isAckAuto (ack sub)).
    + cbn [outConn request emit log]. etrans; [exact H|]. now eexists.
    + destruct (Add (subListP c2) p (heap c2)); exact H.
  - destruct (0 <? writeTimeout c); [|reflexivity].
    pose proof (Hw None c) as H.
    destruct (writerWrite None c) as [c2 [w|]]; exact H.
Qed.

Lemma loop_grows d turns : forall c,
  storeClean (txStore c) -> log c `prefix_of` log (outConn (loop d c turns)).
Proof.
  induction turns as [|[sel|write] turns IH]; intros c Hc; cbn [loop];
    [reflexivity | | exact (IH (setHeap _ c) Hc)].
  pose proof (loopBody_grows d c sel Hc) as H.
  pose proof (loopBody_storeClean d c sel Hc) as Hc1.
  destruct (loopBody d c sel) as [c1|c1|c1 msg]; cbn [outConn] in *; try exact H.
  etrans; [exact H | apply IH, Hc1].
Qed.

(** An event found behind a list is found in what was appended. *)
Lemma split_behind {A} (evs pre post rest : list A) (e : A) (P : A -> Prop) :
  (pre ++ e :: post = evs ++ rest)%list ->
  Forall (fun x => ~ P x) evs -> P e ->
  exists pre', pre = (evs ++ pre')%list /\ rest = (pre' ++ e :: post)%list.
Proof.
  revert pre. induction evs as [|x evs IH]; intros pre Heq Hall He.
  - exists pre. auto.
  - apply Forall_cons in Hall as [Hx Hall].
    destruct pre as [|y pre]; cbn in Heq; injection Heq as -> Heq.
    + contradiction.
    + destruct (IH pre Heq Hall He) as (pre' & -> & ->). exists pre'. auto.
Qed.

Lemma loop_gate d turns : forall c,
  stateFunc c = connectingS -> storeClean (txStore c) ->
  forall pre e post,
    log (outConn (loop d c turns)) = (log c ++ pre ++ e :: post)%list ->
    passesOn e ->
    exists f reply,
      In (Selects (ReadChannel (Some f))) turns
      /\ In (Command f) [CONNECT; STOMP]
      /\ Authenticate (config c) (default EmptyString (fContains f Login))
                      (default EmptyString (fContains f Passcode)) = true
      /\ In (Queued reply) pre /\ Command reply = CONNECTED.
Proof.
  induction turns as [|[sel|write] turns IH]; intros c Hs Hc pre e post Hlog He;
    cbn [loop] in Hlog.
  - cbn [outConn] in Hlog. exfalso.
    apply (f_equal (@length Event)) in Hlog.
    rewrite !length_app in Hlog. cbn in Hlog. lia.
  - pose proof (loopBody_connecting d c sel Hs) as Hturn.
    pose proof (loopBody_storeClean d c sel Hc) as Hc1.
    cbv zeta in Hturn.
    assert (Hrest : exists rest,
              log (outConn (loop d c (Selects sel :: turns)))
              = (log (outConn (loopBody d c sel)) ++ rest)%list
              /\ (rest <> [] ->
                  exists c1, loopBody d c sel = Continue c1
                             /\ log (outConn (loop d c1 turns))
                                = (log c1 ++ rest)%list)).
    { cbn [loop]. destruct (loopBody d c sel) as [c1|c1|c1 msg] eqn:Eb;
        cbn [outConn] in *.
      - destruct (loop_grows d turns c1 Hc1) as [rest Hr].
        exists rest. split; [exact Hr | eauto].
      - exists []. rewrite app_nil_r. split; [reflexivity | congruence].
      - exists []. rewrite app_nil_r. split; [reflexivity | congruence]. }
    destruct Hrest as (rest & Hall & Hcont). cbn [loop] in Hall.
    rewrite Hall in Hlog.
    destruct Hturn as [(Hcfg & Htx & Hst & evs & Hevs & Hquiet)
                      | (f & reply & -> & Hcmd & Hauth & Hreply & Hevs & Htx)].
    + rewrite Hevs, <- app_assoc in Hlog. apply app_inv_head in Hlog.
      destruct (split_behind evs pre post rest e passesOn (eq_sym Hlog) Hquiet He)
        as (pre' & -> & Hrest).
      destruct Hcont as (c1 & Eb & Hrun); [rewrite Hrest; now destruct pre'|].
      rewrite Eb in *. cbn [outConn] in *.
      destruct (IH c1) with (pre := pre') (e := e) (post := post)
        as (f & reply & Hin & Hcmd & Hauth & Hq & Hreply);
        [congruence | exact Hc1 | rewrite Hrun, Hrest; reflexivity | exact He |].
      exists f, reply. rewrite <- Hcfg. repeat split; auto.
      * now right.
      * apply in_or_app. now right.
    + rewrite Hevs, <- app_assoc in Hlog. apply app_inv_head in Hlog.
      destruct pre as [|x pre]; cbn in Hlog; injection Hlog as Hx Hlog.
      * subst e. destruct He.
      * exists f, reply. subst x. repeat split; auto; now left.
  - apply (IH (setHeap (write (heap c)) c) Hs Hc pre e post) in Hlog; [|exact He].
    destruct Hlog as (f & reply & Hin & H). exists f, reply. split; [now right | exact H].
Qed.

(** X20.  A session lets no frame of a client through before the client
    has authenticated: in every run of the loop of a new session, a
    request to route a frame and an entry in the transaction store come
    only after the session has queued a CONNECTED frame, in answer to a
    CONNECT or STOMP frame it read whose login and passcode [Authenticate]
    accepted. *)
Theorem nothing_before_authentication (d : nat) (cfg : Config) (sl : loc)
    (subsH : gmap loc Subscription) (net : list bool) (turns : list Turn)
    (pre post : list Event) (e : Event) :
  log (outConn (loop d (NewConn cfg sl subsH net) turns)) = (pre ++ e :: post)%list ->
  passesOn e ->
  exists f reply,
    In (Selects (ReadChannel (Some f))) turns
    /\ In (Command f) [CONNECT; STOMP]
    /\ Authenticate cfg (default EmptyString (fContains f Login))
                        (default EmptyString (fContains f Passcode)) = true
    /\ In (Queued reply) pre /\ Command reply = CONNECTED.
Proof.
  intros Hlog He.
  apply (loop_gate d turns (NewConn cfg sl subsH net) eq_refl
           (map_Forall_empty _) pre e post); [exact Hlog | exact He].
Qed.

(** A CONNECT with any credentials, accepted, and a SEND after it. *)
Lemma nothing_before_authentication_witness :
  let cfg := mkConfig 0 (fun _ _ => true) in
  let connect := NewFrame CONNECT [(AcceptVersionH, "1.2"); (Host, "h")] in
  let send := NewFrame SEND [(Destination, "/q")] in
  let turns := [Selects (ReadChannel (Some connect));
                Selects (ReadChannel (Some send))] in
  exists f reply,
    In (Selects (ReadChannel (Some f))) turns
    /\ In (Command f) [CONNECT; STOMP]
    /\ Authenticate cfg (default EmptyString (fContains f Login))
                        (default EmptyString (fContains f Passcode)) = true
    /\ In (Queued reply) [Queued (connectedReply V1_2 0 0)]
    /\ Command reply = CONNECTED.
Proof.
  intros cfg connect send turns.
  apply (nothing_before_authentication 1 cfg 0%nat ∅ [] turns
           [Queued (connectedReply V1_2 0 0)] []
           (Requested (EnqueueOp send))); [vm_compute; reflexivity | exact I].
Defined.

(** * Further properties of the session: the errors of a valid frame *)

Lemma handleSend_clean g c :
  cleanFrame g ->
  exists c' g' err,
    handleSend g c = (c', g', err)
    /\ stateFunc c' = stateFunc c
    /\ (err = None \/ err = Some txUnknown).
Proof.
  intros [_ Hrc]. unfold handleSend.
  destruct (sendReceiptImmediately_cases g c)
    as [[_ ->] | (v & _ & _ & Hv & _)]; [|congruence].
  destruct (fContains g Transaction) as [tx|]; [|eauto 10].
  unfold txAdd. destruct (txStore c !! tx); eauto 10.
Qed.

Lemma replayAll_txUnknown d frames : forall c,
  stateFunc c = connectedS -> Forall cleanFrame frames ->
  snd (replayAll (callState (S d)) frames c) = None
  \/ snd (replayAll (callState (S d)) frames c) = Some txUnknown.
Proof.
  induction frames as [|g frames IH]; intros c Hs Hall; cbn [replayAll];
    [now left|].
  apply Forall_cons in Hall as [Hg Hall].
  assert (Hcall : callState (S d) g c = handleSend g c).
  { cbn [callState]. rewrite Hs. unfold connected.
    destruct Hg as [-> _]. reflexivity. }
  rewrite Hcall.
  destruct (handleSend_clean g c Hg) as (c' & g' & err & -> & Hst & [-> | ->]).
  - apply IH; [congruence | exact Hall].
  - now right.
Qed.

Lemma callState_connected n f c :
  stateFunc c = connectedS -> callState (S n) f c = connected (callState n) f c.
Proof. intros Hs. cbn [callState]. now rewrite Hs. Qed.

(** A valid frame whose command is none of those the connected state
    knows is a CONNECTED frame. *)
Lemma Validate_remaining f :
  Validate f = None ->
  ~ In (Command f) [CONNECT; STOMP; DISCONNECT; BEGIN; ABORT; COMMIT; SEND;
                    SUBSCRIBE; UNSUBSCRIBE; ACK; NACK; MESSAGE; RECEIPT; ERROR] ->
  Command f = CONNECTED.
Proof.
  intros Hv Hn. unfold Validate in Hv. cbv zeta in Hv.
  destruct (String.eqb_spec (Command f) CONNECTED) as [E|N]; [exact E|].
  exfalso. revert Hv.
  repeat match goal with
  | |- context [String.eqb (Command f) ?x] =>
      destruct (String.eqb_spec (Command f) x) as [?E|_];
      [exfalso; apply Hn; rewrite E; simpl; tauto|]
  end.
  cbn [orb]. discriminate.
Qed.

(** X21.  The errors a valid frame can meet in the connected state:
    [unexpectedCommand] for CONNECT, STOMP, MESSAGE, RECEIPT and ERROR;
    [unknownCommand] for CONNECTED; the error of the writer, and only for
    a frame that asked for a receipt; [txAlreadyInProgress] for BEGIN;
    [txUnknown] for SEND, COMMIT and ABORT.  No other error, and none at
    all for DISCONNECT: [Validate] has seen to the headers the handlers
    ask for. *)
Theorem connected_errors (d : nat) (c : Conn) (f : Frame) (e : Error) :
  stateFunc c = connectedS ->
  storeClean (txStore c) ->
  Validate f = None ->
  snd (callState (S (S d)) f c) = Some e ->
  (e = unexpectedCommand /\ In (Command f) unexpected)
  \/ (e = unknownCommand /\ Command f = CONNECTED)
  \/ (e = writeError /\ fContains f Receipt <> None
      /\ In (Command f) receiptCommands)
  \/ (e = txAlreadyInProgress /\ Command f = BEGIN)
  \/ (e = txUnknown /\ In (Command f) [SEND; COMMIT; ABORT]).
Proof.
  intros Hs Hc Hv. rewrite (callState_connected (S d) f c Hs).
  assert (Hreq : forall c1 f1 err,
            sendFrameRequest f c = (c1, f1, Some err) ->
            err = writeError /\ fContains f Receipt <> None).
  { intros c1 f1 err. unfold sendFrameRequest.
    destruct (sendReceiptImmediately_cases f c)
      as [[_ ->] | (v & w & c2 & Hr & -> & _ & _ & _ & _ & [-> | ->])];
      [discriminate | discriminate |].
    intros [= _ _ <-]. split; congruence. }
  assert (Htx : In (Command f) [BEGIN; COMMIT; ABORT] ->
                exists tx, fContains f Transaction = Some tx).
  { intros Hin. pose proof (Validate_transaction f Hv Hin) as H.
    destruct (fContains f Transaction); [eauto | contradiction]. }
  unfold connected. cbv zeta.
  destruct (String.eqb_spec (Command f) CONNECT) as [E|N1].
  { cbn [orb snd]. intros [= <-]. left. rewrite E. simpl. auto. }
  destruct (String.eqb_spec (Command f) STOMP) as [E|N2].
  { cbn [orb snd]. intros [= <-]. left. rewrite E. simpl. auto. }
  cbn [orb].
  destruct (String.eqb_spec (Command f) DISCONNECT) as [E|N3].
  { unfold handleDisconnect. destruct (sendReceiptImmediately f c) as [[c1 f1] w].
    discriminate. }
  destruct (String.eqb_spec (Command f) BEGIN) as [E|N4].
  { destruct Htx as [tx Ht]; [rewrite E; simpl; auto|].
    unfold handleBegin. rewrite Ht.
    destruct (sendReceiptImmediately_cases f c)
      as [[_ ->] | (v & w & c2 & Hr & -> & _ & _ & _ & _ & [-> | ->])].
    - unfold txBegin. destruct (txStore c !! tx); [|discriminate].
      intros [= <-]. do 3 right. left. auto.
    - unfold txBegin. destruct (txStore c2 !! tx); [|discriminate].
      intros [= <-]. do 3 right. left. auto.
    - intros [= <-]. do 2 right. left. repeat split; [congruence|].
      rewrite E. simpl. auto 10. }
  destruct (String.eqb_spec (Command f) ABORT) as [E|N5].
  { destruct Htx as [tx Ht]; [rewrite E; simpl; auto|].
    unfold handleAbort. rewrite Ht.
    destruct (sendReceiptImmediately_cases f c)
      as [[_ ->] | (v & w & c2 & Hr & -> & _ & _ & _ & _ & [-> | ->])].
    - unfold txAbort. destruct (txStore c !! tx); [discriminate|].
      intros [= <-]. do 4 right. rewrite E. simpl. auto.
    - unfold txAbort. destruct (txStore c2 !! tx); [discriminate|].
      intros [= <-]. do 4 right. rewrite E. simpl. auto.
    - intros [= <-]. do 2 right. left. repeat split; [congruence|].
      rewrite E. simpl. auto 10. }
  destruct (String.eqb_spec (Command f) COMMIT) as [E|N6].
  { destruct Htx as [tx Ht]; [rewrite E; simpl; auto|].
    unfold handleCommit. rewrite Ht.
    assert (Hrun : forall c0, stateFunc c0 = connectedS ->
                     txStore c0 = txStore c ->
                     snd (txCommit tx (callState (S d)) c0) = Some e ->
                     e = txUnknown).
    { intros c0 Hs0 Ht0. unfold txCommit. rewrite Ht0.
      destruct (txStore c !! tx) as [l|] eqn:El; [|now intros [= <-]].
      destruct (replayAll_txUnknown d l (setTxStore (delete tx (txStore c)) c0))
        as [H | H]; [exact Hs0 | exact (map_Forall_lookup_1 _ _ _ _ Hc El) | |];
        rewrite H; [discriminate | now intros [= <-]]. }
    destruct (sendReceiptImmediately_cases f c)
      as [[_ ->] | (v & w & c2 & Hr & -> & _ & Ht2 & Hs2 & _ & [-> | ->])].
    - intros H. do 4 right. split; [|rewrite E; simpl; auto].
      apply (Hrun c Hs eq_refl).
      destruct (txCommit tx (callState (S d)) c). exact H.
    - intros H. do 4 right. split; [|rewrite E; simpl; auto].
      apply (Hrun c2); [congruence | exact Ht2 |].
      destruct (txCommit tx (callState (S d)) c2). exact H.
    - intros [= <-]. do 2 right. left. repeat split; [congruence|].
      rewrite E. simpl. auto 10. }
  destruct (String.eqb_spec (Command f) SEND) as [E|N7].
  { unfold handleSend.
    assert (Hadd : forall c0 f0,
              snd (match fContains f0 Transaction with
                   | Some tx =>
                       match txAdd tx f0 (txStore c0) with
                       | (_, _, Some e0) => (c0, f0, Some e0)
                       | (s, f1, None) =>
                           (emit (Stored tx f1) (setTxStore s c0), f1, None)
                       end
                   | None => (request (EnqueueOp f0) c0, f0, None)
                   end) = Some e -> e = txUnknown).
    { intros c0 f0. destruct (fContains f0 Transaction) as [tx|]; [|discriminate].
      unfold txAdd. destruct (txStore c0 !! tx); [discriminate | now intros [= <-]]. }
    destruct (sendReceiptImmediately_cases f c)
      as [[_ ->] | (v & w & c2 & Hr & -> & _ & _ & _ & _ & [-> | ->])].
    - intros H. do 4 right. split; [exact (Hadd _ _ H) | rewrite E; simpl; auto].
    - intros H. do 4 right. split; [exact (Hadd _ _ H) | rewrite E; simpl; auto].
    - intros [= <-]. do 2 right. left. repeat split; [congruence|].
      rewrite E. simpl. auto 10. }
  assert (Hsfr : In (Command f) [SUBSCRIBE; UNSUBSCRIBE; ACK; NACK] ->
                 snd (sendFrameRequest f c) = Some e ->
                 e = writeError /\ fContains f Receipt <> None
                 /\ In (Command f) receiptCommands).
  { intros Hin H. pose proof (Hreq (hConn (sendFrameRequest f c))
                                    (snd (fst (sendFrameRequest f c))) e) as Hreq'.
    destruct (sendFrameRequest f c) as [[c1 f1] err].
    cbn [snd] in H. subst err. destruct (Hreq' eq_refl) as [-> Hr].
    repeat split; [exact Hr|]. simpl in Hin. simpl. tauto. }
  destruct (String.eqb_spec (Command f) SUBSCRIBE) as [E|N8].
  { intros H. do 2 right. left. apply Hsfr; [rewrite E; simpl; auto | exact H]. }
  destruct (String.eqb_spec (Command f) UNSUBSCRIBE) as [E|N9].
  { intros H. do 2 right. left. apply Hsfr; [rewrite E; simpl; auto | exact H]. }
  destruct (String.eqb_spec (Command f) ACK) as [E|N10].
  { intros H. do 2 right. left. apply Hsfr; [rewrite E; simpl; auto | exact H]. }
  destruct (String.eqb_spec (Command f) NACK) as [E|N11].
  { intros H. do 2 right. left. apply Hsfr; [rewrite E; simpl; auto 10 | exact H]. }
  destruct (String.eqb_spec (Command f) MESSAGE) as [E|N12].
  { cbn [orb snd]. intros [= <-]. left. rewrite E. simpl. auto. }
  destruct (String.eqb_spec (Command f) RECEIPT) as [E|N13].
  { cbn [orb snd]. intros [= <-]. left. rewrite E. simpl. auto 10. }
  destruct (String.eqb_spec (Command f) ERROR) as [E|N14].
  { cbn [orb snd]. intros [= <-]. left. rewrite E. simpl. auto 10. }
  cbn [orb snd]. intros [= <-]. right. left. split; [reflexivity|].
  apply Validate_remaining; [exact Hv|]. simpl. intuition congruence.
Qed.

(** A BEGIN for a transaction that is open. *)
Lemma connected_errors_witness :
  let c := setTxStore {[ "t1" := [] ]}
             (setStateFunc connectedS
                (NewConn (mkConfig 0 (fun _ _ => true)) 0%nat ∅ [])) in
  let f := NewFrame BEGIN [(Transaction, "t1")] in
  (txAlreadyInProgress = unexpectedCommand /\ In (Command f) unexpected)
  \/ (txAlreadyInProgress = unknownCommand /\ Command f = CONNECTED)
  \/ (txAlreadyInProgress = writeError /\ fContains f Receipt <> None
      /\ In (Command f) receiptCommands)
  \/ (txAlreadyInProgress = txAlreadyInProgress /\ Command f = BEGIN)
  \/ (txAlreadyInProgress = txUnknown /\ In (Command f) [SEND; COMMIT; ABORT]).
Proof.
  intros c f.
  apply (connected_errors 0 c f txAlreadyInProgress).
  - reflexivity.
  - apply map_Forall_singleton. constructor.
  - reflexivity.
  - reflexivity.
Defined.

(** * Further properties of the session: transactions *)

Lemma sendReceiptImmediately_none f c :
  fContains f Receipt = None -> sendReceiptImmediately f c = (c, f, None).
Proof. unfold sendReceiptImmediately. now intros ->. Qed.

Lemma begin_turn n c tx f :
  stateFunc c = connectedS -> txStore c !! tx = None ->
  inTransaction tx BEGIN f ->
  exists c',
    loopBody (S n) c (ReadChannel (Some f)) = Continue c'
    /\ stateFunc c' = connectedS
    /\ txStore c' = <[tx := []]> (txStore c)
    /\ log c' = log c.
Proof.
  intros Hs Ht (Hcmd & Htx & Hrc & Hv). cbn [loopBody].
  rewrite Hv, (callState_connected n f c Hs).
  rewrite (connected_handler _ BEGIN handleBegin) by (simpl; auto 10).
  unfold handleBegin. rewrite Htx, (sendReceiptImmediately_none f c Hrc).
  unfold txBegin. rewrite Ht.
  eexists. split; [reflexivity|]. cbn. auto.
Qed.

Lemma send_turn n c tx l f :
  stateFunc c = connectedS -> txStore c !! tx = Some l ->
  inTransaction tx SEND f ->
  exists c',
    loopBody (S n) c (ReadChannel (Some f)) = Continue c'
    /\ stateFunc c' = connectedS
    /\ txStore c' = <[tx := (l ++ [fRemove f Transaction])%list]> (txStore c)
    /\ log c' = (log c ++ [Stored tx (fRemove f Transaction)])%list.
Proof.
  intros Hs Ht (Hcmd & Htx & Hrc & Hv). cbn [loopBody].
  rewrite Hv, (callState_connected n f c Hs).
  rewrite (connected_handler _ SEND handleSend) by (simpl; auto 10).
  unfold handleSend. rewrite (sendReceiptImmediately_none f c Hrc), Htx.
  unfold txAdd. rewrite Ht.
  eexists. split; [reflexivity|]. cbn. auto.
Qed.

Lemma sends_run n tx fs : forall c l rest,
  stateFunc c = connectedS -> txStore c !! tx = Some l ->
  Forall (inTransaction tx SEND) fs ->
  exists c',
    loop (S n) c (reads fs ++ rest) = loop (S n) c' rest
    /\ stateFunc c' = connectedS
    /\ txStore c'
       = <[tx := (l ++ map (fun f => fRemove f Transaction) fs)%list]> (txStore c)
    /\ log c' = (log c ++ map (fun f => Stored tx (fRemove f Transaction)) fs)%list.
Proof.
  induction fs as [|f fs IH]; intros c l rest Hs Ht Hall.
  - exists c. cbn [reads map app]. rewrite !app_nil_r.
    repeat split; auto. symmetry. now apply insert_id.
  - apply Forall_cons in Hall as [Hf Hall].
    destruct (send_turn n c tx l f Hs Ht Hf) as (c1 & Hbody & Hs1 & Ht1 & Hl1).
    destruct (IH c1 (l ++ [fRemove f Transaction])%list rest Hs1) as
      (c' & Hrun & Hs' & Ht' & Hl'); [rewrite Ht1; apply lookup_insert_eq | exact Hall |].
    exists c'. cbn [reads map app loop]. rewrite Hbody. fold (reads fs).
    split; [exact Hrun|]. split; [exact Hs'|]. split.
    + rewrite Ht', Ht1, insert_insert_eq, <- app_assoc. reflexivity.
    + rewrite Hl', Hl1, <- app_assoc. reflexivity.
Qed.

Lemma replayAll_routes d gs : forall c,
  stateFunc c = connectedS -> Forall replayable gs ->
  exists c',
    replayAll (callState (S d)) gs c = (c', None)
    /\ stateFunc c' = connectedS
    /\ txStore c' = txStore c
    /\ log c' = (log c ++ map (fun g => Requested (EnqueueOp g)) gs)%list.
Proof.
  induction gs as [|g gs IH]; intros c Hs Hall; cbn [replayAll].
  - exists c. rewrite app_nil_r. auto.
  - apply Forall_cons in Hall as [(Hcmd & Hrc & Htx) Hall].
    rewrite (callState_connected d g c Hs).
    rewrite (connected_handler _ SEND handleSend) by (simpl; auto 10).
    unfold handleSend. rewrite (sendReceiptImmediately_none g c Hrc), Htx.
    destruct (IH (request (EnqueueOp g) c) Hs Hall) as (c' & -> & Hs' & Ht' & Hl').
    exists c'. repeat split; auto.
    rewrite Hl'. cbn [request emit log map]. now rewrite <- app_assoc.
Qed.

Lemma commit_turn d c tx gs f :
  stateFunc c = connectedS -> txStore c !! tx = Some gs ->
  Forall replayable gs ->
  inTransaction tx COMMIT f ->
  exists c',
    loopBody (S (S d)) c (ReadChannel (Some f)) = Continue c'
    /\ stateFunc c' = connectedS
    /\ txStore c' = delete tx (txStore c)
    /\ log c' = (log c ++ map (fun g => Requested (EnqueueOp g)) gs)%list.
Proof.
  intros Hs Ht Hall (Hcmd & Htx & Hrc & Hv). cbn [loopBody].
  rewrite Hv, (callState_connected (S d) f c Hs).
  rewrite (connected_handler _ COMMIT (handleCommit (callState (S d))))
    by (simpl; auto 10).
  unfold handleCommit. rewrite Htx, (sendReceiptImmediately_none f c Hrc).
  unfold txCommit. rewrite Ht.
  destruct (replayAll_routes d gs (setTxStore (delete tx (txStore c)) c) Hs Hall)
    as (c' & -> & Hs' & Ht' & Hl').
  exists c'. repeat split; auto.
Qed.

Lemma abort_turn n c tx gs f :
  stateFunc c = connectedS -> txStore c !! tx = Some gs ->
  inTransaction tx ABORT f ->
  exists c',
    loopBody (S n) c (ReadChannel (Some f)) = Continue c'
    /\ stateFunc c' = connectedS
    /\ txStore c' = delete tx (txStore c)
    /\ log c' = log c.
Proof.
  intros Hs Ht (Hcmd & Htx & Hrc & Hv). cbn [loopBody].
  rewrite Hv, (callState_connected n f c Hs).
  rewrite (connected_handler _ ABORT handleAbort) by (simpl; auto 10).
  unfold handleAbort. rewrite Htx, (sendReceiptImmediately_none f c Hrc).
  unfold txAbort. rewrite Ht.
  eexists. split; [reflexivity|]. cbn. auto.
Qed.

Lemma stored_replayable tx fs :
  Forall (inTransaction tx SEND) fs ->
  Forall replayable (map (fun f => fRemove f Transaction) fs).
Proof.
  induction 1 as [|f fs (Hcmd & _ & Hrc & _) _ IH]; cbn [map]; constructor;
    [|exact IH].
  unfold replayable, fRemove, fContains. cbn [withHeaders Command headers].
  rewrite Contains_Remove_same, Contains_Remove_other by discriminate. auto.
Qed.

(** X22.  A transaction from BEGIN to COMMIT: the SEND frames of the
    transaction go to the store as they come, less their transaction
    header, and none of them reaches the upper layer before the COMMIT;
    the COMMIT routes them all, in the order they were sent, and leaves
    the store as it was before the BEGIN. *)
Theorem transaction_commit (d : nat) (c : Conn) (tx : string)
    (fb fc : Frame) (fs : list Frame) :
  stateFunc c = connectedS ->
  txStore c !! tx = None ->
  inTransaction tx BEGIN fb ->
  Forall (inTransaction tx SEND) fs ->
  inTransaction tx COMMIT fc ->
  let gs := map (fun f => fRemove f Transaction) fs in
  exists c1 c',
    loop (S (S d)) c (reads (fb :: fs)) = Continue c1
    /\ log c1 = (log c ++ map (Stored tx) gs)%list
    /\ loop (S (S d)) c (reads (fb :: fs ++ [fc])) = Continue c'
    /\ log c' = (log c1 ++ map (fun g => Requested (EnqueueOp g)) gs)%list
    /\ txStore c' = txStore c.
Proof.
  intros Hs Ht Hb Hfs Hc gs.
  destruct (begin_turn (S d) c tx fb Hs Ht Hb) as (c0 & Hbody & Hs0 & Ht0 & Hl0).
  assert (Ht0' : txStore c0 !! tx = Some []) by (rewrite Ht0; apply lookup_insert_eq).
  destruct (sends_run (S d) tx fs c0 [] [] Hs0 Ht0' Hfs)
    as (c1 & Hrun1 & Hs1 & Ht1 & Hl1).
  destruct (sends_run (S d) tx fs c0 [] (reads [fc]) Hs0 Ht0' Hfs)
    as (c2 & Hrun2 & Hs2 & Ht2 & Hl2).
  cbn [app] in Ht1, Ht2. fold gs in Ht1, Ht2.
  assert (Hg2 : txStore c2 !! tx = Some gs) by (rewrite Ht2; apply lookup_insert_eq).
  destruct (commit_turn d c2 tx gs fc Hs2 Hg2 (stored_replayable tx fs Hfs) Hc)
    as (c' & Hbody' & Hs' & Ht' & Hl').
  exists c1, c'. repeat split.
  - cbn [reads map loop]. rewrite Hbody. fold (reads fs).
    rewrite <- (app_nil_r (reads fs)), Hrun1. reflexivity.
  - rewrite Hl1, Hl0. unfold gs. now rewrite map_map.
  - unfold reads. rewrite map_cons, map_app. cbn [loop]. rewrite Hbody.
    fold (reads fs) (reads [fc]). rewrite Hrun2. cbn [reads map loop].
    rewrite Hbody'. reflexivity.
  - rewrite Hl', Hl2, Hl1. reflexivity.
  - rewrite Ht', Ht2, Ht0, insert_insert_eq. now apply delete_insert_id.
Qed.

(** Two SEND frames in transaction t1. *)
Lemma transaction_commit_witness :
  let c := setStateFunc connectedS
             (NewConn (mkConfig 0 (fun _ _ => true)) 0%nat ∅ []) in
  let s1 := NewFrame SEND [(Destination, "/a"); (Transaction, "t1")] in
  let s2 := NewFrame SEND [(Destination, "/b"); (Transaction, "t1")] in
  let g1 := NewFrame SEND [(Destination, "/a")] in
  let g2 := NewFrame SEND [(Destination, "/b")] in
  exists c1 c',
    loop 2 c (reads [NewFrame BEGIN [(Transaction, "t1")]; s1; s2]) = Continue c1
    /\ log c1 = [Stored "t1" g1; Stored "t1" g2]
    /\ loop 2 c (reads [NewFrame BEGIN [(Transaction, "t1")]; s1; s2;
                        NewFrame COMMIT [(Transaction, "t1")]]) = Continue c'
    /\ log c' = (log c1 ++ [Requested (EnqueueOp g1); Requested (EnqueueOp g2)])%list
    /\ txStore c' = txStore c.
Proof.
  intros c s1 s2 g1 g2.
  apply (transaction_commit 0 c "t1" (NewFrame BEGIN [(Transaction, "t1")])
           (NewFrame COMMIT [(Transaction, "t1")]) [s1; s2]).
  - reflexivity.
  - reflexivity.
  - repeat split.
  - repeat constructor.
  - repeat split.
Defined.

(** X23.  A transaction from BEGIN to ABORT: the SEND frames of the
    transaction go to the store, less their transaction header, and
    that is all the session does; no request goes to the upper layer.
    The ABORT drops the frames: the store is as it was before the
    BEGIN. *)
Theorem transaction_abort (n : nat) (c : Conn) (tx : string)
    (fb fa : Frame) (fs : list Frame) :
  stateFunc c = connectedS ->
  txStore c !! tx = None ->
  inTransaction tx BEGIN fb ->
  Forall (inTransaction tx SEND) fs ->
  inTransaction tx ABORT fa ->
  exists c',
    loop (S n) c (reads (fb :: fs ++ [fa])) = Continue c'
    /\ log c' = (log c ++ map (fun f => Stored tx (fRemove f Transaction)) fs)%list
    /\ txStore c' = txStore c.
Proof.
  intros Hs Ht Hb Hfs Ha.
  destruct (begin_turn n c tx fb Hs Ht Hb) as (c0 & Hbody & Hs0 & Ht0 & Hl0).
  assert (Ht0' : txStore c0 !! tx = Some []) by (rewrite Ht0; apply lookup_insert_eq).
  destruct (sends_run n tx fs c0 [] (reads [fa]) Hs0 Ht0' Hfs)
    as (c2 & Hrun2 & Hs2 & Ht2 & Hl2).
  cbn [app] in Ht2.
  destruct (abort_turn n c2 tx _ fa Hs2 (eq_trans (f_equal (fun m => m !! tx) Ht2)
                                           (lookup_insert_eq _ _ _)) Ha)
    as (c' & Hbody' & Hs' & Ht' & Hl').
  exists c'. repeat split.
  - unfold reads. rewrite map_cons, map_app. cbn [loop]. rewrite Hbody.
    fold (reads fs) (reads [fa]). rewrite Hrun2. cbn [reads map loop].
    rewrite Hbody'. reflexivity.
  - rewrite Hl', Hl2, Hl0. reflexivity.
  - rewrite Ht', Ht2, Ht0, insert_insert_eq. now apply delete_insert_id.
Qed.

Lemma transaction_abort_witness :
  let c := setStateFunc connectedS
             (NewConn (mkConfig 0 (fun _ _ => true)) 0%nat ∅ []) in
  let s1 := NewFrame SEND [(Destination, "/a"); (Transaction, "t1")] in
  exists c',
    loop 1 c (reads [NewFrame BEGIN [(Transaction, "t1")]; s1;
                     NewFrame ABORT [(Transaction, "t1")]]) = Continue c'
    /\ log c' = [Stored "t1" (NewFrame SEND [(Destination, "/a")])]
    /\ txStore c' = txStore c.
Proof.
  intros c s1.
  apply (transaction_abort 0 c "t1" (NewFrame BEGIN [(Transaction, "t1")])
           (NewFrame ABORT [(Transaction, "t1")]) [s1]).
  - reflexivity.
  - reflexivity.
  - repeat split.
  - repeat constructor.
  - repeat split.
Defined.

(** * Further properties of the session: heart-beats to the client *)

Lemma receiptFree_no_beat rest :
  Forall receiptFree rest -> Forall (fun e => ~ isHeartBeat e) rest.
Proof.
  induction 1 as [|e rest He _ IH]; constructor; [|exact IH].
  destruct e as [[w|] ?| | |]; cbn in *; tauto.
Qed.

(** A handler of the connected state writes no heart-beat. *)
Lemma callState_no_beat d c f :
  stateFunc c = connectedS -> storeClean (txStore c) -> Validate f = None ->
  exists evs,
    log (hConn (callState (S (S d)) f c)) = (log c ++ evs)%list
    /\ Forall (fun e => ~ isHeartBeat e) evs.
Proof.
  intros Hs Hc Hv.
  destruct (in_dec string_dec (Command f) receiptCommands) as [Hin|Hout].
  - pose proof (callState_served d c f Hs Hc Hv Hin) as Hserved.
    destruct (callState (S (S d)) f c) as [[c' f'] err]. cbn [hConn fst].
    destruct Hserved as (pre & w & rest & Hlog & Hpre & _ & Hrest & _).
    exists (pre ++ rest)%list. split; [exact Hlog|].
    apply Forall_app. split; [|exact (receiptFree_no_beat rest Hrest)].
    unfold receiptPrefix in Hpre. destruct (fContains f Receipt).
    + subst pre. constructor; [intros [] | constructor].
    + destruct Hpre as [-> _]. constructor.
  - rewrite (callState_connected (S d) f c Hs). unfold connected. cbv zeta.
    assert (Hnone : exists evs, log c = (log c ++ evs)%list
                                /\ Forall (fun e => ~ isHeartBeat e) evs).
    { exists []. now rewrite app_nil_r. }
    destruct (String.eqb (Command f) CONNECT || String.eqb (Command f) STOMP);
      [exact Hnone|].
    destruct (String.eqb (Command f) DISCONNECT).
    { unfold handleDisconnect.
      destruct (sendReceiptImmediately_cases f c)
        as [[_ ->] | (v & w & c2 & _ & -> & Hlog & _)]; cbn [hConn fst];
        [exact Hnone|].
      eexists. split; [exact Hlog|]. constructor; [intros [] | constructor]. }
    repeat match goal with
    | |- context [String.eqb (Command f) ?x] =>
        destruct (String.eqb_spec (Command f) x) as [?E|_];
        [first [exfalso; apply Hout; rewrite E; simpl; tauto | exact Hnone]|]
    end.
    exact Hnone.
Qed.

(** A turn of the loop of a connected session without write timeout
    writes no heart-beat. *)
Lemma loopBody_no_beat d c sel :
  stateFunc c = connectedS -> storeClean (txStore c) -> writeTimeout c = 0 ->
  exists evs,
    log (outConn (loopBody (S (S d)) c sel)) = (log c ++ evs)%list
    /\ Forall (fun e => ~ isHeartBeat e) evs.
Proof.
  intros Hs Hc Hw.
  assert (Hnone : exists evs, log c = (log c ++ evs)%list
                              /\ Forall (fun e => ~ isHeartBeat e) evs).
  { exists []. now rewrite app_nil_r. }
  assert (Hwr : forall g c0 evs0,
            log c0 = (log c ++ evs0)%list ->
            Forall (fun e => ~ isHeartBeat e) evs0 ->
            exists evs,
              log (fst (writerWrite (Some g) c0)) = (log c ++ evs)%list
              /\ Forall (fun e => ~ isHeartBeat e) evs).
  { intros g c0 evs0 Hl H0.
    destruct (writerWrite_spec (Some g) c0) as (w & c1 & -> & Hl1 & _).
    exists (evs0 ++ [Written (Some g) w])%list. cbn [fst].
    rewrite Hl1, Hl, <- app_assoc. split; [reflexivity|].
    apply Forall_app. split; [exact H0|]. constructor; [intros [] | constructor]. }
  assert (Ha : forall g sub c0 c1 f1,
             allocateMessageId g sub c0 = Ok (c1, f1) -> log c1 = log c0).
  { intros g sub c0 c1 f1. unfold allocateMessageId.
    destruct (String.eqb _ MESSAGE); [destruct sub; [destruct (isAckAuto _)|]|];
      (discriminate || now intros [= <- _]). }
  destruct sel as [[f|]|[f|]|[p|]|]; cbn [loopBody]; try exact Hnone.
  - destruct (allocateMessageId f None c) as [[c1 f1]|msg] eqn:E; [|exact Hnone].
    destruct (Hwr f1 c1 []) as (evs & Hl & Hall);
      [rewrite (Ha _ _ _ _ _ E); now rewrite app_nil_r | constructor |].
    destruct (writerWrite (Some f1) c1) as [c2 [w|]];
      [|destruct (String.eqb _ ERROR)]; eauto.
  - destruct (Validate f) as [err|] eqn:Hv.
    + apply (Hwr _ c []); [now rewrite app_nil_r | constructor].
    + destruct (callState_no_beat d c f Hs Hc Hv) as (evs & Hl & Hall).
      destruct (callState (S (S d)) f c) as [[c1 f1] [e|]]; cbn [hConn fst] in Hl;
        cbn [outConn]; [|eauto].
      apply (Hwr _ c1 evs Hl Hall).
  - destruct (subscriptions (heap c) !! p) as [sub|]; [|exact Hnone].
    destruct (frame sub) as [f|]; [|exact Hnone].
    destruct (allocateMessageId f (Some sub) c) as [[c1 f1]|msg] eqn:E; [|exact Hnone].
    destruct (Hwr f1 (setHeap (storeFrame p f1 (heap c1)) c1) [])
      as (evs & Hl & Hall);
      [cbn [setHeap log]; rewrite (Ha _ _ _ _ _ E); now rewrite app_nil_r
      | constructor |].
    destruct (writerWrite (Some f1) (setHeap (storeFrame p f1 (heap c1)) c1))
      as [c2 [w|]]; cbn [fst] in Hl; [eauto|].
    destruct (isAckAuto (ack sub)).
    + cbn [outConn request emit log]. exists (evs ++ [Requested (SubscribeOp p)])%list.
      rewrite Hl, <- app_assoc. split; [reflexivity|].
      apply Forall_app. split; [exact Hall|]. constructor; [intros [] | constructor].
    + destruct (Add (subListP c2) p (heap c2)); cbn [outConn setHeap log]; eauto.
  - rewrite Hw. exact Hnone.
Qed.

Lemma loop_no_beat d turns : forall c,
  stateFunc c = connectedS -> storeClean (txStore c) -> writeTimeout c = 0 ->
  exists evs,
    log (outConn (loop (S (S d)) c turns)) = (log c ++ evs)%list
    /\ Forall (fun e => ~ isHeartBeat e) evs.
Proof.
  induction turns as [|[sel|write] turns IH]; intros c Hs Hc Hw; cbn [loop].
  - exists []. now rewrite app_nil_r.
  - destruct (loopBody_no_beat d c sel Hs Hc Hw) as (evs & Hl & Hall).
    pose proof (loopBody_storeClean (S (S d)) c sel Hc) as Hc1.
    pose proof (loopBody_negotiated (S (S d)) c sel Hs) as Hn.
    destruct (loopBody (S (S d)) c sel) as [c1|c1|c1 msg]; cbn [outConn] in *;
      eauto.
    unfold negotiated in Hn. injection Hn as Hs1 _ _ Hw1.
    destruct (IH c1) as (evs' & Hl' & Hall'); [congruence | exact Hc1 | congruence |].
    exists (evs ++ evs')%list. rewrite Hl', Hl, <- app_assoc.
    split; [reflexivity | now apply Forall_app].
  - apply (IH (setHeap (write (heap c)) c) Hs Hc Hw).
Qed.

(** X24.  A client whose CONNECT or STOMP frame asks for no heart-beats
    from the server (the second number of its heart-beat header is 0, or
    it has no such header) never gets one: whatever the turns of the
    loop after the frame was accepted, timer turns among them, the
    session hands no heart-beat to the writer. *)
Theorem no_heart_beat_unless_asked (d : nat) (c c1 : Conn) (f f' : Frame)
    (cx : Z) (turns : list Turn) :
  handleConnect f c = (c1, f', None) ->
  HeartBeat f = (cx, 0, None) ->
  storeClean (txStore c) ->
  exists evs,
    log (outConn (loop (S (S d)) c1 turns)) = (log c1 ++ evs)%list
    /\ Forall (fun e => ~ isHeartBeat e) evs.
Proof.
  intros Hh Hb Hc.
  destruct (handleConnect_cases f c)
    as [[_ E] | [(_ & _ & E) | [(_ & _ & v & e & _ & E)
        | [(_ & _ & v & cx' & cy' & e & _ & _ & E)
        | (_ & _ & v & cx' & cy' & _ & Hb' & _ & _ & E)]]]];
    rewrite E in Hh; try discriminate.
  rewrite Hb in Hb'. injection Hb' as <- <-. injection Hh as <- _.
  apply loop_no_beat; [reflexivity | exact Hc | reflexivity].
Qed.

(** A CONNECT without heart-beat header, and three turns of the timer. *)
Lemma no_heart_beat_unless_asked_witness :
  let c := NewConn (mkConfig 0 (fun _ _ => true)) 0%nat ∅ [] in
  let f := NewFrame CONNECT [(AcceptVersionH, "1.2"); (Host, "h")] in
  exists evs,
    log (outConn (loop 2 (hConn (handleConnect f c))
                    [Selects TimerChannel; Selects TimerChannel;
                     Selects TimerChannel]))
    = (log (hConn (handleConnect f c)) ++ evs)%list
    /\ Forall (fun e => ~ isHeartBeat e) evs.
Proof.
  intros c f.
  apply (no_heart_beat_unless_asked 0 c (hConn (handleConnect f c)) f f 0).
  - reflexivity.
  - reflexivity.
  - apply map_Forall_empty.
Defined.
